(** * The shared-memory log transport of Daddy's [dDetector]

    A shallow embedding of [src/core/dd_detector.cpp]: the page codec
    ([LogPageP]), the producer ([LogPageWriterP]), the consumer
    ([LogPageReaderP]), the typed encoders ([DetectorWriterP]), the parse
    primitives, the scope guard ([dDetector::Stack]), [valid], and of
    [runClient] and [killClient] (Linux) the path that is executed and the
    search for the processes to signal.

    Conventions of the embedding.
    - Fixed-width integers are [Z] with the wrap-around written out
      ([uint16_t], [uint32_t], [size_t] are the reductions modulo 2^16, 2^32
      and 2^64; the build is taken to be LP64 and little-endian).
    - The backing file is one flat array of bytes indexed by file offset.  A
      mapped view of page [k] is the address [LOG_PAGE_SIZE * k], so a pointer
      into a view is a file offset, and [nullptr] is [None].  A store past the
      end of a view is undefined in C++; here it lands at the file offset it
      names, and every store is recorded in a ghost list so that the footprint
      of an operation can be stated.
    - The writer mutex and the view flush have no effect in a sequential
      model and are left out; the clock is an argument of the operations
      that read it. *)

From Stdlib Require Import ZArith List Lia Bool String Strings.Byte.
Import ListNotations.
Local Open Scope Z_scope.

(** ** Machine integers and bytes *)

Definition uint16_t (z : Z) : Z := z mod 2 ^ 16.
Definition uint32_t (z : Z) : Z := z mod 2 ^ 32.
Definition size_t (z : Z) : Z := z mod 2 ^ 64.
Definition int32_t (z : Z) : Z := (z + 2 ^ 31) mod 2 ^ 32 - 2 ^ 31.
Definition int64_t (z : Z) : Z := (z + 2 ^ 63) mod 2 ^ 64 - 2 ^ 63.

Definition byte_of_Z (z : Z) : byte :=
  match Byte.of_N (Z.to_N (z mod 256)) with
  | Some b => b
  | None => x00
  end.

Definition Z_of_byte (b : byte) : Z := Z.of_N (Byte.to_N b).

(** The [n] low bytes of [v], least significant first. *)
Fixpoint le_bytes (n : nat) (v : Z) : list byte :=
  match n with
  | O => []
  | S n' => byte_of_Z v :: le_bytes n' (v / 256)
  end.

(** ** The backing file *)

(** Which statement of the source performed a store. *)
Inductive Site : Set :=
  | PageHeaderStore   (* the memcpy of rewriteHeader *)
  | UnitHeaderStore   (* the memcpy of writeLock *)
  | PayloadStore.     (* the stores of the encoders *)

Record Heap : Type := mkHeap {
  cells : Z -> byte;            (* the bytes of the file, by file offset *)
  stored : list (Site * Z)      (* ghost: every store so far, newest first *)
}.

Definition store8 (k : Site) (a : Z) (b : byte) (h : Heap) : Heap :=
  {| cells := fun x => if x =? a then b else cells h x;
     stored := (k, a) :: stored h |}.

Fixpoint memcpy (k : Site) (dst : Z) (src : list byte) (h : Heap) : Heap :=
  match src with
  | [] => h
  | b :: bs => memcpy k (dst + 1) bs (store8 k dst b h)
  end.

Definition store_le (k : Site) (a : Z) (n : nat) (v : Z) (h : Heap) : Heap :=
  memcpy k a (le_bytes n v) h.

Fixpoint load_le (m : Z -> byte) (a : Z) (n : nat) : Z :=
  match n with
  | O => 0
  | S n' => Z_of_byte (m a) + 256 * load_le m (a + 1) n'
  end.

Fixpoint load_bytes (m : Z -> byte) (a : Z) (n : nat) : list byte :=
  match n with
  | O => []
  | S n' => m a :: load_bytes m (a + 1) n'
  end.

(** The bytes of the NUL-terminated string at [a] (at most [fuel] of them). *)
Fixpoint cstring (m : Z -> byte) (a : Z) (fuel : nat) : list byte :=
  match fuel with
  | O => []
  | S fuel' =>
      if Byte.eqb (m a) x00 then [] else m a :: cstring m (a + 1) fuel'
  end.

(** The value of a little-endian byte string. *)
Fixpoint le_value (bs : list byte) : Z :=
  match bs with
  | [] => 0
  | b :: bs' => Z_of_byte b + 256 * le_value bs'
  end.

(** The ghost list: what an operation adds to it. *)
Definition adds (P : Site * Z -> Prop) (h h' : Heap) : Prop :=
  exists new, stored h' = new ++ stored h /\ Forall P new.

(** ** LogPageP *)

Definition LOG_FILE_SIZE : Z := 4096 * 256 * 5.
Definition LOG_PAGE_SIZE : Z := 4096 * 16.
Definition LOG_PAGE_COUNT : Z := LOG_FILE_SIZE / LOG_PAGE_SIZE.
Definition LOG_UNIT_PACKING : Z := 4.

Definition sizeof_PageHeader : Z := 8.
Definition sizeof_UnitHeader : Z := 4.
Definition sizeof_uint16_t : Z := 2.

Definition alignedSize (size : Z) : Z :=
  uint32_t (uint32_t (size + LOG_UNIT_PACKING - 1) / LOG_UNIT_PACKING
            * LOG_UNIT_PACKING).

(** [struct PageHeader {char mCode; char mActivity; uint16_t mPackingCount;
    uint32_t mPageID;}] as it lies in memory. *)
Definition PageHeader_bytes (mCode mActivity : byte) (mPackingCount mPageID : Z)
  : list byte :=
  [mCode; mActivity] ++ le_bytes 2 mPackingCount ++ le_bytes 4 mPageID.

(** [struct UnitHeader {uint16_t mPackingCount; uint16_t mFuncID;}]. *)
Definition UnitHeader_bytes (mPackingCount mFuncID : Z) : list byte :=
  le_bytes 2 mPackingCount ++ le_bytes 2 mFuncID.

Record LogPageP : Type := mkLogPageP {
  mBuffer : option Z;
  mBufferOffset : Z;
  mPageOffset : Z;
  mPageID : Z
}.

Definition LogPageP_init : LogPageP :=
  {| mBuffer := None; mBufferOffset := 0; mPageOffset := 0; mPageID := 0 |}.

(** The address held by [mBuffer]; pointer arithmetic on it is reached only
    with a mapped page (see [validPage_mapped] and [reader_live]). *)
Definition buf (p : LogPageP) : Z :=
  match mBuffer p with Some b => b | None => 0 end.

Definition mapped (p : LogPageP) : bool :=
  match mBuffer p with Some _ => true | None => false end.

(** [LOG_VIEW_OPEN_FOR_WRITE] and [LOG_VIEW_OPEN_FOR_READ]: the view of
    [LOG_PAGE_SIZE] bytes at file offset [offset]. *)
Definition LOG_VIEW_OPEN (offset : Z) : Z := offset.

(** ** LogPageWriterP *)

Module LogPageWriterP.

Definition rewriteHeader (actcode : byte) (offset : Z) (w : LogPageP) (fm : Heap)
  : Z * Heap :=
  let NewHeader :=
    PageHeader_bytes "#" actcode
      (uint16_t (size_t (offset - sizeof_PageHeader) / LOG_UNIT_PACKING))
      (mPageID w) in
  (sizeof_PageHeader, memcpy PageHeaderStore (buf w) NewHeader fm).

Definition validPage (fm : Heap) (space : Z) (w : LogPageP) : LogPageP * Heap :=
  if negb (mapped w) || (LOG_PAGE_SIZE <? uint32_t (mBufferOffset w + space))
  then
    let '(w1, fm1) :=
      if mapped w then
        let '(_, fm') := rewriteHeader "-" (mBufferOffset w) w fm in
        ({| mBuffer := None;
            mBufferOffset := 0;
            mPageOffset := uint32_t (mPageOffset w + 1) mod LOG_PAGE_COUNT;
            mPageID := 0 |}, fm')
      else (w, fm) in
    let w2 :=
      {| mBuffer := Some (LOG_VIEW_OPEN (uint32_t (LOG_PAGE_SIZE * mPageOffset w1)));
         mBufferOffset := mBufferOffset w1;
         mPageOffset := mPageOffset w1;
         mPageID := mPageID w1 |} in
    let '(r, fm2) := rewriteHeader "+" sizeof_UnitHeader w2 fm1 in
    ({| mBuffer := mBuffer w2;
        mBufferOffset := r;
        mPageOffset := mPageOffset w2;
        mPageID := mPageID w2 |}, fm2)
  else (w, fm).

Definition writeLock (fm : Heap) (funcId payloadSize : Z) (w : LogPageP)
  : Z * LogPageP * Heap :=
  let mPackingCount :=
    uint16_t (uint32_t (payloadSize + LOG_UNIT_PACKING - 1) / LOG_UNIT_PACKING) in
  let NewHeader := UnitHeader_bytes mPackingCount funcId in
  let PackingPayloadSize := uint32_t (LOG_UNIT_PACKING * mPackingCount) in
  let '(w1, fm1) :=
    validPage fm (uint32_t (sizeof_UnitHeader + PackingPayloadSize)) w in
  let fm2 := memcpy UnitHeaderStore (buf w1 + mBufferOffset w1) NewHeader fm1 in
  (buf w1 + mBufferOffset w1 + sizeof_UnitHeader, w1, fm2).

Definition writeUnlock (fm : Heap) (alignedPtr : Z) (w : LogPageP)
  : LogPageP * Heap :=
  let w1 :=
    {| mBuffer := mBuffer w;
       mBufferOffset := uint32_t (alignedPtr - buf w);
       mPageOffset := mPageOffset w;
       mPageID := mPageID w |} in
  let '(_, fm1) := rewriteHeader "+" (mBufferOffset w1) w1 fm in
  (w1, fm1).

(** [_quit_] followed by [_init_]: the terminal stamp, then the reset. *)
Definition close (fm : Heap) (w : LogPageP) : LogPageP * Heap :=
  let fm1 :=
    if mapped w then snd (rewriteHeader "/" (mBufferOffset w) w fm) else fm in
  (LogPageP_init, fm1).

End LogPageWriterP.

(** ** The public enumerations of dDetector *)

(** Modelled from the spec: [dDetector::FuncID], [dDetector::ReadResult] and
    the callback type [ReadCB] are declared in dd_detector.hpp, which is not
    among the sources.  The event ids follow the assignment the
    specification gives (section 6). *)
Inductive FuncID : Set :=
  | ScopeBeginST | ScopeEndST | StampST | TraceST | ValidST
  | SetValueSS | SetValueST | AddValueST.

Definition FuncID_code (f : FuncID) : Z :=
  match f with
  | ScopeBeginST => 1 | ScopeEndST => 2 | StampST => 3 | TraceST => 4
  | ValidST => 5 | SetValueSS => 6 | SetValueST => 7 | AddValueST => 8
  end.

Inductive ReadResult : Set := Readed | Unreaded | ExitProgram | LogNotFound.

(** Modelled from the spec: [dDetector::Level], of dd_detector.hpp, with the
    values of section 6. *)
Inductive Level : Set := InfoLevel | WarnLevel | ErrorLevel.

Definition Level_code (l : Level) : Z :=
  match l with InfoLevel => 0 | WarnLevel => 1 | ErrorLevel => 2 end.

Definition ReadResult_eqb (a b : ReadResult) : bool :=
  match a, b with
  | Readed, Readed | Unreaded, Unreaded
  | ExitProgram, ExitProgram | LogNotFound, LogNotFound => true
  | _, _ => false
  end.

(** One invocation of the read callback: [cb(id, payload, length)]. *)
Record Callback : Type := mkCallback {
  cbFuncID : Z;
  cbPayload : Z;
  cbLength : Z
}.

(** ** LogPageReaderP *)

Record LogPageReaderP : Type := mkLogPageReaderP {
  super :> LogPageP;
  mPageBusy : bool;
  mPageSize : Z
}.

Module LogPageReaderP.

Definition init : LogPageReaderP :=
  {| super := LogPageP_init; mPageBusy := false; mPageSize := 0 |}.

Definition loadPage (fm : Z -> byte) (r : LogPageReaderP)
  : ReadResult * LogPageReaderP :=
  let NewBuffer := LOG_VIEW_OPEN (uint32_t (LOG_PAGE_SIZE * mPageOffset r)) in
  let mCode := fm NewBuffer in
  let mActivity := fm (NewBuffer + 1) in
  let mPackingCount := load_le fm (NewBuffer + 2) 2 in
  let NewPageID := load_le fm (NewBuffer + 4) 4 in
  if Byte.eqb mCode "#" then
    ((if Byte.eqb mActivity "/" then ExitProgram else Readed),
     {| super := {| mBuffer := Some NewBuffer;
                    mBufferOffset := sizeof_PageHeader;
                    mPageOffset := mPageOffset r;
                    mPageID := NewPageID |};
        mPageBusy := Byte.eqb mActivity "+";
        mPageSize :=
          uint32_t (sizeof_PageHeader + LOG_UNIT_PACKING * mPackingCount) |})
  else (Unreaded, r).

Definition open (fm : Z -> byte) (r : LogPageReaderP) : LogPageReaderP :=
  snd (loadPage fm r).

Definition setPageOffset (v : Z) (r : LogPageReaderP) : LogPageReaderP :=
  {| super := {| mBuffer := mBuffer r;
                 mBufferOffset := mBufferOffset r;
                 mPageOffset := v;
                 mPageID := mPageID r |};
     mPageBusy := mPageBusy r;
     mPageSize := mPageSize r |}.

(** The record read that ends [readOnce]: sample the UnitHeader at the
    cursor, call back, step over the record. *)
Definition readUnit (fm : Z -> byte) (r : LogPageReaderP)
  : ReadResult * option Callback * LogPageReaderP :=
  let mPackingCount := load_le fm (buf r + mBufferOffset r) 2 in
  let mFuncID := load_le fm (buf r + mBufferOffset r + 2) 2 in
  (Readed,
   Some {| cbFuncID := mFuncID;
           cbPayload := buf r + mBufferOffset r + sizeof_UnitHeader;
           cbLength := LOG_UNIT_PACKING * mPackingCount |},
   {| super := {| mBuffer := mBuffer r;
                  mBufferOffset :=
                    uint32_t (mBufferOffset r
                              + (sizeof_UnitHeader
                                 + LOG_UNIT_PACKING * mPackingCount));
                  mPageOffset := mPageOffset r;
                  mPageID := mPageID r |};
      mPageBusy := mPageBusy r;
      mPageSize := mPageSize r |}).

Definition readOnce (fm : Z -> byte) (r : LogPageReaderP)
  : ReadResult * option Callback * LogPageReaderP :=
  if mBufferOffset r =? mPageSize r then
    if mPageBusy r then
      let mActivity := fm (buf r + 1) in
      let mPackingCount := load_le fm (buf r + 2) 2 in
      let r1 :=
        {| super := super r;
           mPageBusy := Byte.eqb mActivity "+";
           mPageSize :=
             uint32_t (sizeof_PageHeader + LOG_UNIT_PACKING * mPackingCount) |} in
      let Result :=
        if Byte.eqb mActivity "/" then ExitProgram
        else if mBufferOffset r1 =? mPageSize r1 then Unreaded
        else Readed in
      if negb (ReadResult_eqb Result Readed) then (Result, None, r1)
      else readUnit fm r1
    else
      let OldPageOffset := mPageOffset r in
      let r1 :=
        setPageOffset (uint32_t (mPageOffset r + 1) mod LOG_PAGE_COUNT) r in
      let '(Result, r2) := loadPage fm r1 in
      if negb (ReadResult_eqb Result Readed)
      then (Result, None, setPageOffset OldPageOffset r2)
      else readUnit fm r2
  else readUnit fm r.

End LogPageReaderP.

(** ** DetectorWriterP: the typed encoders *)

(** The fixed-width payload types the facade instantiates [writeT] and
    [writeST] with. *)
Inductive FixedT : Set := Int32 | Int64.

Definition sizeof (T : FixedT) : Z :=
  match T with Int32 => 4 | Int64 => 8 end.

Record DetectorWriterP : Type := mkDetectorWriterP {
  mLogFM : Heap;
  mPageWriter : LogPageP
}.

Module DetectorWriterP.

Import LogPageWriterP.

(** [FileMapP(filename, filesize)] truncates the file and extends it by a
    seek and a one-byte write, so that every byte reads as zero;
    [mPageWriter.open()] does nothing. *)
Definition create : DetectorWriterP :=
  {| mLogFM := {| cells := fun _ => x00; stored := [] |};
     mPageWriter := LogPageP_init |}.

(** The destructor: [mPageWriter.close()]. *)
Definition destroy (d : DetectorWriterP) : DetectorWriterP :=
  let '(w, fm) := close (mLogFM d) (mPageWriter d) in
  {| mLogFM := fm; mPageWriter := w |}.

(** The block every string encoder repeats: the 16-bit length, the [sn]
    bytes of [s], the NUL. *)
Definition putS (PayloadPtr : Z) (s : list byte) (sn : Z) (fm : Heap) : Heap :=
  let fm := store_le PayloadStore PayloadPtr 2 (uint16_t sn) fm in
  let fm := memcpy PayloadStore (PayloadPtr + sizeof_uint16_t)
              (firstn (Z.to_nat sn) s) fm in
  store8 PayloadStore (PayloadPtr + (sizeof_uint16_t + sn)) x00 fm.

(** [*((T* ) PayloadPtr) = n]. *)
Definition putT (T : FixedT) (PayloadPtr : Z) (n : Z) (fm : Heap) : Heap :=
  store_le PayloadStore PayloadPtr (Z.to_nat (sizeof T)) n fm.

Definition writeS (id : Z) (s : list byte) (sn : Z) (d : DetectorWriterP)
  : DetectorWriterP :=
  let PayloadSize1 := alignedSize (uint32_t (size_t (sizeof_uint16_t + sn + 1))) in
  let '(PayloadPtr, w, fm) :=
    writeLock (mLogFM d) id PayloadSize1 (mPageWriter d) in
  let fm := putS PayloadPtr s sn fm in
  let PayloadPtr := PayloadPtr + PayloadSize1 in
  let '(w, fm) := writeUnlock fm PayloadPtr w in
  {| mLogFM := fm; mPageWriter := w |}.

Definition writeSS (id : Z) (s1 : list byte) (sn1 : Z) (s2 : list byte) (sn2 : Z)
  (d : DetectorWriterP) : DetectorWriterP :=
  let PayloadSize1 := alignedSize (uint32_t (size_t (sizeof_uint16_t + sn1 + 1))) in
  let PayloadSize2 := alignedSize (uint32_t (size_t (sizeof_uint16_t + sn2 + 1))) in
  let '(PayloadPtr, w, fm) :=
    writeLock (mLogFM d) id PayloadSize1 (mPageWriter d) in
  let fm := putS PayloadPtr s1 sn1 fm in
  let PayloadPtr := PayloadPtr + PayloadSize1 in
  let fm := putS PayloadPtr s2 sn2 fm in
  let PayloadPtr := PayloadPtr + PayloadSize2 in
  let '(w, fm) := writeUnlock fm PayloadPtr w in
  {| mLogFM := fm; mPageWriter := w |}.

Definition writeT (T : FixedT) (id : Z) (n : Z) (d : DetectorWriterP)
  : DetectorWriterP :=
  let PayloadSize1 := alignedSize (sizeof T) in
  let '(PayloadPtr, w, fm) :=
    writeLock (mLogFM d) id PayloadSize1 (mPageWriter d) in
  let fm := putT T PayloadPtr n fm in
  let PayloadPtr := PayloadPtr + PayloadSize1 in
  let '(w, fm) := writeUnlock fm PayloadPtr w in
  {| mLogFM := fm; mPageWriter := w |}.

Definition writeST (T : FixedT) (id : Z) (s : list byte) (sn : Z) (t : Z)
  (d : DetectorWriterP) : DetectorWriterP :=
  let PayloadSize1 := alignedSize (uint32_t (size_t (sizeof_uint16_t + sn + 1))) in
  let PayloadSize2 := alignedSize (sizeof T) in
  let '(PayloadPtr, w, fm) :=
    writeLock (mLogFM d) id (uint32_t (PayloadSize1 + PayloadSize2))
      (mPageWriter d) in
  let fm := putS PayloadPtr s sn fm in
  let PayloadPtr := PayloadPtr + PayloadSize1 in
  let fm := putT T PayloadPtr t fm in
  let PayloadPtr := PayloadPtr + PayloadSize2 in
  let '(w, fm) := writeUnlock fm PayloadPtr w in
  {| mLogFM := fm; mPageWriter := w |}.

End DetectorWriterP.

(** ** DetectorReaderP *)

(** [mLogFM] of the reader: the file as it reads at the time of a call, or
    nothing when it could not be opened ([isValid()] is false). *)
Record DetectorReaderP : Type := mkDetectorReaderP {
  isValid : bool;
  mPageReader : LogPageReaderP
}.

Module DetectorReaderP.

Definition create (file : option (Z -> byte)) : DetectorReaderP :=
  match file with
  | Some fm =>
      {| isValid := true;
         mPageReader := LogPageReaderP.open fm LogPageReaderP.init |}
  | None => {| isValid := false; mPageReader := LogPageReaderP.init |}
  end.

Definition readOnce (fm : Z -> byte) (d : DetectorReaderP)
  : ReadResult * option Callback * DetectorReaderP :=
  if isValid d then
    let '(Result, cb, r) := LogPageReaderP.readOnce fm (mPageReader d) in
    (Result, cb, {| isValid := isValid d; mPageReader := r |})
  else (LogNotFound, None, d).

End DetectorReaderP.

(** ** dDetector: the facade *)

(** Modelled from the spec: [dLiteral] is declared in dd_string.hpp, which is
    not among the sources; it carries the bytes of a name and their number
    ([string()] and [length()]). *)
Definition dLiteral : Type := list byte.

Definition dLiteral_length (l : dLiteral) : Z := Z.of_nat (List.length l).

Definition literal (s : string) : dLiteral := list_byte_of_string s.

Record Stack : Type := mkStack { mName : dLiteral }.

(** How a call of [valid] ends: in [DD_crash], or by returning with the
    caller's condition as it then is. *)
Inductive Outcome : Set := Crashed | Returns (condition : bool).

Module dDetector.

Import DetectorWriterP.

(** [Stack::Stack(const dLiteral& name)], at clock reading [now]. *)
Definition Stack_new (name : dLiteral) (now : Z) (d : DetectorWriterP)
  : Stack * DetectorWriterP :=
  let self := {| mName := name |} in
  (self,
   writeST Int64 (FuncID_code ScopeBeginST)
     (mName self) (dLiteral_length (mName self)) now d).

(** [Stack::Stack(Stack&& rhs)]: the new guard and what is left of [rhs].
    [residue] is the name a moved-from [dLiteral] is left with, which
    dd_string.hpp decides. *)
Definition Stack_move (residue : dLiteral -> dLiteral) (rhs : Stack)
  : Stack * Stack :=
  ({| mName := mName rhs |}, {| mName := residue (mName rhs) |}).

(** [Stack::~Stack()], at clock reading [now]. *)
Definition Stack_delete (self : Stack) (now : Z) (d : DetectorWriterP)
  : DetectorWriterP :=
  writeST Int64 (FuncID_code ScopeEndST)
    (mName self) (dLiteral_length (mName self)) now d.

Definition stamp (name : dLiteral) (now : Z) (d : DetectorWriterP)
  : DetectorWriterP :=
  writeST Int64 (FuncID_code StampST) name (dLiteral_length name) now d.

(** [trace(level, format, ...)]: [text] is what the external formatter made
    of the format and its arguments; the line printed to the standard output
    is not modelled. *)
Definition trace (level : Level) (text : list byte) (d : DetectorWriterP)
  : DetectorWriterP :=
  writeST Int32 (FuncID_code TraceST) text (Z.of_nat (List.length text))
    (int32_t (Level_code level)) d.

Definition scope (name : dLiteral) (now : Z) (d : DetectorWriterP)
  : Stack * DetectorWriterP :=
  Stack_new name now d.

(** [setValue(dLiteral name, dLiteral value)]. *)
Definition setValueSS (name value : dLiteral) (d : DetectorWriterP)
  : DetectorWriterP :=
  writeSS (FuncID_code SetValueSS) name (dLiteral_length name)
    value (dLiteral_length value) d.

(** [setValue(dLiteral name, int32_t value)]. *)
Definition setValueST (name : dLiteral) (value : Z) (d : DetectorWriterP)
  : DetectorWriterP :=
  writeST Int32 (FuncID_code SetValueST) name (dLiteral_length name) value d.

Definition addValue (name : dLiteral) (addition : Z) (d : DetectorWriterP)
  : DetectorWriterP :=
  writeST Int32 (FuncID_code AddValueST) name (dLiteral_length name) addition d.

(** [valid(condition, format, ...)].  [gValidKey] is the static counter of
    the function (it starts at -1) and is returned as it is left; [text] is
    what the external formatter made of the format and its arguments; [reply]
    is the 32-bit command read from the file ["nabang-valid-<key>"] once the
    semaphore of that name has been released, or [None] when the file cannot
    be opened.  Modelled from the spec: [DD_crash] is declared outside
    dd_detector.cpp; it crashes the process.  The wait on the semaphore and
    the line printed to the standard output are not modelled. *)
Definition valid (condition : bool) (text : list byte) (reply : option Z)
  (gValidKey : Z) (d : DetectorWriterP) : Outcome * Z * DetectorWriterP :=
  if negb condition then
    let gValidKey := int32_t (gValidKey + 1) in
    let d := writeST Int32 (FuncID_code ValidST) text
               (Z.of_nat (List.length text)) gValidKey d in
    let Command := match reply with Some c => c | None => 0 end in
    ((if Command =? 0 then Crashed
      else if Command =? 1 then Returns condition
      else if Command =? 2 then Returns true
      else Returns condition),
     gValidKey, d)
  else (Returns condition, gValidKey, d).

(** The loop of [runClient] (Linux) over the bytes of [ExecutePath]:
    [LastSlash] ends as the index of the last ['/'], or as it began. *)
Fixpoint lastSlash (ExecutePath : list byte) (i LastSlash : Z) : Z :=
  match ExecutePath with
  | [] => LastSlash
  | c :: rest =>
      lastSlash rest (i + 1) (if Byte.eqb c "/" then i else LastSlash)
  end.

(** The path [runClient] (Linux) executes: [link] is what readlink wrote
    into the zero-filled [ExecutePath] (fewer than PATH_MAX bytes, none of
    them NUL); the NUL stored at [LastSlash + 1] cuts it there and strcat
    appends [exepath]. *)
Definition executePath (link exepath : list byte) : list byte :=
  let LastSlash := lastSlash link 0 0 in
  firstn (Z.to_nat (LastSlash + 1)) link ++ exepath.

(** [strspn(s, "0123456789") == strlen(s)]. *)
Definition isDigit (c : byte) : bool :=
  (Z_of_byte "0" <=? Z_of_byte c) && (Z_of_byte c <=? Z_of_byte "9").

Definition allDigits (s : list byte) : bool := forallb isDigit s.

(** [strstr(haystack, needle) != NULL]. *)
Fixpoint isPrefixOf (needle haystack : list byte) : bool :=
  match needle, haystack with
  | [], _ => true
  | _ :: _, [] => false
  | a :: needle', b :: haystack' => Byte.eqb a b && isPrefixOf needle' haystack'
  end.

Fixpoint strstr (haystack needle : list byte) : bool :=
  isPrefixOf needle haystack
  || match haystack with
     | [] => false
     | _ :: haystack' => strstr haystack' needle
     end.

(** [strtol(s, NULL, 10)] on a string that begins with its digits: the
    value of the leading digits, held at [LONG_MAX] once it is beyond. *)
Definition LONG_MAX : Z := 2 ^ 63 - 1.

Fixpoint strtol (s : list byte) (acc : Z) : Z :=
  match s with
  | [] => acc
  | c :: rest =>
      if isDigit c
      then strtol rest
             (Z.min LONG_MAX (10 * acc + (Z_of_byte c - Z_of_byte "0")))
      else acc
  end.

(** [atoi], as the C library of Linux has it: [(int) strtol(s, NULL, 10)]. *)
Definition atoi (s : list byte) : Z := int32_t (strtol s 0).

(** [killClient(name, all)] (Linux): the process ids [kill] is called with,
    in order.  [entries] are the names [readdir] returns for ["/proc/"], in
    its order (a name of digits is taken to fit [ExeLink]).  [readlink
    ExeLink] is the content of the link at the path [ExeLink], without NUL,
    or [None] when readlink fails; the call of the code reads at most 252
    bytes of it into [TargetName], and stores the NUL after them (one past
    the array when there are 252).  [kill pid] tells whether
    [kill(pid, SIGINT)] returns to the caller: it does not when the signal
    ends the caller itself.  strspn and strstr are the functions of the C
    library. *)
Fixpoint killClient (name : list byte) (all : bool)
  (readlink : list byte -> option (list byte)) (kill : Z -> bool)
  (entries : list (list byte)) : list Z :=
  match entries with
  | [] => []
  | d_name :: rest =>
      if allDigits d_name then
        let ExeLink := literal "/proc/" ++ d_name ++ literal "/exe" in
        match readlink ExeLink with
        | Some target =>
            let TargetLength := Z.min (Z.of_nat (List.length target)) 252 in
            if 0 <? TargetLength then
              let TargetName := firstn (Z.to_nat TargetLength) target in
              if strstr TargetName name then
                let ProcessID := atoi d_name in
                ProcessID
                :: (if kill ProcessID
                    then if negb all then []
                         else killClient name all readlink kill rest
                    else [])
              else killClient name all readlink kill rest
            else killClient name all readlink kill rest
        | None => killClient name all readlink kill rest
        end
      else killClient name all readlink kill rest
  end.

Definition readOnce := DetectorReaderP.readOnce.

Definition parseInt32 (fm : Z -> byte) (payload : Z) : Z * Z :=
  (int32_t (load_le fm payload 4), payload + alignedSize 4).

Definition parseInt64 (fm : Z -> byte) (payload : Z) : Z * Z :=
  (int64_t (load_le fm payload 8), payload + alignedSize 8).

(** Returns the pointer to the bytes of the string and the new cursor. *)
Definition parseString (fm : Z -> byte) (payload : Z) : Z * Z :=
  let StringLength := load_le fm payload 2 in
  (payload + sizeof_uint16_t,
   payload + alignedSize (uint32_t (size_t (sizeof_uint16_t + StringLength + 1)))).

End dDetector.


(** ** Predicates of the statements *)

(** A store that is not a page-header rewrite lands in the record area of
    the page mapped at [base]. *)
Definition in_record_area (base : Z) (e : Site * Z) : Prop :=
  fst e <> PageHeaderStore ->
  base + sizeof_PageHeader <= snd e < base + LOG_PAGE_SIZE.

(** The writer's cursor is past the page header and far from wrapping. *)
Definition cursor_ok (w : LogPageP) : Prop :=
  mapped w = true -> sizeof_PageHeader <= mBufferOffset w < 2 ^ 31.

(** The S-block of a string [s] of [sn] bytes is at [p] in [m]: the stored
    prefix is [uint16_t sn], the bytes and the NUL follow; below 65536 the
    prefix is [sn] itself and [parseString] steps over exactly the block
    the encoder reserved, from 65536 on the prefix is not [sn]. *)
Definition S_block_at (m : Z -> byte) (p : Z) (s : list byte) (sn : Z) : Prop :=
  load_le m p 2 = sn mod 2 ^ 16
  /\ load_bytes m (p + sizeof_uint16_t) (List.length s) = s
  /\ m (p + sizeof_uint16_t + sn) = x00
  /\ (sn < 2 ^ 16 ->
      load_le m p 2 = sn
      /\ fst (dDetector.parseString m p) = p + sizeof_uint16_t
      /\ snd (dDetector.parseString m p)
         = p + alignedSize (uint32_t (size_t (sizeof_uint16_t + sn + 1))))
  /\ (2 ^ 16 <= sn -> load_le m p 2 <> sn).

(** The reader [r] stands where [w] has its cursor and knows of data
    beyond it. *)
Definition reader_at (w : LogPageP) (r : LogPageReaderP) : Prop :=
  mBuffer r = mBuffer w /\ mBufferOffset r = mBufferOffset w
  /\ mBufferOffset r <> mPageSize r.

(** ** Scenarios *)

Module Scenario.

Import dDetector.

(** [n] calls of [readOnce] on a file that does not change meanwhile: the
    result and the callback of each call, in order, and the reader left. *)
Fixpoint readMany (fm : Z -> byte) (n : nat) (d : DetectorReaderP)
  : list (ReadResult * option Callback) * DetectorReaderP :=
  match n with
  | O => ([], d)
  | S n' =>
      let '(Result, cb, d1) := readOnce fm d in
      let '(rest, d2) := readMany fm n' d1 in
      ((Result, cb) :: rest, d2)
  end.

(** What a callback makes of an ST payload with a 64-bit or a 32-bit field,
    and of an SS payload, with the parse primitives. *)
Definition decodeST64 (fm : Z -> byte) (cb : Callback) : list byte * Z :=
  let '(s, cursor) := parseString fm (cbPayload cb) in
  (cstring fm s (Z.to_nat 65536), fst (parseInt64 fm cursor)).

Definition decodeST32 (fm : Z -> byte) (cb : Callback) : list byte * Z :=
  let '(s, cursor) := parseString fm (cbPayload cb) in
  (cstring fm s (Z.to_nat 65536), fst (parseInt32 fm cursor)).

Definition decodeSS (fm : Z -> byte) (cb : Callback) : list byte * list byte :=
  let '(s1, cursor) := parseString fm (cbPayload cb) in
  let '(s2, _) := parseString fm cursor in
  (cstring fm s1 (Z.to_nat 65536), cstring fm s2 (Z.to_nat 65536)).

(** [stamp("A")] at clock reading 1000, and then the clean exit. *)
Definition stamped : DetectorWriterP :=
  stamp (literal "A") 1000 DetectorWriterP.create.

Definition stamped_exited : DetectorWriterP :=
  DetectorWriterP.destroy stamped.

(** [setValue("k", "v")] and then [setValue("k", 7)]. *)
Definition two_values : DetectorWriterP :=
  setValueST (literal "k") 7
    (setValueSS (literal "k") (literal "v") DetectorWriterP.create).

(** A trace of 65504 bytes leaves 12 free bytes in page 0, so that the stamp
    after it is written to page 1; then the clean exit. *)
Definition long_text : list byte := repeat "x"%byte (Z.to_nat 65504).

Definition two_pages_exited : DetectorWriterP :=
  DetectorWriterP.destroy
    (stamp (literal "A") 2000
       (trace InfoLevel long_text DetectorWriterP.create)).

(** A guard for ["f"] is made at 10 and moved once; the new guard dies at
    20, the moved-from one at 30. *)
Definition moved_guard (residue : dLiteral -> dLiteral) : DetectorWriterP :=
  let '(g, d1) := scope (literal "f") 10 DetectorWriterP.create in
  let '(g', dead) := Stack_move residue g in
  let d2 := Stack_delete g' 20 d1 in
  Stack_delete dead 30 d2.

(** The reader that stands on the page of the writer of [d], at its
    cursor, and knows the page as busy and of that size. *)
Definition follower (d : DetectorWriterP) : LogPageReaderP :=
  {| super := mPageWriter d;
     mPageBusy := true;
     mPageSize := mBufferOffset (mPageWriter d) |}.

(** A trace of 65504 bytes: it leaves 12 free bytes in page 0. *)
Definition long_trace : DetectorWriterP :=
  trace InfoLevel long_text DetectorWriterP.create.

End Scenario.

(** ** Tactics *)

(** Linear arithmetic with division and remainder by constants. *)
Ltac zdiv := Z.div_mod_to_equations; lia.

(** Closed goals about a scenario, by evaluation. *)
Ltac closed :=
  vm_compute; repeat split; first [reflexivity | discriminate].

(** Unfolds the constants of the codec and the integer casts. *)
Ltac machine :=
  change LOG_PAGE_COUNT with 80 in *;
  change LOG_PAGE_SIZE with 65536 in *;
  change LOG_FILE_SIZE with 5242880 in *;
  change LOG_UNIT_PACKING with 4 in *;
  change sizeof_PageHeader with 8 in *;
  change sizeof_UnitHeader with 4 in *;
  change sizeof_uint16_t with 2 in *;
  unfold uint16_t, uint32_t, size_t, LOG_VIEW_OPEN in *;
  change (2 ^ 16) with 65536 in *;
  change (2 ^ 32) with 4294967296 in *;
  change (2 ^ 64) with 18446744073709551616 in *.


(** ** The page as the writer keeps it and as the reader follows it *)

(** The current page of the writer is live and its header is up to date:
    activity ['+'] and a packing count that matches the cursor, which is a
    multiple of 4 within the page. *)
Definition page_open (d : DetectorWriterP) : Prop :=
  let w := mPageWriter d in
  let m := cells (mLogFM d) in
  mapped w = true
  /\ sizeof_PageHeader <= mBufferOffset w <= LOG_PAGE_SIZE
  /\ mBufferOffset w mod LOG_UNIT_PACKING = 0
  /\ m (buf w) = "#"%byte
  /\ m (buf w + 1) = "+"%byte
  /\ sizeof_PageHeader + LOG_UNIT_PACKING * load_le m (buf w + 2) 2
     = mBufferOffset w.

(** The current page of the writer is the page of the ring its
    [mPageOffset] names. *)
Definition on_ring (w : LogPageP) : Prop :=
  mBuffer w = Some (LOG_PAGE_SIZE * mPageOffset w)
  /\ 0 <= mPageOffset w < LOG_PAGE_COUNT.

(** The reader has the writer's page mapped as a busy page and has consumed
    all it knows of, up to the writer's cursor. *)
Definition caught_up (d : DetectorWriterP) (r : LogPageReaderP) : Prop :=
  mBuffer r = mBuffer (mPageWriter d)
  /\ mBufferOffset r = mBufferOffset (mPageWriter d)
  /\ mPageSize r = mBufferOffset (mPageWriter d)
  /\ mPageBusy r = true.

(** The records [cbs] lie back to back in [m] from address [a] to address
    [e], each as the reader would call it back. *)
Fixpoint framed (m : Z -> byte) (a : Z) (cbs : list Callback) (e : Z) : Prop :=
  match cbs with
  | [] => a = e
  | cb :: rest =>
      cbFuncID cb = load_le m (a + 2) 2
      /\ cbPayload cb = a + sizeof_UnitHeader
      /\ cbLength cb = LOG_UNIT_PACKING * load_le m a 2
      /\ framed m (a + sizeof_UnitHeader + cbLength cb) rest e
  end.

(** The events of the shapes S, T and ST. *)
Inductive Event : Type :=
  | EvS (id : Z) (s : list byte)
  | EvT (T : FixedT) (id : Z) (n : Z)
  | EvST (T : FixedT) (id : Z) (s : list byte) (t : Z).

Definition emit (e : Event) (d : DetectorWriterP) : DetectorWriterP :=
  match e with
  | EvS id s => DetectorWriterP.writeS id s (Z.of_nat (List.length s)) d
  | EvT T id n => DetectorWriterP.writeT T id n d
  | EvST T id s t =>
      DetectorWriterP.writeST T id s (Z.of_nat (List.length s)) t d
  end.

Definition blockSize (s : list byte) : Z :=
  alignedSize (uint32_t (size_t (sizeof_uint16_t + Z.of_nat (List.length s) + 1))).

(** The payload size an encoder declares for an event. *)
Definition payloadSize (e : Event) : Z :=
  match e with
  | EvS _ s => blockSize s
  | EvT T _ _ => alignedSize (sizeof T)
  | EvST T _ s _ => blockSize s + alignedSize (sizeof T)
  end.

Definition eventId (e : Event) : Z :=
  match e with EvS id _ | EvT _ id _ | EvST _ id _ _ => id end.

(** The function id fits 16 bits and the string is shorter than 65536
    bytes. *)
Definition encodable (e : Event) : Prop :=
  0 <= eventId e < 2 ^ 16
  /\ match e with
     | EvS _ s | EvST _ _ s _ => Z.of_nat (List.length s) < 2 ^ 16
     | EvT _ _ _ => True
     end.

(** The fixed-width value as [parseInt32] or [parseInt64] returns it. *)
Definition parseT (T : FixedT) (m : Z -> byte) (payload : Z) : Z * Z :=
  match T with
  | Int32 => dDetector.parseInt32 m payload
  | Int64 => dDetector.parseInt64 m payload
  end.

Definition castT (T : FixedT) (n : Z) : Z :=
  match T with Int32 => int32_t n | Int64 => int64_t n end.

(** The callback [cb] carries the event [e]: id and declared length, and a
    payload from which the parse primitives get the fields back, ending at
    the end of the payload. *)
Definition decodes (m : Z -> byte) (cb : Callback) (e : Event) : Prop :=
  cbFuncID cb = eventId e
  /\ cbLength cb = payloadSize e
  /\ match e with
     | EvS _ s =>
         S_block_at m (cbPayload cb) s (Z.of_nat (List.length s))
         /\ snd (dDetector.parseString m (cbPayload cb))
            = cbPayload cb + cbLength cb
     | EvT T _ n =>
         parseT T m (cbPayload cb) = (castT T n, cbPayload cb + cbLength cb)
     | EvST T _ s t =>
         S_block_at m (cbPayload cb) s (Z.of_nat (List.length s))
         /\ parseT T m (snd (dDetector.parseString m (cbPayload cb)))
            = (castT T t, cbPayload cb + cbLength cb)
     end.

(** The reader with its cursor moved to [v]. *)
Definition setBufferOffset (v : Z) (r : LogPageReaderP) : LogPageReaderP :=
  {| super := {| mBuffer := mBuffer r; mBufferOffset := v;
                 mPageOffset := mPageOffset r; mPageID := mPageID r |};
     mPageBusy := mPageBusy r;
     mPageSize := mPageSize r |}.

(** The stores of the encoder of [e] between [writeLock] and
    [writeUnlock], for the payload pointer [p]. *)
Definition payloadStores (e : Event) (p : Z) (h : Heap) : Heap :=
  match e with
  | EvS _ s => DetectorWriterP.putS p s (Z.of_nat (List.length s)) h
  | EvT T _ n => DetectorWriterP.putT T p n h
  | EvST T _ s t =>
      DetectorWriterP.putT T (p + blockSize s) t
        (DetectorWriterP.putS p s (Z.of_nat (List.length s)) h)
  end.

(** The callback of the record of [e] whose payload is at [p]. *)
Definition callbackOf (e : Event) (p : Z) : Callback :=
  {| cbFuncID := eventId e; cbPayload := p; cbLength := payloadSize e |}.

(** The events [evs] written one after the other. *)
Definition emitAll (evs : list Event) (d : DetectorWriterP) : DetectorWriterP :=
  fold_left (fun d e => emit e d) evs d.

(** The bytes the records of [evs] take. *)
Fixpoint totalSize (evs : list Event) : Z :=
  match evs with
  | [] => 0
  | e :: rest => sizeof_UnitHeader + payloadSize e + totalSize rest
  end.

(** The callbacks of records of [evs] that lie back to back from address
    [a]. *)
Fixpoint callbacksFrom (a : Z) (evs : list Event) : list Callback :=
  match evs with
  | [] => []
  | e :: rest =>
      callbackOf e (a + sizeof_UnitHeader)
      :: callbacksFrom (a + sizeof_UnitHeader + payloadSize e) rest
  end.

(** The page the writer takes next: the one after its current page, or its
    first page when it has none yet. *)
Definition nextPageOffset (w : LogPageP) : Z :=
  if mapped w then (mPageOffset w + 1) mod LOG_PAGE_COUNT else mPageOffset w.

(** The file as [validPage] leaves it when it gives up the page of [w]: the
    header of a mapped page is rewritten with activity ['-'] at the cursor. *)
Definition retired (w : LogPageP) (fm : Heap) : Heap :=
  if mapped w
  then snd (LogPageWriterP.rewriteHeader "-" (mBufferOffset w) w fm)
  else fm.

(** The reader as [loadPage] leaves it on the page [n] of the ring, once it
    has found the code ['#'] there. *)
Definition adopted (m : Z -> byte) (n : Z) : LogPageReaderP :=
  let NewBuffer := LOG_PAGE_SIZE * n in
  {| super := {| mBuffer := Some NewBuffer;
                 mBufferOffset := sizeof_PageHeader;
                 mPageOffset := n;
                 mPageID := load_le m (NewBuffer + 4) 4 |};
     mPageBusy := Byte.eqb (m (NewBuffer + 1)) "+";
     mPageSize :=
       sizeof_PageHeader + LOG_UNIT_PACKING * load_le m (NewBuffer + 2) 2 |}.

(** The reader once it has sampled, at the end of its page, a header that
    is no longer active and gives the size [size]. *)
Definition retiredAt (size : Z) (r : LogPageReaderP) : LogPageReaderP :=
  {| super := super r; mPageBusy := false; mPageSize := size |}.

(** The next [readOnce] of the reader [r] on the file of [d'] is a callback
    with the id of [f] whose payload holds the string [s], NUL-terminated,
    where [parseString] points, and after it the value [t] of the type [T];
    the reader has then caught up with [d']. *)
Definition delivers (d' : DetectorWriterP) (r : LogPageReaderP)
  (f : FuncID) (s : list byte) (T : FixedT) (t : Z) : Prop :=
  let m := cells (mLogFM d') in
  exists cb r',
    LogPageReaderP.readOnce m r = (Readed, Some cb, r')
    /\ cbFuncID cb = FuncID_code f
    /\ (let '(str, cursor) := dDetector.parseString m (cbPayload cb) in
        load_bytes m str (List.length s) = s
        /\ m (str + Z.of_nat (List.length s)) = x00
        /\ parseT T m cursor = (t, cbPayload cb + cbLength cb))
    /\ caught_up d' r'.

(** The reader has a page, or it is at the end of no page and not busy:
    then [readOnce] turns to the next page before it reads anything. *)
Definition live (r : LogPageReaderP) : Prop :=
  mapped r = false -> mBufferOffset r = mPageSize r /\ mPageBusy r = false.

(** [PATH_MAX] as [runClient] defines it. *)
Definition PATH_MAX : Z := 1024 + 1.

(** A batch for the scenarios: an S, a T and an ST event. *)
Definition batch : list Event :=
  [EvS 6 (literal "k"); EvT Int32 7 (-5); EvST Int64 3 (literal "B") 2000].

(** The writer between two calls: its page offset names a page of the ring
    and, once it has a page, this is that page, with a header that is up to
    date. *)
Definition writer_ok (d : DetectorWriterP) : Prop :=
  let w := mPageWriter d in
  0 <= mPageOffset w < LOG_PAGE_COUNT
  /\ (mapped w = true ->
      page_open d /\ mBuffer w = Some (LOG_PAGE_SIZE * mPageOffset w)).

(** The record of [e] fits an empty page. *)
Definition fitsPage (e : Event) : Prop :=
  sizeof_PageHeader + sizeof_UnitHeader + payloadSize e <= LOG_PAGE_SIZE.

(** A reader that keeps up with the writer: after every record the writer
    appends, it calls [readOnce] twice.  Per record, the results of the two
    calls and the file as it was at these calls. *)
Fixpoint lockstep (evs : list Event) (d : DetectorWriterP) (rd : DetectorReaderP)
  : list (list (ReadResult * option Callback) * (Z -> byte)) :=
  match evs with
  | [] => []
  | e :: rest =>
      let d' := emit e d in
      let m' := cells (mLogFM d') in
      let '(out, rd') := Scenario.readMany m' 2 rd in
      (out, m') :: lockstep rest d' rd'
  end.

(** Of the two calls one is a callback, with a payload that decodes to [e],
    and the other returns [Unreaded]. *)
Definition deliveredOnce
  (o : list (ReadResult * option Callback) * (Z -> byte)) (e : Event) : Prop :=
  exists cb,
    (fst o = [(Readed, Some cb); (Unreaded, None)]
     \/ fst o = [(Unreaded, None); (Readed, Some cb)])
    /\ decodes (snd o) cb e.

(** The elements of [l] up to and with the first one at which [stop]
    holds. *)
Fixpoint upTo {A : Type} (stop : A -> bool) (l : list A) : list A :=
  match l with
  | [] => []
  | x :: rest => x :: (if stop x then [] else upTo stop rest)
  end.

(** The reader after a failed advance onto the page [n] of the ring, which
    is terminal: [loadPage] has adopted that page and [readOnce] has put
    the page offset [old] back. *)
Definition strandedOn (m : Z -> byte) (n old : Z) : LogPageReaderP :=
  LogPageReaderP.setPageOffset old (adopted m n).
(** * Properties *)

Import LogPageWriterP.

(** ** Bytes and little-endian values *)

Lemma Z_of_byte_range (b : byte) : 0 <= Z_of_byte b < 256.
Proof.
  unfold Z_of_byte. pose proof (Byte.to_N_bounded b). lia.
Qed.

Lemma Z_of_byte_of_Z (z : Z) : Z_of_byte (byte_of_Z z) = z mod 256.
Proof.
  unfold byte_of_Z, Z_of_byte.
  pose proof (Z.mod_pos_bound z 256 ltac:(lia)) as Hr.
  destruct (Byte.of_N (Z.to_N (z mod 256))) as [b|] eqn:E.
  - apply Byte.to_of_N in E. rewrite E. lia.
  - apply Byte.of_N_None_iff in E. lia.
Qed.

Lemma byte_of_Z_of_byte (b : byte) : byte_of_Z (Z_of_byte b) = b.
Proof.
  unfold byte_of_Z.
  rewrite Z.mod_small by apply Z_of_byte_range.
  unfold Z_of_byte. rewrite N2Z.id, Byte.of_to_N. reflexivity.
Qed.

Lemma load_le_value (m : Z -> byte) (n : nat) :
  forall a, load_le m a n = le_value (load_bytes m a n).
Proof.
  induction n as [|n IH]; intros a; simpl; [reflexivity|].
  rewrite IH. reflexivity.
Qed.

Lemma le_value_le_bytes (n : nat) :
  forall v, le_value (le_bytes n v) = v mod 256 ^ Z.of_nat n.
Proof.
  induction n as [|n IH]; intros v.
  - simpl. rewrite Z.mod_1_r. reflexivity.
  - cbn [le_bytes le_value]. rewrite IH, Z_of_byte_of_Z.
    rewrite Nat2Z.inj_succ, Z.pow_succ_r by lia.
    pose proof (Z.pow_pos_nonneg 256 (Z.of_nat n) ltac:(lia) ltac:(lia)) as Hp.
    rewrite (Z.rem_mul_r v 256 (256 ^ Z.of_nat n)) by lia.
    reflexivity.
Qed.

Lemma length_le_bytes (n : nat) : forall v, List.length (le_bytes n v) = n.
Proof.
  induction n as [|n IH]; intros v; simpl; [reflexivity|].
  rewrite IH. reflexivity.
Qed.

(** ** Stores and loads *)

Lemma memcpy_cells_out (k : Site) (bs : list byte) :
  forall a h x,
    x < a \/ a + Z.of_nat (List.length bs) <= x ->
    cells (memcpy k a bs h) x = cells h x.
Proof.
  induction bs as [|b bs IH]; intros a h x Hx; simpl; [reflexivity|].
  rewrite IH by (simpl List.length in Hx; lia).
  simpl. destruct (Z.eqb_spec x a) as [->|Hne]; [|reflexivity].
  simpl List.length in Hx. lia.
Qed.

Lemma load_bytes_ext (m m' : Z -> byte) (n : nat) :
  forall a,
    (forall x, a <= x < a + Z.of_nat n -> m x = m' x) ->
    load_bytes m a n = load_bytes m' a n.
Proof.
  induction n as [|n IH]; intros a H; simpl; [reflexivity|].
  rewrite H by lia. f_equal. apply IH. intros x Hx. apply H. lia.
Qed.

Lemma load_le_ext (m m' : Z -> byte) (n : nat) (a : Z) :
  (forall x, a <= x < a + Z.of_nat n -> m x = m' x) ->
  load_le m a n = load_le m' a n.
Proof.
  intros H. rewrite !load_le_value. f_equal. apply load_bytes_ext, H.
Qed.

Lemma load_bytes_memcpy (k : Site) (bs : list byte) :
  forall a h, load_bytes (cells (memcpy k a bs h)) a (List.length bs) = bs.
Proof.
  induction bs as [|b bs IH]; intros a h; simpl; [reflexivity|].
  f_equal.
  - rewrite memcpy_cells_out by lia. simpl. rewrite Z.eqb_refl. reflexivity.
  - apply IH.
Qed.

Lemma load_le_store_le (k : Site) (n : nat) (a v : Z) (h : Heap) :
  load_le (cells (store_le k a n v h)) a n = v mod 256 ^ Z.of_nat n.
Proof.
  unfold store_le. rewrite load_le_value.
  rewrite <- (length_le_bytes n v) at 2.
  rewrite load_bytes_memcpy. apply le_value_le_bytes.
Qed.

Lemma load_bytes_app (m : Z -> byte) (n1 n2 : nat) :
  forall a,
    load_bytes m a (n1 + n2)
    = load_bytes m a n1 ++ load_bytes m (a + Z.of_nat n1) n2.
Proof.
  induction n1 as [|n1 IH]; intros a.
  - simpl. rewrite Z.add_0_r. reflexivity.
  - cbn [Nat.add load_bytes app]. rewrite IH. do 3 f_equal. lia.
Qed.

Lemma adds_refl (P : Site * Z -> Prop) (h : Heap) : adds P h h.
Proof. exists []. split; [reflexivity|constructor]. Qed.

Lemma adds_trans (P : Site * Z -> Prop) (h1 h2 h3 : Heap) :
  adds P h1 h2 -> adds P h2 h3 -> adds P h1 h3.
Proof.
  intros (n1 & E1 & F1) (n2 & E2 & F2). exists (n2 ++ n1). split.
  - rewrite E2, E1, app_assoc. reflexivity.
  - apply Forall_app. split; assumption.
Qed.

Lemma adds_weaken (P Q : Site * Z -> Prop) (h h' : Heap) :
  (forall e, P e -> Q e) -> adds P h h' -> adds Q h h'.
Proof.
  intros HPQ (n & E & F). exists n. split; [exact E|].
  eapply Forall_impl; [exact HPQ|exact F].
Qed.

Lemma adds_store8 (k : Site) (a : Z) (b : byte) (h : Heap) :
  adds (fun e => e = (k, a)) h (store8 k a b h).
Proof.
  exists [(k, a)]. split; [reflexivity|]. constructor; [reflexivity|constructor].
Qed.

Lemma adds_memcpy (k : Site) (bs : list byte) :
  forall a h,
    adds (fun e => fst e = k /\ a <= snd e < a + Z.of_nat (List.length bs))
      h (memcpy k a bs h).
Proof.
  induction bs as [|b bs IH]; intros a h; simpl memcpy.
  - apply adds_refl.
  - eapply adds_trans.
    + eapply adds_weaken; [|apply (adds_store8 k a b h)].
      intros e ->. simpl. split; [reflexivity|lia].
    + eapply adds_weaken; [|apply IH].
      intros e [Hk Ha]. simpl List.length. split; [exact Hk|lia].
Qed.

Lemma app_eq_same_length {A : Type} (xs xs' ys ys' : list A) :
  List.length xs = List.length xs' ->
  xs ++ ys = xs' ++ ys' -> xs = xs' /\ ys = ys'.
Proof.
  revert xs'. induction xs as [|x xs IH]; intros [|x' xs'] Hl H;
    simpl in *; try discriminate.
  - split; [reflexivity|exact H].
  - injection H as -> H. injection Hl as Hl.
    destruct (IH xs' Hl H) as [-> ->]. split; reflexivity.
Qed.

Lemma length_load_bytes (m : Z -> byte) (n : nat) :
  forall a, List.length (load_bytes m a n) = n.
Proof.
  induction n as [|n IH]; intros a; simpl; [reflexivity|].
  rewrite IH. reflexivity.
Qed.

Lemma load_bytes_memcpy_app (k : Site) (xs ys : list byte) (a : Z) (h : Heap) :
  load_bytes (cells (memcpy k a (xs ++ ys) h)) a (List.length xs) = xs
  /\ load_bytes (cells (memcpy k a (xs ++ ys) h))
       (a + Z.of_nat (List.length xs)) (List.length ys) = ys.
Proof.
  pose proof (load_bytes_memcpy k (xs ++ ys) a h) as H.
  rewrite length_app, load_bytes_app in H.
  apply app_eq_same_length in H; [exact H|apply length_load_bytes].
Qed.

Lemma load_bytes_split (m : Z -> byte) (a : Z) (xs ys : list byte) :
  load_bytes m a (List.length (xs ++ ys)) = xs ++ ys ->
  load_bytes m a (List.length xs) = xs
  /\ load_bytes m (a + Z.of_nat (List.length xs)) (List.length ys) = ys.
Proof.
  intros H. rewrite length_app, load_bytes_app in H.
  apply app_eq_same_length in H; [exact H|apply length_load_bytes].
Qed.

Lemma load_le_of_bytes (m : Z -> byte) (a : Z) (n : nat) (v : Z) :
  load_bytes m a (List.length (le_bytes n v)) = le_bytes n v ->
  load_le m a n = v mod 256 ^ Z.of_nat n.
Proof.
  intros H. rewrite length_le_bytes in H.
  rewrite load_le_value, H. apply le_value_le_bytes.
Qed.

(** ** The headers as they read back *)

Lemma PageHeader_reads (m : Z -> byte) (a : Z) (c act : byte) (n id : Z) :
  load_bytes m a (List.length (PageHeader_bytes c act n id))
  = PageHeader_bytes c act n id ->
  m a = c /\ m (a + 1) = act
  /\ load_le m (a + 2) 2 = n mod 2 ^ 16
  /\ load_le m (a + 4) 4 = id mod 2 ^ 32.
Proof.
  unfold PageHeader_bytes. intros H.
  apply (load_bytes_split m a [c; act]) in H. destruct H as [H1 H2].
  simpl in H1. injection H1 as Hc Ha.
  apply load_bytes_split in H2. destruct H2 as [H2 H3].
  rewrite length_le_bytes in H3.
  rewrite <- (length_le_bytes 4 id) in H3 at 1.
  apply load_le_of_bytes in H2, H3.
  simpl List.length in *.
  replace (a + Z.of_nat 2 + Z.of_nat 2) with (a + 4) in H3 by lia.
  replace (a + Z.of_nat 2) with (a + 2) in H2 by lia.
  repeat split; assumption.
Qed.

Lemma UnitHeader_reads (m : Z -> byte) (a : Z) (n id : Z) :
  load_bytes m a (List.length (UnitHeader_bytes n id)) = UnitHeader_bytes n id ->
  load_le m a 2 = n mod 2 ^ 16 /\ load_le m (a + 2) 2 = id mod 2 ^ 16.
Proof.
  unfold UnitHeader_bytes. intros H.
  apply load_bytes_split in H. destruct H as [H1 H2].
  rewrite length_le_bytes in H2.
  apply load_le_of_bytes in H1, H2.
  replace (a + Z.of_nat 2) with (a + 2) in H2 by lia.
  split; assumption.
Qed.

Lemma length_PageHeader_bytes (c act : byte) (n id : Z) :
  Z.of_nat (List.length (PageHeader_bytes c act n id)) = sizeof_PageHeader.
Proof. reflexivity. Qed.

Lemma length_UnitHeader_bytes (n id : Z) :
  Z.of_nat (List.length (UnitHeader_bytes n id)) = sizeof_UnitHeader.
Proof. reflexivity. Qed.

Lemma rewriteHeader_reads (actcode : byte) (offset : Z) (w : LogPageP) (fm : Heap) :
  let m := cells (snd (rewriteHeader actcode offset w fm)) in
  m (buf w) = "#"%byte /\ m (buf w + 1) = actcode
  /\ load_le m (buf w + 2) 2
     = uint16_t (size_t (offset - sizeof_PageHeader) / LOG_UNIT_PACKING)
  /\ load_le m (buf w + 4) 4 = mPageID w mod 2 ^ 32.
Proof.
  unfold rewriteHeader. cbn [snd]. cbv zeta.
  pose proof (load_bytes_memcpy PageHeaderStore
    (PageHeader_bytes "#" actcode
       (uint16_t (size_t (offset - sizeof_PageHeader) / LOG_UNIT_PACKING))
       (mPageID w)) (buf w) fm) as H.
  apply PageHeader_reads in H. destruct H as (H1 & H2 & H3 & H4).
  repeat split; try assumption.
  rewrite H3. unfold uint16_t. apply Z.mod_mod. lia.
Qed.

Lemma rewriteHeader_frame (actcode : byte) (offset : Z) (w : LogPageP) (fm : Heap)
  (x : Z) :
  x < buf w \/ buf w + sizeof_PageHeader <= x ->
  cells (snd (rewriteHeader actcode offset w fm)) x = cells fm x.
Proof.
  intros Hx. unfold rewriteHeader. cbn [snd].
  apply memcpy_cells_out. rewrite length_PageHeader_bytes. exact Hx.
Qed.

Lemma rewriteHeader_adds (actcode : byte) (offset : Z) (w : LogPageP) (fm : Heap) :
  adds (fun e => fst e = PageHeaderStore
                 /\ buf w <= snd e < buf w + sizeof_PageHeader)
    fm (snd (rewriteHeader actcode offset w fm)).
Proof.
  unfold rewriteHeader. cbn [snd].
  rewrite <- (length_PageHeader_bytes "#" actcode
    (uint16_t (size_t (offset - sizeof_PageHeader) / LOG_UNIT_PACKING)) (mPageID w)).
  apply adds_memcpy.
Qed.

(** ** Arithmetic of the codec *)

Lemma alignedSize_exact (n : Z) :
  0 <= n <= 2 ^ 32 - 4 -> alignedSize n = (n + 3) / 4 * 4.
Proof.
  unfold alignedSize. machine. intros Hn.
  replace (n + 4 - 1) with (n + 3) by lia.
  rewrite (Z.mod_small (n + 3)) by lia.
  apply Z.mod_small. zdiv.
Qed.

Lemma alignedSize_bounds (n : Z) :
  0 <= n <= 2 ^ 32 - 4 ->
  n <= alignedSize n < n + 4 /\ alignedSize n mod 4 = 0.
Proof.
  intros Hn. rewrite alignedSize_exact by exact Hn.
  change (2 ^ 32) with 4294967296 in Hn. zdiv.
Qed.

(** The packing count of a payload size that is already a multiple of 4. *)
Lemma packing_of_aligned (n : Z) :
  0 <= n < 2 ^ 18 -> n mod 4 = 0 ->
  uint32_t (LOG_UNIT_PACKING
            * uint16_t (uint32_t (n + LOG_UNIT_PACKING - 1) / LOG_UNIT_PACKING))
  = n.
Proof.
  machine. change (2 ^ 18) with 262144. intros Hn Hm.
  rewrite (Z.mod_small (n + 4 - 1)) by lia.
  rewrite (Z.mod_small ((n + 4 - 1) / 4)) by zdiv.
  rewrite Z.mod_small by zdiv. zdiv.
Qed.

(** ** validPage and writeLock *)

Lemma validPage_mapped (fm : Heap) (space : Z) (w : LogPageP) :
  mapped (fst (validPage fm space w)) = true.
Proof.
  unfold validPage.
  destruct (mapped w) eqn:Hm; cbn [negb orb];
    [destruct (LOG_PAGE_SIZE <? uint32_t (mBufferOffset w + space))|];
    cbn [fst rewriteHeader mapped mBuffer]; try reflexivity.
  exact Hm.
Qed.

Lemma validPage_offset (fm : Heap) (space : Z) (w : LogPageP) :
  (mapped w = true -> sizeof_PageHeader <= mBufferOffset w) ->
  sizeof_PageHeader <= mBufferOffset (fst (validPage fm space w)).
Proof.
  unfold validPage.
  destruct (mapped w) eqn:Hm; cbn [negb orb];
    [destruct (LOG_PAGE_SIZE <? uint32_t (mBufferOffset w + space))|];
    cbn [fst rewriteHeader mBufferOffset]; intros H;
    try apply Z.le_refl.
  apply H; reflexivity.
Qed.

(** What [validPage] leaves when it takes a new page. *)
Lemma validPage_rotates (fm : Heap) (space : Z) (w : LogPageP) :
  mapped w = false \/ LOG_PAGE_SIZE < uint32_t (mBufferOffset w + space) ->
  0 <= mPageOffset w < LOG_PAGE_COUNT ->
  let w' := fst (validPage fm space w) in
  let m := cells (snd (validPage fm space w)) in
  mPageOffset w'
  = (if mapped w then (mPageOffset w + 1) mod LOG_PAGE_COUNT else mPageOffset w)
  /\ mBuffer w' = Some (LOG_PAGE_SIZE * mPageOffset w')
  /\ mBufferOffset w' = sizeof_PageHeader
  /\ m (buf w') = "#"%byte
  /\ m (buf w' + 1) = "+"%byte
  /\ load_le m (buf w' + 2) 2 = 65535.
Proof.
  intros Hg Hpo. unfold validPage.
  assert (negb (mapped w)
          || (LOG_PAGE_SIZE <? uint32_t (mBufferOffset w + space)) = true) as ->.
  { destruct Hg as [-> | Hlt]; [reflexivity|].
    apply Z.ltb_lt in Hlt. rewrite Hlt. apply orb_true_r. }
  set (w1 := if mapped w then _ else _).
  assert (0 <= mPageOffset (fst w1) < LOG_PAGE_COUNT
          /\ mPageOffset (fst w1)
             = (if mapped w then (mPageOffset w + 1) mod LOG_PAGE_COUNT
                else mPageOffset w)) as [Hpo1 Epo1].
  { subst w1. destruct (mapped w); cbn [fst rewriteHeader mPageOffset].
    - revert Hpo. machine. intros Hpo.
      rewrite (Z.mod_small (mPageOffset w + 1)) by lia.
      split; [|reflexivity]. apply Z.mod_pos_bound. reflexivity.
    - split; [exact Hpo|reflexivity]. }
  destruct w1 as [w1 fm1]. cbn [fst] in Hpo1, Epo1.
  cbv zeta. cbn [rewriteHeader fst snd mPageOffset mBuffer mBufferOffset].
  set (w2 := {| mBuffer := _; mBufferOffset := mBufferOffset w1;
                mPageOffset := mPageOffset w1; mPageID := mPageID w1 |}).
  assert (uint32_t (LOG_PAGE_SIZE * mPageOffset w1)
          = LOG_PAGE_SIZE * mPageOffset w1) as Ebase.
  { revert Hpo1. machine. intros Hpo1. apply Z.mod_small.
    lia. }
  pose proof (rewriteHeader_reads "+" sizeof_UnitHeader w2 fm1) as Hr.
  unfold rewriteHeader in Hr. cbn [snd] in Hr. cbv zeta in Hr.
  destruct Hr as (H1 & H2 & H3 & _).
  unfold buf at 1 3 5. cbn [mBuffer].
  repeat split; try assumption.
  - unfold LOG_VIEW_OPEN. rewrite Ebase. reflexivity.
Qed.

Lemma validPage_new_buffer (fm : Heap) (space : Z) (w : LogPageP) :
  mBuffer (fst (validPage fm space w)) <> mBuffer w ->
  mapped w = false \/ LOG_PAGE_SIZE < uint32_t (mBufferOffset w + space).
Proof.
  unfold validPage. destruct (mapped w); cbn [negb orb]; [|left; reflexivity].
  destruct (Z.ltb_spec LOG_PAGE_SIZE (uint32_t (mBufferOffset w + space)))
    as [Hlt|Hge]; [right; exact Hlt|].
  cbn [fst]. intros H. exfalso. apply H. reflexivity.
Qed.

Lemma writeLock_validPage (fm : Heap) (funcId payloadSize : Z) (w : LogPageP) :
  exists space,
    snd (fst (writeLock fm funcId payloadSize w)) = fst (validPage fm space w)
    /\ snd (writeLock fm funcId payloadSize w)
       = memcpy UnitHeaderStore
           (buf (fst (validPage fm space w))
            + mBufferOffset (fst (validPage fm space w)))
           (UnitHeader_bytes
              (uint16_t (uint32_t (payloadSize + LOG_UNIT_PACKING - 1)
                         / LOG_UNIT_PACKING)) funcId)
           (snd (validPage fm space w))
    /\ fst (fst (writeLock fm funcId payloadSize w))
       = buf (fst (validPage fm space w))
         + mBufferOffset (fst (validPage fm space w)) + sizeof_UnitHeader
    /\ space
       = uint32_t (sizeof_UnitHeader
                   + uint32_t (LOG_UNIT_PACKING
                               * uint16_t (uint32_t (payloadSize + LOG_UNIT_PACKING - 1)
                                           / LOG_UNIT_PACKING))).
Proof.
  exists (uint32_t (sizeof_UnitHeader
                    + uint32_t (LOG_UNIT_PACKING
                                * uint16_t (uint32_t (payloadSize + LOG_UNIT_PACKING - 1)
                                            / LOG_UNIT_PACKING)))).
  unfold writeLock.
  destruct (validPage fm _ w) as [w1 fm1].
  cbn [fst snd]. repeat split; reflexivity.
Qed.

(** The UnitHeader that [writeLock] leaves just below the pointer it
    returns. *)
Lemma writeLock_unit (fm : Heap) (funcId payloadSize : Z) (w : LogPageP) :
  let p := fst (fst (writeLock fm funcId payloadSize w)) in
  let m := cells (snd (writeLock fm funcId payloadSize w)) in
  load_le m (p - 4) 2
  = uint16_t (uint32_t (payloadSize + LOG_UNIT_PACKING - 1) / LOG_UNIT_PACKING)
  /\ load_le m (p - 2) 2 = funcId mod 2 ^ 16.
Proof.
  destruct (writeLock_validPage fm funcId payloadSize w) as (space & _ & Hm & Hp & _).
  cbv zeta. rewrite Hm, Hp.
  set (a := buf _ + mBufferOffset _).
  pose proof (load_bytes_memcpy UnitHeaderStore
    (UnitHeader_bytes
       (uint16_t (uint32_t (payloadSize + LOG_UNIT_PACKING - 1) / LOG_UNIT_PACKING))
       funcId) a (snd (validPage fm space w))) as H.
  apply UnitHeader_reads in H. destruct H as [H1 H2].
  replace (a + sizeof_UnitHeader - 4) with a by (machine; lia).
  replace (a + sizeof_UnitHeader - 2) with (a + 2) by (machine; lia).
  split; [|exact H2].
  rewrite H1. unfold uint16_t. apply Z.mod_mod. lia.
Qed.

(** ** The payload blocks *)

Import DetectorWriterP.

Lemma store8_cells_out (k : Site) (a : Z) (b : byte) (h : Heap) (x : Z) :
  x <> a -> cells (store8 k a b h) x = cells h x.
Proof.
  intros Hx. simpl. destruct (Z.eqb_spec x a); [contradiction|reflexivity].
Qed.

Lemma store8_cells_in (k : Site) (a : Z) (b : byte) (h : Heap) :
  cells (store8 k a b h) a = b.
Proof. simpl. rewrite Z.eqb_refl. reflexivity. Qed.

Lemma length_firstn_Z {A : Type} (sn : Z) (s : list A) :
  0 <= sn -> Z.of_nat (List.length (firstn (Z.to_nat sn) s)) <= sn.
Proof.
  intros H. pose proof (firstn_le_length (Z.to_nat sn) s). lia.
Qed.

Lemma putS_frame (p : Z) (s : list byte) (sn : Z) (fm : Heap) (x : Z) :
  0 <= sn ->
  x < p \/ p + sizeof_uint16_t + sn < x ->
  cells (putS p s sn fm) x = cells fm x.
Proof.
  intros Hsn Hx. unfold putS, store_le. machine.
  pose proof (length_firstn_Z sn s Hsn) as Hl.
  rewrite store8_cells_out by lia.
  rewrite memcpy_cells_out by lia.
  apply memcpy_cells_out. rewrite length_le_bytes. lia.
Qed.

Lemma putS_adds (p : Z) (s : list byte) (sn : Z) (fm : Heap) :
  0 <= sn ->
  adds (fun e => fst e = PayloadStore
                 /\ p <= snd e <= p + sizeof_uint16_t + sn)
    fm (putS p s sn fm).
Proof.
  intros Hsn. unfold putS, store_le. machine.
  pose proof (length_firstn_Z sn s Hsn) as Hl.
  set (h1 := memcpy PayloadStore p (le_bytes 2 (sn mod 65536)) fm).
  set (h2 := memcpy PayloadStore (p + 2) (firstn (Z.to_nat sn) s) h1).
  apply adds_trans with (h2 := h2); [apply adds_trans with (h2 := h1)|].
  - eapply adds_weaken; [|apply adds_memcpy].
    intros e [Hk Ha]. rewrite length_le_bytes in Ha.
    split; [exact Hk|]. simpl Z.of_nat in Ha. lia.
  - eapply adds_weaken; [|apply adds_memcpy].
    intros e [Hk Ha]. split; [exact Hk|]. lia.
  - eapply adds_weaken; [|apply adds_store8].
    intros e ->. split; [reflexivity|]. cbn [snd]. lia.
Qed.

(** An S-block as it reads back: the prefix, the bytes, the NUL. *)
Lemma putS_reads (p : Z) (s : list byte) (sn : Z) (fm : Heap) :
  sn = Z.of_nat (List.length s) ->
  let m := cells (putS p s sn fm) in
  load_le m p 2 = sn mod 2 ^ 16
  /\ load_bytes m (p + sizeof_uint16_t) (List.length s) = s
  /\ m (p + sizeof_uint16_t + sn) = x00.
Proof.
  intros Hsn. cbv zeta. unfold putS, store_le. machine.
  subst sn. rewrite Nat2Z.id, firstn_all.
  set (n := Z.of_nat (List.length s)).
  set (h1 := memcpy PayloadStore p (le_bytes 2 (n mod 65536)) fm).
  set (h2 := memcpy PayloadStore (p + 2) s h1).
  split; [|split].
  - rewrite (load_le_ext _ (cells h1)).
    + subst h1. rewrite load_le_value.
      rewrite <- (length_le_bytes 2 (n mod 65536)) at 2.
      rewrite load_bytes_memcpy, le_value_le_bytes.
      change (256 ^ Z.of_nat 2) with 65536. apply Z.mod_mod. lia.
    + intros x Hx. simpl Z.of_nat in Hx.
      rewrite store8_cells_out by lia.
      subst h2. apply memcpy_cells_out. lia.
  - rewrite (load_bytes_ext _ (cells h2)).
    + subst h2. apply load_bytes_memcpy.
    + intros x Hx. apply store8_cells_out. lia.
  - replace (p + 2 + n) with (p + (2 + n)) by lia.
    apply store8_cells_in.
Qed.

Lemma sizeof_pos (T : FixedT) : 0 < sizeof T <= 8.
Proof. destruct T; simpl; lia. Qed.

Lemma putT_frame (T : FixedT) (p n : Z) (fm : Heap) (x : Z) :
  x < p \/ p + sizeof T <= x ->
  cells (putT T p n fm) x = cells fm x.
Proof.
  intros Hx. unfold putT, store_le. apply memcpy_cells_out.
  rewrite length_le_bytes. pose proof (sizeof_pos T). lia.
Qed.

Lemma putT_adds (T : FixedT) (p n : Z) (fm : Heap) :
  adds (fun e => fst e = PayloadStore /\ p <= snd e < p + sizeof T)
    fm (putT T p n fm).
Proof.
  unfold putT, store_le.
  eapply adds_weaken; [|apply adds_memcpy].
  intros e [Hk Ha]. rewrite length_le_bytes in Ha.
  pose proof (sizeof_pos T). split; [exact Hk|lia].
Qed.

Lemma putT_reads (T : FixedT) (p n : Z) (fm : Heap) :
  load_le (cells (putT T p n fm)) p (Z.to_nat (sizeof T))
  = n mod 2 ^ (8 * sizeof T).
Proof.
  unfold putT. rewrite load_le_store_le.
  destruct T; reflexivity.
Qed.

Lemma writeUnlock_frame (fm : Heap) (alignedPtr : Z) (w : LogPageP) (x : Z) :
  x < buf w \/ buf w + sizeof_PageHeader <= x ->
  cells (snd (writeUnlock fm alignedPtr w)) x = cells fm x.
Proof.
  intros Hx. unfold writeUnlock. cbn [rewriteHeader snd].
  apply memcpy_cells_out. rewrite length_PageHeader_bytes. exact Hx.
Qed.

Lemma writeUnlock_adds (fm : Heap) (alignedPtr : Z) (w : LogPageP) :
  adds (fun e => fst e = PageHeaderStore
                 /\ buf w <= snd e < buf w + sizeof_PageHeader)
    fm (snd (writeUnlock fm alignedPtr w)).
Proof.
  unfold writeUnlock.
  set (w1 := {| mBuffer := mBuffer w; mBufferOffset := _;
                mPageOffset := _; mPageID := _ |}).
  pose proof (rewriteHeader_adds "+" (mBufferOffset w1) w1 fm) as H.
  destruct (rewriteHeader "+" (mBufferOffset w1) w1 fm) as [r fm1].
  exact H.
Qed.

Lemma cstring_reads (m : Z -> byte) (s : list byte) :
  forall a fuel,
    load_bytes m a (List.length s) = s ->
    m (a + Z.of_nat (List.length s)) = x00 ->
    Forall (fun b => b <> x00) s ->
    (List.length s < fuel)%nat ->
    cstring m a fuel = s.
Proof.
  induction s as [|b s IH]; intros a fuel Hl Hz Hnz Hf.
  - destruct fuel; [lia|]. simpl in *. rewrite Z.add_0_r in Hz.
    rewrite Hz. reflexivity.
  - destruct fuel; [simpl in Hf; lia|]. simpl in Hl. injection Hl as Hb Hl.
    apply Forall_cons_iff in Hnz. destruct Hnz as [Hb0 Hnz'].
    cbn [cstring]. rewrite Hb.
    destruct (Byte.eqb b x00) eqn:E;
      [apply Byte.byte_dec_bl in E; contradiction|].
    f_equal. apply IH; try assumption.
    + rewrite <- Hz. f_equal. simpl List.length. lia.
    + simpl in Hf. lia.
Qed.

(** ** The encoders, step by step *)

Lemma validPage_adds (fm : Heap) (space : Z) (w : LogPageP) :
  adds (fun e => fst e = PageHeaderStore) fm (snd (validPage fm space w)).
Proof.
  unfold validPage.
  destruct (negb (mapped w)
            || (LOG_PAGE_SIZE <? uint32_t (mBufferOffset w + space)));
    [|apply adds_refl].
  destruct (mapped w); cbn [rewriteHeader snd].
  - eapply adds_trans; (eapply adds_weaken; [|apply adds_memcpy]);
      intros e [Hk _]; exact Hk.
  - eapply adds_weaken; [|apply adds_memcpy]. intros e [Hk _]; exact Hk.
Qed.

Lemma validPage_room (fm : Heap) (space : Z) (w : LogPageP) :
  (mapped w = true -> sizeof_PageHeader <= mBufferOffset w < 2 ^ 31) ->
  0 <= space <= LOG_PAGE_SIZE - sizeof_PageHeader ->
  let w1 := fst (validPage fm space w) in
  sizeof_PageHeader <= mBufferOffset w1
  /\ mBufferOffset w1 + space <= LOG_PAGE_SIZE.
Proof.
  intros Hw Hs. cbv zeta. unfold validPage.
  destruct (mapped w); cbn [negb orb].
  - specialize (Hw eq_refl).
    destruct (Z.ltb_spec LOG_PAGE_SIZE (uint32_t (mBufferOffset w + space)))
      as [Hlt|Hge]; cbn [fst rewriteHeader mBufferOffset].
    + machine. lia.
    + revert Hw Hs Hge. machine. change (2 ^ 31) with 2147483648.
      intros Hw Hs Hge.
      rewrite Z.mod_small in Hge by lia. lia.
  - cbn [fst rewriteHeader mBufferOffset]. machine. lia.
Qed.

Lemma writeS_eq (id : Z) (s : list byte) (sn : Z) (d : DetectorWriterP) :
  let P1 := alignedSize (uint32_t (size_t (sizeof_uint16_t + sn + 1))) in
  let r := writeLock (mLogFM d) id P1 (mPageWriter d) in
  let u := writeUnlock (putS (fst (fst r)) s sn (snd r))
             (fst (fst r) + P1) (snd (fst r)) in
  writeS id s sn d = {| mLogFM := snd u; mPageWriter := fst u |}.
Proof.
  cbv zeta. unfold writeS.
  destruct (writeLock _ _ _ _) as [[p w1] fm1]. cbn [fst snd].
  destruct (writeUnlock _ _ _) as [w2 fm2]. reflexivity.
Qed.

Lemma writeT_eq (T : FixedT) (id n : Z) (d : DetectorWriterP) :
  let P1 := alignedSize (sizeof T) in
  let r := writeLock (mLogFM d) id P1 (mPageWriter d) in
  let u := writeUnlock (putT T (fst (fst r)) n (snd r))
             (fst (fst r) + P1) (snd (fst r)) in
  writeT T id n d = {| mLogFM := snd u; mPageWriter := fst u |}.
Proof.
  cbv zeta. unfold writeT.
  destruct (writeLock _ _ _ _) as [[p w1] fm1]. cbn [fst snd].
  destruct (writeUnlock _ _ _) as [w2 fm2]. reflexivity.
Qed.

Lemma writeST_eq (T : FixedT) (id : Z) (s : list byte) (sn t : Z)
  (d : DetectorWriterP) :
  let P1 := alignedSize (uint32_t (size_t (sizeof_uint16_t + sn + 1))) in
  let P2 := alignedSize (sizeof T) in
  let r := writeLock (mLogFM d) id (uint32_t (P1 + P2)) (mPageWriter d) in
  let p := fst (fst r) in
  let u := writeUnlock (putT T (p + P1) t (putS p s sn (snd r)))
             (p + P1 + P2) (snd (fst r)) in
  writeST T id s sn t d = {| mLogFM := snd u; mPageWriter := fst u |}.
Proof.
  cbv zeta. unfold writeST.
  destruct (writeLock _ _ _ _) as [[p w1] fm1]. cbn [fst snd].
  destruct (writeUnlock _ _ _) as [w2 fm2]. reflexivity.
Qed.

Lemma writeSS_eq (id : Z) (s1 : list byte) (sn1 : Z) (s2 : list byte) (sn2 : Z)
  (d : DetectorWriterP) :
  let P1 := alignedSize (uint32_t (size_t (sizeof_uint16_t + sn1 + 1))) in
  let P2 := alignedSize (uint32_t (size_t (sizeof_uint16_t + sn2 + 1))) in
  let r := writeLock (mLogFM d) id P1 (mPageWriter d) in
  let p := fst (fst r) in
  let u := writeUnlock (putS (p + P1) s2 sn2 (putS p s1 sn1 (snd r)))
             (p + P1 + P2) (snd (fst r)) in
  writeSS id s1 sn1 s2 sn2 d = {| mLogFM := snd u; mPageWriter := fst u |}.
Proof.
  cbv zeta. unfold writeSS.
  destruct (writeLock _ _ _ _) as [[p w1] fm1]. cbn [fst snd].
  destruct (writeUnlock _ _ _) as [w2 fm2]. reflexivity.
Qed.

Lemma writeUnlock_buffer (fm : Heap) (alignedPtr : Z) (w : LogPageP) :
  mBuffer (fst (writeUnlock fm alignedPtr w)) = mBuffer w
  /\ mBufferOffset (fst (writeUnlock fm alignedPtr w))
     = uint32_t (alignedPtr - buf w)
  /\ mPageOffset (fst (writeUnlock fm alignedPtr w)) = mPageOffset w.
Proof.
  unfold writeUnlock. cbn [rewriteHeader fst mBuffer mBufferOffset mPageOffset].
  repeat split.
Qed.

(** The size of an S-block, without the machine arithmetic. *)
Lemma block_size (sn : Z) :
  0 <= sn < 2 ^ 31 ->
  alignedSize (uint32_t (size_t (sizeof_uint16_t + sn + 1))) = (sn + 6) / 4 * 4.
Proof.
  change (2 ^ 31) with 2147483648. intros Hsn. machine.
  rewrite (Z.mod_small (2 + sn + 1)) by lia.
  rewrite Z.mod_small by lia.
  rewrite alignedSize_exact by (change (2 ^ 32) with 4294967296; lia).
  f_equal. f_equal. lia.
Qed.

(** What [writeLock] does for a payload size that is a multiple of 4 and
    fits a page: the record lies within the page it leaves mapped. *)
Lemma writeLock_fits (fm : Heap) (funcId P : Z) (w : LogPageP) :
  (mapped w = true -> sizeof_PageHeader <= mBufferOffset w < 2 ^ 31) ->
  0 <= P -> P mod 4 = 0 ->
  sizeof_PageHeader + sizeof_UnitHeader + P <= LOG_PAGE_SIZE ->
  let r := writeLock fm funcId P w in
  let p := fst (fst r) in
  let w1 := snd (fst r) in
  p = buf w1 + mBufferOffset w1 + sizeof_UnitHeader
  /\ sizeof_PageHeader <= mBufferOffset w1
  /\ mBufferOffset w1 + sizeof_UnitHeader + P <= LOG_PAGE_SIZE
  /\ adds (fun e => fst e <> PageHeaderStore ->
                    fst e = UnitHeaderStore /\ p - 4 <= snd e < p)
       fm (snd r).
Proof.
  intros Hw HP Hal Hfit.
  destruct (writeLock_validPage fm funcId P w) as (space & E1 & E2 & E3 & Es).
  cbv zeta. rewrite E1, E2, E3.
  assert (space = sizeof_UnitHeader + P) as Hspace.
  { rewrite Es, packing_of_aligned.
    - revert Hfit. machine. intros Hfit. apply Z.mod_small. lia.
    - revert Hfit. machine. change (2 ^ 18) with 262144. lia.
    - exact Hal. }
  destruct (validPage_room fm space w Hw) as [Hlo Hhi].
  { rewrite Hspace. revert Hfit. machine. lia. }
  repeat split; try assumption.
  - lia.
  - eapply adds_trans.
    + eapply adds_weaken; [|apply validPage_adds].
      intros e Hk Hne. contradiction.
    + eapply adds_weaken; [|apply adds_memcpy].
      intros e [Hk Ha] _. rewrite length_UnitHeader_bytes in Ha.
      split; [exact Hk|]. machine. lia.
Qed.

(** ** Footprints of the encoders *)

Lemma buf_writeUnlock (fm : Heap) (alignedPtr : Z) (w : LogPageP) :
  buf (fst (writeUnlock fm alignedPtr w)) = buf w.
Proof. reflexivity. Qed.

Lemma alignedSize_mod4 (n : Z) : alignedSize n mod 4 = 0 /\ 0 <= alignedSize n.
Proof.
  unfold alignedSize. machine.
  set (q := (n + 4 - 1) mod 4294967296 / 4).
  assert (0 <= q * 4 <= 4294967295) by (subst q; zdiv).
  clearbody q. rewrite (Z.mod_small (q * 4)) by lia.
  split; [apply Z.mod_mul|]; lia.
Qed.

Lemma writeS_in_page (id : Z) (s : list byte) (sn : Z) (d : DetectorWriterP) :
  cursor_ok (mPageWriter d) ->
  0 <= sn < 2 ^ 31 ->
  sizeof_PageHeader + sizeof_UnitHeader
  + alignedSize (alignedSize (uint32_t (size_t (sizeof_uint16_t + sn + 1))))
  <= LOG_PAGE_SIZE ->
  adds (in_record_area (buf (mPageWriter (writeS id s sn d))))
    (mLogFM d) (mLogFM (writeS id s sn d)).
Proof.
  intros Hw Hsn Hfit. rewrite writeS_eq. cbv zeta. cbn [mLogFM mPageWriter].
  rewrite buf_writeUnlock.
  pose proof (block_size sn Hsn) as HP.
  destruct (alignedSize_mod4 (uint32_t (size_t (sizeof_uint16_t + sn + 1))))
    as [Hal Hnn].
  set (P1 := alignedSize (uint32_t (size_t (sizeof_uint16_t + sn + 1)))) in *.
  assert (P1 <= alignedSize P1) as Hle.
  { apply alignedSize_bounds. change (2 ^ 32) with 4294967296.
    change (2 ^ 31) with 2147483648 in Hsn. rewrite HP. zdiv. }
  destruct (writeLock_fits (mLogFM d) id P1 (mPageWriter d) Hw Hnn Hal)
    as (Hp & Hlo & Hhi & Hadd); [lia|].
  set (r := writeLock (mLogFM d) id P1 (mPageWriter d)) in *.
  set (p := fst (fst r)) in *. set (w1 := snd (fst r)) in *.
  assert (sn + 3 <= P1) as Hblock by (rewrite HP; zdiv).
  change (2 ^ 31) with 2147483648 in Hsn.
  revert Hlo Hhi. machine. intros Hlo Hhi.
  apply adds_trans with (h2 := putS p s sn (snd r));
    [apply adds_trans with (h2 := snd r)|].
  - eapply adds_weaken; [|exact Hadd].
    intros e He Hne. destruct (He Hne) as [_ Ha]. machine. lia.
  - eapply adds_weaken; [|apply putS_adds; lia].
    intros e [_ Ha] _. machine. lia.
  - eapply adds_weaken; [|apply writeUnlock_adds].
    intros e [Hk _] Hne. contradiction.
Qed.

Lemma writeT_in_page (T : FixedT) (id n : Z) (d : DetectorWriterP) :
  cursor_ok (mPageWriter d) ->
  adds (in_record_area (buf (mPageWriter (writeT T id n d))))
    (mLogFM d) (mLogFM (writeT T id n d)).
Proof.
  intros Hw. rewrite writeT_eq. cbv zeta. cbn [mLogFM mPageWriter].
  rewrite buf_writeUnlock.
  assert (alignedSize (sizeof T) = sizeof T) as HP by (destruct T; reflexivity).
  rewrite HP. pose proof (sizeof_pos T) as HT.
  destruct (writeLock_fits (mLogFM d) id (sizeof T) (mPageWriter d) Hw)
    as (Hp & Hlo & Hhi & Hadd);
    [lia|destruct T; reflexivity|machine; lia|].
  set (r := writeLock (mLogFM d) id (sizeof T) (mPageWriter d)) in *.
  set (p := fst (fst r)) in *. set (w1 := snd (fst r)) in *.
  revert Hlo Hhi. machine. intros Hlo Hhi.
  apply adds_trans with (h2 := putT T p n (snd r));
    [apply adds_trans with (h2 := snd r)|].
  - eapply adds_weaken; [|exact Hadd].
    intros e He Hne. destruct (He Hne) as [_ Ha]. machine. lia.
  - eapply adds_weaken; [|apply putT_adds].
    intros e [_ Ha] _. machine. lia.
  - eapply adds_weaken; [|apply writeUnlock_adds].
    intros e [Hk _] Hne. contradiction.
Qed.

Lemma writeST_in_page (T : FixedT) (id : Z) (s : list byte) (sn t : Z)
  (d : DetectorWriterP) :
  cursor_ok (mPageWriter d) ->
  0 <= sn < 2 ^ 31 ->
  sizeof_PageHeader + sizeof_UnitHeader
  + alignedSize (uint32_t
      (alignedSize (uint32_t (size_t (sizeof_uint16_t + sn + 1)))
       + alignedSize (sizeof T)))
  <= LOG_PAGE_SIZE ->
  adds (in_record_area (buf (mPageWriter (writeST T id s sn t d))))
    (mLogFM d) (mLogFM (writeST T id s sn t d)).
Proof.
  intros Hw Hsn Hfit. rewrite writeST_eq. cbv zeta. cbn [mLogFM mPageWriter].
  rewrite buf_writeUnlock.
  pose proof (block_size sn Hsn) as HP.
  set (P1 := alignedSize (uint32_t (size_t (sizeof_uint16_t + sn + 1)))) in *.
  assert (alignedSize (sizeof T) = sizeof T) as HP2 by (destruct T; reflexivity).
  rewrite HP2 in *. pose proof (sizeof_pos T) as HT.
  assert (sizeof T mod 4 = 0) as HT4 by (destruct T; reflexivity).
  change (2 ^ 31) with 2147483648 in Hsn.
  assert (uint32_t (P1 + sizeof T) = P1 + sizeof T) as HU.
  { machine. apply Z.mod_small. rewrite HP. zdiv. }
  rewrite HU in *.
  assert (P1 + sizeof T <= alignedSize (P1 + sizeof T)) as Hle.
  { apply alignedSize_bounds. change (2 ^ 32) with 4294967296. rewrite HP. zdiv. }
  assert (0 <= P1 /\ P1 mod 4 = 0 /\ sn + 3 <= P1) as (Hnn & Hal & Hblock)
    by (rewrite HP; zdiv).
  destruct (writeLock_fits (mLogFM d) id (P1 + sizeof T) (mPageWriter d) Hw)
    as (Hp & Hlo & Hhi & Hadd); [lia|zdiv|lia|].
  set (r := writeLock (mLogFM d) id (P1 + sizeof T) (mPageWriter d)) in *.
  set (p := fst (fst r)) in *. set (w1 := snd (fst r)) in *.
  revert Hlo Hhi. machine. intros Hlo Hhi.
  apply adds_trans with (h2 := putT T (p + P1) t (putS p s sn (snd r)));
    [apply adds_trans with (h2 := putS p s sn (snd r));
     [apply adds_trans with (h2 := snd r)|]|].
  - eapply adds_weaken; [|exact Hadd].
    intros e He Hne. destruct (He Hne) as [_ Ha]. machine. lia.
  - eapply adds_weaken; [|apply putS_adds; lia].
    intros e [_ Ha] _. machine. lia.
  - eapply adds_weaken; [|apply putT_adds].
    intros e [_ Ha] _. machine. lia.
  - eapply adds_weaken; [|apply writeUnlock_adds].
    intros e [Hk _] Hne. contradiction.
Qed.

(** ** The blocks as they read back after an encoder *)

Lemma S_block_intro (m : Z -> byte) (p : Z) (s : list byte) (sn : Z) (fm : Heap) :
  sn = Z.of_nat (List.length s) ->
  (forall x, p <= x <= p + sizeof_uint16_t + sn ->
             m x = cells (putS p s sn fm) x) ->
  S_block_at m p s sn.
Proof.
  intros Hsn Hm. destruct (putS_reads p s sn fm Hsn) as (H1 & H2 & H3).
  assert (load_le m p 2 = sn mod 2 ^ 16) as Hpre.
  { rewrite <- H1. apply load_le_ext. intros x Hx. apply Hm.
    revert Hx. machine. simpl Z.of_nat. lia. }
  unfold S_block_at. split; [exact Hpre|]. split; [|split; [|split]].
  - rewrite <- H2 at 2. apply load_bytes_ext. intros x Hx. apply Hm.
    revert Hx. machine. lia.
  - rewrite Hm by (machine; lia). exact H3.
  - intros Hlt. rewrite Hpre.
    rewrite Z.mod_small by lia. repeat split.
    unfold dDetector.parseString. cbn [snd]. rewrite Hpre.
    rewrite Z.mod_small by lia. reflexivity.
  - intros Hge. rewrite Hpre.
    pose proof (Z.mod_pos_bound sn (2 ^ 16) ltac:(lia)). lia.
Qed.

Lemma writeLock_ptr (fm : Heap) (funcId payloadSize : Z) (w : LogPageP) :
  (mapped w = true -> sizeof_PageHeader <= mBufferOffset w) ->
  let r := writeLock fm funcId payloadSize w in
  buf (snd (fst r)) + sizeof_PageHeader + sizeof_UnitHeader <= fst (fst r).
Proof.
  intros Hw. cbv zeta.
  destruct (writeLock_validPage fm funcId payloadSize w) as (space & E1 & _ & E3 & _).
  rewrite E1, E3. pose proof (validPage_offset fm space w Hw). lia.
Qed.

Lemma writeS_reads (id : Z) (s : list byte) (sn : Z) (d : DetectorWriterP) :
  (mapped (mPageWriter d) = true ->
   sizeof_PageHeader <= mBufferOffset (mPageWriter d)) ->
  sn = Z.of_nat (List.length s) ->
  let PS := alignedSize (uint32_t (size_t (sizeof_uint16_t + sn + 1))) in
  let p := fst (fst (writeLock (mLogFM d) id PS (mPageWriter d))) in
  S_block_at (cells (mLogFM (writeS id s sn d))) p s sn.
Proof.
  intros Hw Hsn. cbv zeta. rewrite writeS_eq. cbv zeta. cbn [mLogFM].
  set (PS := alignedSize _).
  pose proof (writeLock_ptr (mLogFM d) id PS (mPageWriter d) Hw) as Hp.
  cbv zeta in Hp.
  set (r := writeLock (mLogFM d) id PS (mPageWriter d)) in *.
  apply S_block_intro with (fm := snd r); [exact Hsn|].
  intros x Hx. apply writeUnlock_frame. revert Hp Hx. machine. lia.
Qed.

Lemma writeST_reads (T : FixedT) (id : Z) (s : list byte) (sn t : Z)
  (d : DetectorWriterP) :
  (mapped (mPageWriter d) = true ->
   sizeof_PageHeader <= mBufferOffset (mPageWriter d)) ->
  sn = Z.of_nat (List.length s) -> sn < 2 ^ 31 ->
  let PS := alignedSize (uint32_t (size_t (sizeof_uint16_t + sn + 1))) in
  let PT := alignedSize (sizeof T) in
  let p := fst (fst (writeLock (mLogFM d) id (uint32_t (PS + PT))
                       (mPageWriter d))) in
  let m := cells (mLogFM (writeST T id s sn t d)) in
  S_block_at m p s sn
  /\ load_le m (p + PS) (Z.to_nat (sizeof T)) = t mod 2 ^ (8 * sizeof T).
Proof.
  intros Hw Hsn Hlt. cbv zeta. rewrite writeST_eq. cbv zeta. cbn [mLogFM].
  pose proof (block_size sn ltac:(lia)) as HP.
  set (PS := alignedSize (uint32_t _)) in *.
  set (PT := alignedSize (sizeof T)).
  pose proof (writeLock_ptr (mLogFM d) id (uint32_t (PS + PT)) (mPageWriter d) Hw)
    as Hp. cbv zeta in Hp.
  set (r := writeLock (mLogFM d) id (uint32_t (PS + PT)) (mPageWriter d)) in *.
  assert (0 <= sn /\ sn + 3 <= PS) as [Hsn0 Hblock] by (rewrite HP; zdiv).
  pose proof (sizeof_pos T) as HT.
  split.
  - apply S_block_intro with (fm := snd r); [exact Hsn|].
    intros x Hx.
    rewrite writeUnlock_frame by (revert Hp Hx; machine; lia).
    apply putT_frame. revert Hx. machine. lia.
  - rewrite <- (putT_reads T (fst (fst r) + PS) t (putS (fst (fst r)) s sn (snd r))).
    apply load_le_ext. intros x Hx.
    apply writeUnlock_frame. revert Hp Hx. machine. lia.
Qed.

Lemma writeSS_reads (id : Z) (s1 : list byte) (sn1 : Z) (s2 : list byte) (sn2 : Z)
  (d : DetectorWriterP) :
  (mapped (mPageWriter d) = true ->
   sizeof_PageHeader <= mBufferOffset (mPageWriter d)) ->
  sn1 = Z.of_nat (List.length s1) -> sn1 < 2 ^ 31 ->
  sn2 = Z.of_nat (List.length s2) ->
  let PS := alignedSize (uint32_t (size_t (sizeof_uint16_t + sn1 + 1))) in
  let p := fst (fst (writeLock (mLogFM d) id PS (mPageWriter d))) in
  let m := cells (mLogFM (writeSS id s1 sn1 s2 sn2 d)) in
  S_block_at m p s1 sn1 /\ S_block_at m (p + PS) s2 sn2.
Proof.
  intros Hw Hsn1 Hlt Hsn2. cbv zeta. rewrite writeSS_eq. cbv zeta. cbn [mLogFM].
  pose proof (block_size sn1 ltac:(lia)) as HP.
  set (PS := alignedSize (uint32_t (size_t (sizeof_uint16_t + sn1 + 1)))) in *.
  pose proof (writeLock_ptr (mLogFM d) id PS (mPageWriter d) Hw) as Hp.
  cbv zeta in Hp.
  set (r := writeLock (mLogFM d) id PS (mPageWriter d)) in *.
  assert (0 <= sn1 /\ sn1 + 3 <= PS) as [Hsn0 Hblock] by (rewrite HP; zdiv).
  split.
  - apply S_block_intro with (fm := snd r); [exact Hsn1|].
    intros x Hx.
    rewrite writeUnlock_frame by (revert Hp Hx; machine; lia).
    apply putS_frame; [lia|]. revert Hx. machine. lia.
  - apply S_block_intro with (fm := putS (fst (fst r)) s1 sn1 (snd r));
      [exact Hsn2|].
    intros x Hx. apply writeUnlock_frame. revert Hp Hx. machine. lia.
Qed.

(** ** One record, written and read *)

Lemma packing_count_of_aligned (n : Z) :
  0 <= n < 2 ^ 18 -> n mod 4 = 0 ->
  LOG_UNIT_PACKING
  * uint16_t (uint32_t (n + LOG_UNIT_PACKING - 1) / LOG_UNIT_PACKING) = n.
Proof.
  machine. change (2 ^ 18) with 262144. intros Hn Hm.
  rewrite (Z.mod_small (n + 4 - 1)) by lia.
  rewrite (Z.mod_small ((n + 4 - 1) / 4)) by zdiv. zdiv.
Qed.

Lemma validPage_cursor (fm : Heap) (space : Z) (w : LogPageP) :
  cursor_ok w -> 0 <= space < 2 ^ 31 ->
  let w1 := fst (validPage fm space w) in
  sizeof_PageHeader <= mBufferOffset w1 <= LOG_PAGE_SIZE.
Proof.
  unfold cursor_ok. intros Hw Hs. cbv zeta. unfold validPage.
  destruct (mapped w); cbn [negb orb].
  - specialize (Hw eq_refl).
    destruct (Z.ltb_spec LOG_PAGE_SIZE (uint32_t (mBufferOffset w + space)))
      as [Hlt|Hge]; cbn [fst rewriteHeader mBufferOffset].
    + machine. lia.
    + revert Hw Hs Hge. machine. change (2 ^ 31) with 2147483648.
      intros Hw Hs Hge. rewrite Z.mod_small in Hge by lia. lia.
  - cbn [fst rewriteHeader mBufferOffset]. machine. lia.
Qed.

(** Where [writeLock] puts the record for an aligned payload size, and the
    UnitHeader it writes. *)
Lemma writeLock_places (fm : Heap) (funcId P : Z) (w : LogPageP) :
  cursor_ok w ->
  0 <= P < 2 ^ 18 -> P mod 4 = 0 -> 0 <= funcId < 2 ^ 16 ->
  let r := writeLock fm funcId P w in
  let p := fst (fst r) in
  let w1 := snd (fst r) in
  p = buf w1 + mBufferOffset w1 + sizeof_UnitHeader
  /\ sizeof_PageHeader <= mBufferOffset w1 <= LOG_PAGE_SIZE
  /\ mapped w1 = true
  /\ LOG_UNIT_PACKING * load_le (cells (snd r)) (p - 4) 2 = P
  /\ load_le (cells (snd r)) (p - 2) 2 = funcId.
Proof.
  intros Hw HP Hal Hid.
  destruct (writeLock_unit fm funcId P w) as [Hc Hf].
  destruct (writeLock_validPage fm funcId P w) as (space & E1 & _ & E3 & Es).
  cbv zeta in *. rewrite Hc, Hf, E1, E3.
  split; [reflexivity|]. split; [|split; [apply validPage_mapped|split]].
  - apply validPage_cursor; [exact Hw|].
    rewrite Es, packing_of_aligned by assumption.
    revert HP. machine. change (2 ^ 18) with 262144.
    change (2 ^ 31) with 2147483648. intros HP.
    rewrite Z.mod_small by lia. lia.
  - apply packing_count_of_aligned; assumption.
  - apply Z.mod_small. exact Hid.
Qed.

(** What [writeUnlock] leaves, for a record that began at the cursor of
    [w1]. *)
Lemma writeUnlock_finishes (fm2 : Heap) (w1 : LogPageP) (p total : Z) :
  p = buf w1 + mBufferOffset w1 + sizeof_UnitHeader ->
  sizeof_PageHeader <= mBufferOffset w1 <= LOG_PAGE_SIZE ->
  0 <= total < 2 ^ 19 ->
  let u := writeUnlock fm2 (p + total) w1 in
  mBuffer (fst u) = mBuffer w1
  /\ mBufferOffset (fst u) = mBufferOffset w1 + sizeof_UnitHeader + total
  /\ mPageOffset (fst u) = mPageOffset w1
  /\ (forall x, buf w1 + sizeof_PageHeader <= x -> cells (snd u) x = cells fm2 x).
Proof.
  intros Hp Ho Ht. cbv zeta.
  destruct (writeUnlock_buffer fm2 (p + total) w1) as (Hb & Hoff & Hpo).
  rewrite Hb, Hoff, Hpo. split; [reflexivity|]. split; [|split; [reflexivity|]].
  - subst p. revert Ho Ht. machine. change (2 ^ 19) with 524288.
    intros Ho Ht. rewrite Z.mod_small by lia. lia.
  - intros x Hx. apply writeUnlock_frame. right. exact Hx.
Qed.

Lemma readOnce_unit (m : Z -> byte) (r : LogPageReaderP) :
  mBufferOffset r <> mPageSize r ->
  LogPageReaderP.readOnce m r = LogPageReaderP.readUnit m r.
Proof.
  intros Hne. unfold LogPageReaderP.readOnce.
  destruct (Z.eqb_spec (mBufferOffset r) (mPageSize r)); [contradiction|].
  reflexivity.
Qed.

(** A reader standing on a record of [P] payload bytes reads it and steps
    over it. *)
Lemma readOnce_record (m : Z -> byte) (r : LogPageReaderP) (w1 : LogPageP)
  (funcId P : Z) :
  reader_at w1 r ->
  sizeof_PageHeader <= mBufferOffset w1 <= LOG_PAGE_SIZE -> 0 <= P < 2 ^ 19 ->
  LOG_UNIT_PACKING * load_le m (buf w1 + mBufferOffset w1) 2 = P ->
  load_le m (buf w1 + mBufferOffset w1 + 2) 2 = funcId ->
  fst (LogPageReaderP.readOnce m r)
  = (Readed, Some {| cbFuncID := funcId;
                     cbPayload := buf w1 + mBufferOffset w1 + sizeof_UnitHeader;
                     cbLength := P |})
  /\ mBuffer (snd (LogPageReaderP.readOnce m r)) = mBuffer w1
  /\ mBufferOffset (snd (LogPageReaderP.readOnce m r))
     = mBufferOffset w1 + sizeof_UnitHeader + P.
Proof.
  intros (Hb & Ho & Hne) Hoff HP Hc Hf.
  rewrite readOnce_unit by exact Hne.
  unfold LogPageReaderP.readUnit. cbn [fst snd mBuffer mBufferOffset super].
  assert (buf r = buf w1) as Hbuf by (unfold buf; rewrite Hb; reflexivity).
  rewrite Hbuf, Ho, Hc, Hf. repeat split; try assumption.
  revert Hoff HP. machine. change (2 ^ 19) with 524288. intros Hoff HP.
  rewrite Z.mod_small by lia. lia.
Qed.

(** The common shape of the four encoders: [writeLock] for a declared size
    [P], stores at or above the returned pointer, [writeUnlock] [total] bytes
    later.  A reader standing where the record was framed gets the callback
    with the declared size and steps over [P] bytes; the writer's cursor has
    moved by [total]. *)
Lemma record_round_trip (fm : Heap) (w : LogPageP) (id P total : Z)
  (body : Z -> Heap -> Heap) (r : LogPageReaderP) :
  cursor_ok w ->
  0 <= P < 2 ^ 18 -> P mod 4 = 0 -> 0 <= id < 2 ^ 16 -> 0 <= total < 2 ^ 19 ->
  let l := writeLock fm id P w in
  let p := fst (fst l) in
  let w1 := snd (fst l) in
  (forall x h, x < p -> cells (body p h) x = cells h x) ->
  let u := writeUnlock (body p (snd l)) (p + total) w1 in
  reader_at w1 r ->
  fst (LogPageReaderP.readOnce (cells (snd u)) r)
  = (Readed, Some {| cbFuncID := id; cbPayload := p; cbLength := P |})
  /\ mBuffer (snd (LogPageReaderP.readOnce (cells (snd u)) r)) = mBuffer (fst u)
  /\ mBufferOffset (snd (LogPageReaderP.readOnce (cells (snd u)) r))
     = mBufferOffset w1 + sizeof_UnitHeader + P
  /\ mBufferOffset (fst u) = mBufferOffset w1 + sizeof_UnitHeader + total
  /\ cursor_ok (fst u).
Proof.
  intros Hw HP Hal Hid Ht l p w1 Hbody u Hr.
  destruct (writeLock_places fm id P w Hw HP Hal Hid)
    as (Hp & Ho & Hm & Hc & Hf).
  fold l in Hp, Ho, Hm, Hc, Hf. fold p in Hp, Hc, Hf. fold w1 in Hp, Ho, Hm.
  destruct (writeUnlock_finishes (body p (snd l)) w1 p total Hp Ho Ht)
    as (Hb & Hoff & _ & Hfr).
  fold u in Hb, Hoff, Hfr.
  clearbody u. clearbody p w1. clearbody l.
  assert (forall x, p - 4 <= x < p -> cells (snd u) x = cells (snd l) x) as Hkeep.
  { intros x Hx. rewrite Hfr by (revert Ho; machine; lia).
    apply Hbody. lia. }
  assert (0 <= P < 2 ^ 19) as HP'
    by (change (2 ^ 18) with 262144 in HP; change (2 ^ 19) with 524288; lia).
  assert (p - 4 = buf w1 + mBufferOffset w1
          /\ p - 2 = buf w1 + mBufferOffset w1 + 2) as [Ea Eb]
    by (rewrite Hp; machine; lia).
  rewrite Ea in Hc. rewrite Eb in Hf.
  destruct (readOnce_record (cells (snd u)) r w1 id P Hr Ho HP') as (R1 & R2 & R3).
  - rewrite <- Hc. f_equal. apply load_le_ext. intros x Hx.
    apply Hkeep. simpl Z.of_nat in Hx. lia.
  - rewrite <- Hf. apply load_le_ext. intros x Hx.
    apply Hkeep. simpl Z.of_nat in Hx. lia.
  - rewrite R1, R2, R3, Hb, Hoff, <- Hp. repeat split.
    all: unfold cursor_ok in *; try rewrite Hoff; revert Ho Ht; machine;
      change (2 ^ 19) with 524288; change (2 ^ 31) with 2147483648; lia.
Qed.

Lemma cursor_ok_weaken (w : LogPageP) :
  cursor_ok w -> mapped w = true -> sizeof_PageHeader <= mBufferOffset w.
Proof. intros H Hm. apply H. exact Hm. Qed.

Lemma block_size_small (sn : Z) :
  0 <= sn < 2 ^ 16 ->
  let PS := alignedSize (uint32_t (size_t (sizeof_uint16_t + sn + 1))) in
  0 <= PS < 2 ^ 17 /\ PS mod 4 = 0 /\ sn + 3 <= PS /\ 4 <= PS.
Proof.
  intros Hsn. cbv zeta. rewrite block_size by (change (2 ^ 16) with 65536 in Hsn;
    change (2 ^ 31) with 2147483648; lia).
  change (2 ^ 16) with 65536 in Hsn. change (2 ^ 17) with 131072. zdiv.
Qed.

(** [writeST]: the record as the reader finds it. *)
Lemma writeST_round_trip (T : FixedT) (id : Z) (s : list byte) (sn t : Z)
  (d : DetectorWriterP) (r : LogPageReaderP) :
  cursor_ok (mPageWriter d) ->
  sn = Z.of_nat (List.length s) -> sn < 2 ^ 16 -> 0 <= id < 2 ^ 16 ->
  let PS := alignedSize (uint32_t (size_t (sizeof_uint16_t + sn + 1))) in
  let PT := alignedSize (sizeof T) in
  let l := writeLock (mLogFM d) id (uint32_t (PS + PT)) (mPageWriter d) in
  let p := fst (fst l) in
  let d' := writeST T id s sn t d in
  let m := cells (mLogFM d') in
  reader_at (snd (fst l)) r ->
  fst (LogPageReaderP.readOnce m r)
  = (Readed, Some {| cbFuncID := id; cbPayload := p; cbLength := PS + PT |})
  /\ mBuffer (snd (LogPageReaderP.readOnce m r)) = mBuffer (mPageWriter d')
  /\ mBufferOffset (snd (LogPageReaderP.readOnce m r))
     = mBufferOffset (mPageWriter d')
  /\ S_block_at m p s sn
  /\ load_le m (p + PS) (Z.to_nat (sizeof T)) = t mod 2 ^ (8 * sizeof T)
  /\ cursor_ok (mPageWriter d')
  /\ mBufferOffset (mPageWriter d')
     = mBufferOffset (snd (fst l)) + sizeof_UnitHeader + (PS + PT).
Proof.
  intros Hw Hsn Hlt Hid PS PT l p d' m Hr.
  assert (0 <= sn < 2 ^ 16) as Hsn' by lia.
  destruct (block_size_small sn Hsn') as (HPS & Hal & Hblock & _). fold PS in HPS, Hal, Hblock.
  assert (PT = sizeof T) as HPT by (subst PT; destruct T; reflexivity).
  pose proof (sizeof_pos T) as HT.
  assert (sizeof T mod 4 = 0) as HT4 by (destruct T; reflexivity).
  change (2 ^ 17) with 131072 in HPS.
  assert (uint32_t (PS + PT) = PS + PT) as HU
    by (machine; apply Z.mod_small; lia).
  destruct (writeST_reads T id s sn t d (cursor_ok_weaken _ Hw) Hsn)
    as [HS HTv]; [change (2 ^ 16) with 65536 in Hlt;
                  change (2 ^ 31) with 2147483648; lia|].
  fold PS PT l p d' m in HS, HTv.
  subst m d'. rewrite writeST_eq in *. cbv zeta in *.
  cbn [mLogFM mPageWriter] in *. fold PS PT l p in HS, HTv |- *.
  revert HS HTv Hr. subst p l. rewrite HU, <- !(Z.add_assoc _ PS PT).
  intros HS HTv Hr.
  pose proof (record_round_trip (mLogFM d) (mPageWriter d) id (PS + PT) (PS + PT)
                (fun p h => putT T (p + PS) t (putS p s sn h)) r Hw) as RT.
  cbv zeta beta in RT.
  destruct RT as (R1 & R2 & R3 & R4 & R5); try assumption.
  - change (2 ^ 18) with 262144. lia.
  - rewrite HPT. zdiv.
  - change (2 ^ 19) with 524288. lia.
  - intros x h Hx. rewrite putT_frame by lia. apply putS_frame; lia.
  - rewrite R1, R2, R3, R4.
    split; [reflexivity|]. split; [reflexivity|]. split; [reflexivity|].
    split; [exact HS|]. split; [exact HTv|]. split; [exact R5|reflexivity].
Qed.

(** [writeS]: the record as the reader finds it. *)
Lemma writeS_round_trip (id : Z) (s : list byte) (sn : Z)
  (d : DetectorWriterP) (r : LogPageReaderP) :
  cursor_ok (mPageWriter d) ->
  sn = Z.of_nat (List.length s) -> sn < 2 ^ 16 -> 0 <= id < 2 ^ 16 ->
  let PS := alignedSize (uint32_t (size_t (sizeof_uint16_t + sn + 1))) in
  let l := writeLock (mLogFM d) id PS (mPageWriter d) in
  let p := fst (fst l) in
  let d' := writeS id s sn d in
  let m := cells (mLogFM d') in
  reader_at (snd (fst l)) r ->
  fst (LogPageReaderP.readOnce m r)
  = (Readed, Some {| cbFuncID := id; cbPayload := p; cbLength := PS |})
  /\ mBuffer (snd (LogPageReaderP.readOnce m r)) = mBuffer (mPageWriter d')
  /\ mBufferOffset (snd (LogPageReaderP.readOnce m r))
     = mBufferOffset (mPageWriter d')
  /\ S_block_at m p s sn
  /\ cursor_ok (mPageWriter d').
Proof.
  intros Hw Hsn Hlt Hid PS l p d' m Hr.
  assert (0 <= sn < 2 ^ 16) as Hsn' by lia.
  destruct (block_size_small sn Hsn') as (HPS & Hal & Hblock & _).
  fold PS in HPS, Hal, Hblock. change (2 ^ 17) with 131072 in HPS.
  pose proof (writeS_reads id s sn d (cursor_ok_weaken _ Hw) Hsn) as HS.
  fold PS l p d' m in HS.
  subst m d'. rewrite writeS_eq in *. cbv zeta in *.
  cbn [mLogFM mPageWriter] in *. fold PS l p in HS |- *.
  pose proof (record_round_trip (mLogFM d) (mPageWriter d) id PS PS
                (fun p h => putS p s sn h) r Hw) as RT.
  cbv zeta beta in RT. fold l p in RT.
  destruct RT as (R1 & R2 & R3 & R4 & R5); try assumption.
  - change (2 ^ 18) with 262144. lia.
  - change (2 ^ 19) with 524288. lia.
  - intros x h Hx. apply putS_frame; lia.
  - rewrite R1, R2, R3, R4.
    split; [reflexivity|]. split; [reflexivity|]. split; [reflexivity|].
    split; [exact HS|exact R5].
Qed.

(** [writeT]: the record as the reader finds it. *)
Lemma writeT_round_trip (T : FixedT) (id n : Z)
  (d : DetectorWriterP) (r : LogPageReaderP) :
  cursor_ok (mPageWriter d) -> 0 <= id < 2 ^ 16 ->
  let PT := alignedSize (sizeof T) in
  let l := writeLock (mLogFM d) id PT (mPageWriter d) in
  let p := fst (fst l) in
  let d' := writeT T id n d in
  let m := cells (mLogFM d') in
  reader_at (snd (fst l)) r ->
  fst (LogPageReaderP.readOnce m r)
  = (Readed, Some {| cbFuncID := id; cbPayload := p; cbLength := PT |})
  /\ mBuffer (snd (LogPageReaderP.readOnce m r)) = mBuffer (mPageWriter d')
  /\ mBufferOffset (snd (LogPageReaderP.readOnce m r))
     = mBufferOffset (mPageWriter d')
  /\ load_le m p (Z.to_nat (sizeof T)) = n mod 2 ^ (8 * sizeof T)
  /\ cursor_ok (mPageWriter d').
Proof.
  intros Hw Hid PT l p d' m Hr.
  assert (PT = sizeof T) as HPT by (subst PT; destruct T; reflexivity).
  pose proof (sizeof_pos T) as HT.
  assert (sizeof T mod 4 = 0) as HT4 by (destruct T; reflexivity).
  pose proof (writeLock_ptr (mLogFM d) id PT (mPageWriter d)
                (cursor_ok_weaken _ Hw)) as Hp.
  cbv zeta in Hp. fold l p in Hp.
  subst m d'. rewrite writeT_eq in *. cbv zeta in *.
  cbn [mLogFM mPageWriter] in *. fold PT l p.
  pose proof (record_round_trip (mLogFM d) (mPageWriter d) id PT PT
                (fun p h => putT T p n h) r Hw) as RT.
  cbv zeta beta in RT. fold l p in RT.
  destruct RT as (R1 & R2 & R3 & R4 & R5); try assumption.
  - change (2 ^ 18) with 262144. lia.
  - rewrite HPT. exact HT4.
  - change (2 ^ 19) with 524288. lia.
  - intros x h Hx. apply putT_frame; lia.
  - rewrite R1, R2, R3, R4.
    split; [reflexivity|]. split; [reflexivity|]. split; [reflexivity|].
    split; [|exact R5].
    rewrite <- (putT_reads T p n (snd l)).
    apply load_le_ext. intros x Hx.
    apply writeUnlock_frame. revert Hp Hx. machine. lia.
Qed.

(** [writeSS]: the UnitHeader declares the first block only, so the reader
    that has read the record stands on the second S-block, [PS2] bytes short
    of the writer's cursor. *)
Lemma writeSS_reader_lands_short (id : Z) (s1 : list byte) (sn1 : Z)
  (s2 : list byte) (sn2 : Z) (d : DetectorWriterP) (r : LogPageReaderP) :
  cursor_ok (mPageWriter d) ->
  sn1 = Z.of_nat (List.length s1) -> sn1 < 2 ^ 16 ->
  sn2 = Z.of_nat (List.length s2) -> sn2 < 2 ^ 16 ->
  0 <= id < 2 ^ 16 ->
  let PS1 := alignedSize (uint32_t (size_t (sizeof_uint16_t + sn1 + 1))) in
  let PS2 := alignedSize (uint32_t (size_t (sizeof_uint16_t + sn2 + 1))) in
  let l := writeLock (mLogFM d) id PS1 (mPageWriter d) in
  let p := fst (fst l) in
  let d' := writeSS id s1 sn1 s2 sn2 d in
  let m := cells (mLogFM d') in
  reader_at (snd (fst l)) r ->
  let r' := snd (LogPageReaderP.readOnce m r) in
  fst (LogPageReaderP.readOnce m r)
  = (Readed, Some {| cbFuncID := id; cbPayload := p; cbLength := PS1 |})
  /\ mBuffer r' = mBuffer (mPageWriter d')
  /\ mBufferOffset r' + PS2 = mBufferOffset (mPageWriter d')
  /\ 4 <= PS2
  /\ buf r' + mBufferOffset r' = p + PS1
  /\ S_block_at m p s1 sn1
  /\ S_block_at m (p + PS1) s2 sn2
  /\ cursor_ok (mPageWriter d').
Proof.
  intros Hw Hsn1 Hlt1 Hsn2 Hlt2 Hid PS1 PS2 l p d' m Hr.
  assert (0 <= sn1 < 2 ^ 16) as Hsn1' by lia.
  assert (0 <= sn2 < 2 ^ 16) as Hsn2' by lia.
  destruct (block_size_small sn1 Hsn1') as (HPS1 & Hal1 & Hblock1 & _).
  destruct (block_size_small sn2 Hsn2') as (HPS2 & Hal2 & Hblock2 & Hfour).
  fold PS1 in HPS1, Hal1, Hblock1. fold PS2 in HPS2, Hal2, Hblock2, Hfour.
  change (2 ^ 17) with 131072 in HPS1, HPS2.
  destruct (writeSS_reads id s1 sn1 s2 sn2 d (cursor_ok_weaken _ Hw) Hsn1)
    as [HS1 HS2]; [change (2 ^ 16) with 65536 in Hlt1;
                   change (2 ^ 31) with 2147483648; lia|exact Hsn2|].
  fold PS1 l p d' m in HS1, HS2.
  destruct (writeLock_places (mLogFM d) id PS1 (mPageWriter d) Hw)
    as (Hp & _); try assumption; [change (2 ^ 18) with 262144; lia|].
  fold l p in Hp.
  subst m d'. rewrite writeSS_eq in *. cbv zeta in *.
  cbn [mLogFM mPageWriter] in *. fold PS1 PS2 l p in HS1, HS2 |- *.
  revert HS1 HS2. rewrite <- !(Z.add_assoc _ PS1 PS2). intros HS1 HS2.
  pose proof (record_round_trip (mLogFM d) (mPageWriter d) id PS1 (PS1 + PS2)
                (fun p h => putS (p + PS1) s2 sn2 (putS p s1 sn1 h)) r Hw) as RT.
  cbv zeta beta in RT. fold l p in RT.
  destruct RT as (R1 & R2 & R3 & R4 & R5); try assumption.
  - change (2 ^ 18) with 262144. lia.
  - change (2 ^ 19) with 524288. lia.
  - intros x h Hx. rewrite putS_frame by lia. apply putS_frame; lia.
  - rewrite R1, R3, R4.
    split; [reflexivity|]. split; [exact R2|]. split; [lia|].
    split; [exact Hfour|]. split; [|split; [exact HS1|split; [exact HS2|exact R5]]].
    unfold buf at 1. rewrite R2.
    rewrite (proj1 (writeUnlock_buffer _ _ _)). fold (buf (snd (fst l))).
    rewrite Hp. lia.
Qed.

Lemma writeST_cursor_ok (T : FixedT) (id : Z) (s : list byte) (sn t : Z)
  (d : DetectorWriterP) :
  cursor_ok (mPageWriter d) ->
  sn = Z.of_nat (List.length s) -> sn < 2 ^ 16 -> 0 <= id < 2 ^ 16 ->
  cursor_ok (mPageWriter (writeST T id s sn t d)).
Proof.
  intros Hw Hsn Hlt Hid.
  set (w1 := snd (fst (writeLock (mLogFM d) id
                         (uint32_t (alignedSize (uint32_t (size_t (sizeof_uint16_t + sn + 1)))
                                    + alignedSize (sizeof T)))
                         (mPageWriter d)))).
  apply (writeST_round_trip T id s sn t d
           {| super := w1; mPageBusy := false;
              mPageSize := mBufferOffset w1 + 1 |} Hw Hsn Hlt Hid).
  repeat split. cbn [mBufferOffset super mPageSize]. lia.
Qed.

Lemma FuncID_code_range (f : FuncID) : 0 <= FuncID_code f < 2 ^ 16.
Proof. destruct f; vm_compute; split; (discriminate || reflexivity). Qed.

(** * The claims *)

(** C4 (as the code has it).  When [validPage] takes a new page, the page is
    mapped at [LOG_PAGE_SIZE * pageOffset], its header carries the activity
    ['+'] and the writer's [bufferOffset] becomes [sizeof(PageHeader)]; the
    packing count it is stamped with is 65535, not 0: [rewriteHeader] is
    handed [sizeof(UnitHeader)], and [(4 - 8) / 4] cut to 16 bits is
    [0xFFFF]. *)
Theorem validPage_stamps_fresh_page (fm : Heap) (space : Z) (w : LogPageP) :
  mapped w = false \/ LOG_PAGE_SIZE < uint32_t (mBufferOffset w + space) ->
  0 <= mPageOffset w < LOG_PAGE_COUNT ->
  let w' := fst (validPage fm space w) in
  let m := cells (snd (validPage fm space w)) in
  mBuffer w' = Some (LOG_PAGE_SIZE * mPageOffset w')
  /\ m (buf w') = "#"%byte
  /\ m (buf w' + 1) = "+"%byte
  /\ load_le m (buf w' + 2) 2 = 65535
  /\ load_le m (buf w' + 2) 2 <> 0
  /\ mBufferOffset w' = sizeof_PageHeader.
Proof.
  intros Hg Hpo.
  destruct (validPage_rotates fm space w Hg Hpo) as (_ & Hb & Ho & Hc & Ha & Hn).
  cbv zeta. rewrite Hn. repeat split; try assumption. discriminate.
Qed.

Lemma validPage_stamps_fresh_page_witness :
  let fm := mLogFM DetectorWriterP.create in
  let w' := fst (validPage fm 16 LogPageP_init) in
  let m := cells (snd (validPage fm 16 LogPageP_init)) in
  mBuffer w' = Some (LOG_PAGE_SIZE * mPageOffset w')
  /\ m (buf w') = "#"%byte
  /\ m (buf w' + 1) = "+"%byte
  /\ load_le m (buf w' + 2) 2 = 65535
  /\ load_le m (buf w' + 2) 2 <> 0
  /\ mBufferOffset w' = sizeof_PageHeader.
Proof.
  apply (validPage_stamps_fresh_page (mLogFM DetectorWriterP.create) 16
           LogPageP_init).
  - left. reflexivity.
  - vm_compute. split; [discriminate|reflexivity].
Defined.

(** C3 (as the code has it).  Between [writeLock] and [writeUnlock], when
    [writeLock] has taken a new page (the first record of a writer, or a
    rotation), the current page has activity ['+'] and a header packing count
    for which [sizeof(PageHeader) + packingCount * 4] is 262148, beyond
    [LOG_PAGE_SIZE]. *)
Theorem page_bound_fails_inside_bracket
  (fm : Heap) (funcId payloadSize : Z) (w : LogPageP) :
  0 <= mPageOffset w < LOG_PAGE_COUNT ->
  let w1 := snd (fst (writeLock fm funcId payloadSize w)) in
  let m := cells (snd (writeLock fm funcId payloadSize w)) in
  mBuffer w1 <> mBuffer w ->
  m (buf w1) = "#"%byte
  /\ m (buf w1 + 1) = "+"%byte
  /\ sizeof_PageHeader + load_le m (buf w1 + 2) 2 * LOG_UNIT_PACKING = 262148
  /\ LOG_PAGE_SIZE < sizeof_PageHeader + load_le m (buf w1 + 2) 2 * LOG_UNIT_PACKING.
Proof.
  intros Hpo.
  destruct (writeLock_validPage fm funcId payloadSize w) as (space & Hw & Hm & _ & _).
  cbv zeta. rewrite Hw, Hm. intros Hnew.
  apply validPage_new_buffer in Hnew.
  destruct (validPage_rotates fm space w Hnew Hpo) as (_ & _ & Ho & Hc & Ha & Hn).
  set (w1 := fst (validPage fm space w)) in *.
  set (fm1 := snd (validPage fm space w)) in *.
  assert (forall x, x < buf w1 + sizeof_PageHeader ->
            cells (memcpy UnitHeaderStore (buf w1 + mBufferOffset w1)
                     (UnitHeader_bytes
                        (uint16_t (uint32_t (payloadSize + LOG_UNIT_PACKING - 1)
                                   / LOG_UNIT_PACKING)) funcId) fm1) x
            = cells fm1 x) as Hframe.
  { intros x Hx. apply memcpy_cells_out. left. rewrite Ho. exact Hx. }
  rewrite !Hframe by (machine; lia).
  rewrite (load_le_ext _ (cells fm1)) by
    (intros x Hx; apply Hframe; machine; simpl Z.of_nat in Hx; lia).
  rewrite Hn. repeat split; try assumption; reflexivity.
Qed.

Lemma page_bound_fails_inside_bracket_witness :
  let fm := mLogFM DetectorWriterP.create in
  let w1 := snd (fst (writeLock fm (FuncID_code StampST) 12 LogPageP_init)) in
  let m := cells (snd (writeLock fm (FuncID_code StampST) 12 LogPageP_init)) in
  m (buf w1) = "#"%byte
  /\ m (buf w1 + 1) = "+"%byte
  /\ sizeof_PageHeader + load_le m (buf w1 + 2) 2 * LOG_UNIT_PACKING = 262148
  /\ LOG_PAGE_SIZE < sizeof_PageHeader + load_le m (buf w1 + 2) 2 * LOG_UNIT_PACKING.
Proof.
  apply (page_bound_fails_inside_bracket (mLogFM DetectorWriterP.create)
           (FuncID_code StampST) 12 LogPageP_init).
  - vm_compute. split; [discriminate|reflexivity].
  - vm_compute. discriminate.
Defined.




(** C8.  From a writer whose cursor is past the page header, a call of
    [writeS], [writeT] or [writeST] whose declared payload satisfies
    [sizeof(PageHeader) + sizeof(UnitHeader) + alignedSize(payloadSize) <=
    LOG_PAGE_SIZE] stores the UnitHeader, the payload bytes and the NUL at
    offsets in [[sizeof(PageHeader), LOG_PAGE_SIZE)] of the page that is
    current when it returns.  [writeLock] itself rejects nothing: whatever
    the payload size, it leaves a mapped page and writes the UnitHeader in the
    four bytes below the pointer it returns; and a [writeS] of 70000 bytes
    into a fresh file writes its NUL at file offset 70014, past the end of
    page 0. *)
Theorem encoder_stores_stay_in_page
  (T : FixedT) (id : Z) (s : list byte) (sn n : Z) (d : DetectorWriterP) :
  cursor_ok (mPageWriter d) ->
  0 <= sn < 2 ^ 31 ->
  let PS := alignedSize (uint32_t (size_t (sizeof_uint16_t + sn + 1))) in
  let PT := alignedSize (sizeof T) in
  (sizeof_PageHeader + sizeof_UnitHeader + alignedSize PS <= LOG_PAGE_SIZE ->
   adds (in_record_area (buf (mPageWriter (writeS id s sn d))))
     (mLogFM d) (mLogFM (writeS id s sn d)))
  /\ (sizeof_PageHeader + sizeof_UnitHeader + alignedSize PT <= LOG_PAGE_SIZE
      /\ adds (in_record_area (buf (mPageWriter (writeT T id n d))))
           (mLogFM d) (mLogFM (writeT T id n d)))
  /\ (sizeof_PageHeader + sizeof_UnitHeader + alignedSize (uint32_t (PS + PT))
      <= LOG_PAGE_SIZE ->
      adds (in_record_area (buf (mPageWriter (writeST T id s sn n d))))
        (mLogFM d) (mLogFM (writeST T id s sn n d)))
  /\ (forall fm funcId payloadSize w,
        let r := writeLock fm funcId payloadSize w in
        let p := fst (fst r) in
        mapped (snd (fst r)) = true
        /\ p = buf (snd (fst r)) + mBufferOffset (snd (fst r)) + sizeof_UnitHeader
        /\ exists older,
             stored (snd r)
             = [(UnitHeaderStore, p - 1); (UnitHeaderStore, p - 2);
                (UnitHeaderStore, p - 3); (UnitHeaderStore, p - 4)] ++ older)
  /\ (let big := Z.to_nat 70000 in
      let d' := writeS id (repeat "x"%byte big) 70000 DetectorWriterP.create in
      buf (mPageWriter d') = 0
      /\ nth 8 (stored (mLogFM d')) (PageHeaderStore, 0) = (PayloadStore, 70014)).
Proof.
  intros Hw Hsn. cbv zeta.
  split; [|split; [|split; [|split]]].
  - intros Hfit. apply writeS_in_page; assumption.
  - split; [destruct T; vm_compute; discriminate|].
    apply writeT_in_page; assumption.
  - intros Hfit. apply writeST_in_page; assumption.
  - intros fm funcId payloadSize w.
    destruct (writeLock_validPage fm funcId payloadSize w)
      as (space & E1 & E2 & E3 & _).
    rewrite E1, E2, E3. split; [apply validPage_mapped|].
    split; [reflexivity|].
    exists (stored (snd (validPage fm space w))).
    cbn [UnitHeader_bytes le_bytes app memcpy store8 stored].
    machine. repeat (f_equal; try lia).
  - split; [reflexivity|].
    unfold writeS, writeLock, validPage.
    cbn [DetectorWriterP.create mLogFM mPageWriter LogPageP_init mapped mBuffer
         negb orb rewriteHeader writeUnlock].
    vm_compute. reflexivity.
Qed.

Lemma encoder_stores_stay_in_page_witness :
  let d := DetectorWriterP.create in
  let name := literal "A" in
  adds (in_record_area (buf (mPageWriter (writeS 3 name 1 d))))
    (mLogFM d) (mLogFM (writeS 3 name 1 d))
  /\ adds (in_record_area (buf (mPageWriter (writeT Int64 3 1000 d))))
       (mLogFM d) (mLogFM (writeT Int64 3 1000 d))
  /\ adds (in_record_area (buf (mPageWriter (writeST Int64 3 name 1 1000 d))))
       (mLogFM d) (mLogFM (writeST Int64 3 name 1 1000 d)).
Proof.
  assert (cursor_ok (mPageWriter DetectorWriterP.create)) as Hw
    by (intros Hm; discriminate Hm).
  assert (0 <= 1 < 2 ^ 31) as Hsn by (vm_compute; split; [discriminate|reflexivity]).
  destruct (encoder_stores_stay_in_page Int64 3 (literal "A") 1 1000
              DetectorWriterP.create Hw Hsn) as (HS & [_ HT] & HST & _).
  split; [|split].
  - apply HS. vm_compute. discriminate.
  - exact HT.
  - apply HST. vm_compute. discriminate.
Defined.

(** C9.  Every string encoder stores the length prefix of an S-block as
    [uint16_t(sn)] and copies all [sn] bytes and the NUL after it: below
    65536 the prefix is [sn] and [parseString] advances by the size of the
    block the encoder reserved; from 65536 on the prefix is [sn mod 2^16], not
    [sn].  The packing count in the UnitHeader of [writeLock] is
    [(payloadSize + 3) / 4] cut to 16 bits in the same way. *)
Theorem length_prefix_is_cut_to_16_bits
  (T : FixedT) (id : Z) (s1 s2 : list byte) (sn1 sn2 t : Z)
  (d : DetectorWriterP) :
  (mapped (mPageWriter d) = true ->
   sizeof_PageHeader <= mBufferOffset (mPageWriter d)) ->
  sn1 = Z.of_nat (List.length s1) -> sn1 < 2 ^ 31 ->
  sn2 = Z.of_nat (List.length s2) ->
  let PS := alignedSize (uint32_t (size_t (sizeof_uint16_t + sn1 + 1))) in
  let PT := alignedSize (sizeof T) in
  let lock P := fst (fst (writeLock (mLogFM d) id P (mPageWriter d))) in
  S_block_at (cells (mLogFM (writeS id s1 sn1 d))) (lock PS) s1 sn1
  /\ S_block_at (cells (mLogFM (writeST T id s1 sn1 t d)))
       (lock (uint32_t (PS + PT))) s1 sn1
  /\ S_block_at (cells (mLogFM (writeSS id s1 sn1 s2 sn2 d))) (lock PS) s1 sn1
  /\ S_block_at (cells (mLogFM (writeSS id s1 sn1 s2 sn2 d)))
       (lock PS + PS) s2 sn2
  /\ (forall fm funcId payloadSize w,
        0 <= payloadSize ->
        let r := writeLock fm funcId payloadSize w in
        load_le (cells (snd r)) (fst (fst r) - 4) 2
        = ((payloadSize + 3) / 4) mod 2 ^ 16).
Proof.
  intros Hw Hsn1 Hlt Hsn2. cbv zeta.
  split; [|split; [|split; [|split]]].
  - apply writeS_reads; assumption.
  - apply (writeST_reads T id s1 sn1 t d); assumption.
  - apply (writeSS_reads id s1 sn1 s2 sn2 d); assumption.
  - apply (writeSS_reads id s1 sn1 s2 sn2 d); assumption.
  - intros fm funcId payloadSize w Hp.
    destruct (writeLock_unit fm funcId payloadSize w) as [Hc _].
    cbv zeta in Hc. rewrite Hc. machine. zdiv.
Qed.

Lemma length_prefix_is_cut_to_16_bits_witness :
  let d := DetectorWriterP.create in
  let k := literal "k" in
  let v := literal "v" in
  let lock P := fst (fst (writeLock (mLogFM d) 7 P (mPageWriter d))) in
  S_block_at (cells (mLogFM (writeS 7 k 1 d))) (lock 4) k 1
  /\ S_block_at (cells (mLogFM (writeST Int32 7 k 1 7 d))) (lock 8) k 1
  /\ S_block_at (cells (mLogFM (writeSS 7 k 1 v 1 d))) (lock 4) k 1
  /\ S_block_at (cells (mLogFM (writeSS 7 k 1 v 1 d))) (lock 4 + 4) v 1.
Proof.
  assert (mapped (mPageWriter DetectorWriterP.create) = true ->
          sizeof_PageHeader <= mBufferOffset (mPageWriter DetectorWriterP.create))
    as Hw by (intros Hm; discriminate Hm).
  destruct (length_prefix_is_cut_to_16_bits Int32 7 (literal "k") (literal "v")
              1 1 7 DetectorWriterP.create Hw eq_refl eq_refl eq_refl)
    as (H1 & H2 & H3 & H4 & _).
  split; [exact H1|split; [exact H2|split; [exact H3|exact H4]]].
Defined.

Import Scenario.

(** C1 (as the code has it).  [writeSS] hands [writeLock] the size of its
    first S-block only.  For every [setValue(name, value)] with strings
    shorter than 65536 bytes, the reader that stands on the record gets the
    callback [SetValueSS] with a declared length that covers the first block;
    both strings are in place for the parse primitives (the second beyond the
    declared length), but the reader then stands on the second S-block, the
    size of that block short of the next record.  In particular, after
    [setValue("k", "v")] and [setValue("k", 7)] the reader's callbacks are
    [SetValueSS], then the function id 118 (the bytes ["v"] and NUL), then 107
    (["k"] and NUL), and the page is exhausted: [SetValueST("k", 7)] is never
    delivered. *)
Theorem writeSS_record_desynchronises_reader
  (name value : dLiteral) (d : DetectorWriterP) (r : LogPageReaderP) :
  cursor_ok (mPageWriter d) ->
  dLiteral_length name < 2 ^ 16 -> dLiteral_length value < 2 ^ 16 ->
  let PS1 :=
    alignedSize (uint32_t (size_t (sizeof_uint16_t + dLiteral_length name + 1))) in
  let PS2 :=
    alignedSize (uint32_t (size_t (sizeof_uint16_t + dLiteral_length value + 1))) in
  let l := writeLock (mLogFM d) (FuncID_code SetValueSS) PS1 (mPageWriter d) in
  let p := fst (fst l) in
  let d' := dDetector.setValueSS name value d in
  let m := cells (mLogFM d') in
  reader_at (snd (fst l)) r ->
  let r' := snd (LogPageReaderP.readOnce m r) in
  (fst (LogPageReaderP.readOnce m r)
   = (Readed, Some {| cbFuncID := FuncID_code SetValueSS;
                      cbPayload := p; cbLength := PS1 |})
   /\ S_block_at m p name (dLiteral_length name)
   /\ S_block_at m (p + PS1) value (dLiteral_length value)
   /\ buf r' + mBufferOffset r' = p + PS1
   /\ mBufferOffset r' + PS2 = mBufferOffset (mPageWriter d')
   /\ 4 <= PS2)
  /\ (let fm := cells (mLogFM two_values) in
      let reads := fst (readMany fm 4 (DetectorReaderP.create (Some fm))) in
      reads
      = [(Readed, Some {| cbFuncID := FuncID_code SetValueSS;
                          cbPayload := 12; cbLength := 4 |});
         (Readed, Some {| cbFuncID := 118; cbPayload := 20; cbLength := 4 |});
         (Readed, Some {| cbFuncID := 107; cbPayload := 28; cbLength := 4 |});
         (Unreaded, None)]
      /\ decodeSS fm {| cbFuncID := FuncID_code SetValueSS;
                        cbPayload := 12; cbLength := 4 |}
         = (literal "k", literal "v")
      /\ load_le fm 20 2 = 2 /\ load_le fm 22 2 = FuncID_code SetValueST
      /\ decodeST32 fm {| cbFuncID := FuncID_code SetValueST;
                          cbPayload := 24; cbLength := 8 |}
         = (literal "k", 7)
      /\ Forall (fun rc => option_map cbFuncID (snd rc)
                           <> Some (FuncID_code SetValueST)) reads).
Proof.
  intros Hw Hn Hv PS1 PS2 l p d' m Hr r'. split.
  - destruct (writeSS_reader_lands_short (FuncID_code SetValueSS)
                name (dLiteral_length name) value (dLiteral_length value) d r
                Hw eq_refl Hn eq_refl Hv (FuncID_code_range SetValueSS) Hr)
      as (R1 & _ & R3 & R4 & R5 & R6 & R7 & _).
    split; [exact R1|]. split; [exact R6|]. split; [exact R7|].
    split; [exact R5|]. split; [exact R3|exact R4].
  - vm_compute. repeat split; try reflexivity.
    repeat constructor; discriminate.
Qed.

Lemma writeSS_record_desynchronises_reader_witness :
  let d := DetectorWriterP.create in
  let d' := dDetector.setValueSS (literal "k") (literal "v") d in
  let m := cells (mLogFM d') in
  let r := mPageReader (DetectorReaderP.create (Some m)) in
  let r' := snd (LogPageReaderP.readOnce m r) in
  fst (LogPageReaderP.readOnce m r)
  = (Readed, Some {| cbFuncID := FuncID_code SetValueSS;
                     cbPayload := 12; cbLength := 4 |})
  /\ buf r' + mBufferOffset r' = 12 + 4
  /\ mBufferOffset r' + 4 = mBufferOffset (mPageWriter d').
Proof.
  set (d := DetectorWriterP.create).
  set (m := cells (mLogFM (dDetector.setValueSS (literal "k") (literal "v") d))).
  set (r := mPageReader (DetectorReaderP.create (Some m))).
  assert (cursor_ok (mPageWriter d)) as Hw by (intros Hm; discriminate Hm).
  assert (dLiteral_length (literal "k") < 2 ^ 16) as Hk by reflexivity.
  assert (dLiteral_length (literal "v") < 2 ^ 16) as Hv by reflexivity.
  assert (reader_at
            (snd (fst (writeLock (mLogFM d) (FuncID_code SetValueSS) 4
                         (mPageWriter d)))) r) as Hr
    by (vm_compute; repeat split; discriminate).
  destruct (writeSS_record_desynchronises_reader (literal "k") (literal "v") d r
              Hw Hk Hv Hr) as [(R1 & _ & _ & R4 & R5 & _) _].
  split; [exact R1|]. split; [exact R4|exact R5].
Defined.

(** C2 (as the code has it).  After [stamp("A")] and the clean exit, a fresh
    reader adopts page 0 as a closed page.  Its first [readOnce] delivers the
    [StampST] record with the name ["A"] and returns [Readed]; its next
    [readOnce] goes on to page 1, finds no ['#'] there and returns
    [Unreaded], not [ExitProgram], and so does every later call.  A reader that
    was constructed before the exit, with the page still ['+'], does get
    [ExitProgram] on its second call. *)
Theorem fresh_reader_misses_the_exit :
  let fm := cells (mLogFM stamped_exited) in
  let fresh := DetectorReaderP.create (Some fm) in
  let early := DetectorReaderP.create (Some (cells (mLogFM stamped))) in
  fst (readMany fm 3 fresh)
  = [(Readed, Some {| cbFuncID := FuncID_code StampST;
                      cbPayload := 12; cbLength := 12 |});
     (Unreaded, None); (Unreaded, None)]
  /\ decodeST64 fm {| cbFuncID := FuncID_code StampST;
                      cbPayload := 12; cbLength := 12 |}
     = (literal "A", 1000)
  /\ fm 1 = "/"%byte
  /\ fst (LogPageReaderP.loadPage fm LogPageReaderP.init) = ExitProgram
  /\ fst (readMany fm 2 early)
     = [(Readed, Some {| cbFuncID := FuncID_code StampST;
                         cbPayload := 12; cbLength := 12 |});
        (ExitProgram, None)].
Proof.
  vm_compute. repeat split; reflexivity.
Qed.

(** C5 (as the code has it).  The destructor of a moved-from guard is not
    inert.  Whatever name the move leaves behind ([residue]), the destructor
    frames a [ScopeEndST] record with that name and the clock reading, which a
    reader standing there is called back with.  So a guard made by
    [scope("f")] and moved once gives one [ScopeBeginST] and two [ScopeEndST]
    records (shown for a move that empties the name and for one that leaves
    it in place). *)
Theorem moved_from_guard_emits_ScopeEnd
  (residue : dLiteral -> dLiteral) (name : dLiteral) (t0 t1 t2 : Z)
  (d : DetectorWriterP) (r : LogPageReaderP) :
  cursor_ok (mPageWriter d) ->
  dLiteral_length name < 2 ^ 16 ->
  dLiteral_length (residue name) < 2 ^ 16 ->
  let made := dDetector.scope name t0 d in
  let moved := dDetector.Stack_move residue (fst made) in
  let d2 := dDetector.Stack_delete (fst moved) t1 (snd made) in
  let d3 := dDetector.Stack_delete (snd moved) t2 d2 in
  let PS :=
    alignedSize
      (uint32_t (size_t (sizeof_uint16_t + dLiteral_length (residue name) + 1))) in
  let l := writeLock (mLogFM d2) (FuncID_code ScopeEndST)
             (uint32_t (PS + alignedSize (sizeof Int64))) (mPageWriter d2) in
  let p := fst (fst l) in
  let m := cells (mLogFM d3) in
  reader_at (snd (fst l)) r ->
  (mName (snd moved) = residue name
   /\ fst (LogPageReaderP.readOnce m r)
      = (Readed, Some {| cbFuncID := FuncID_code ScopeEndST;
                         cbPayload := p; cbLength := PS + 8 |})
   /\ S_block_at m p (residue name) (dLiteral_length (residue name))
   /\ load_le m (p + PS) 8 = t2 mod 2 ^ 64)
  /\ (let run residue :=
        let fm := cells (mLogFM (moved_guard residue)) in
        fst (readMany fm 4 (DetectorReaderP.create (Some fm))) in
      let ids reads := map (fun rc => option_map cbFuncID (snd rc)) reads in
      let names residue reads :=
        map (fun rc => option_map
                         (decodeST64 (cells (mLogFM (moved_guard residue))))
                         (snd rc)) reads in
      ids (run (fun _ => []))
      = [Some (FuncID_code ScopeBeginST); Some (FuncID_code ScopeEndST);
         Some (FuncID_code ScopeEndST); None]
      /\ names (fun _ => []) (run (fun _ => []))
         = [Some (literal "f", 10); Some (literal "f", 20); Some ([], 30); None]
      /\ ids (run (fun name => name))
         = [Some (FuncID_code ScopeBeginST); Some (FuncID_code ScopeEndST);
            Some (FuncID_code ScopeEndST); None]
      /\ names (fun name => name) (run (fun name => name))
         = [Some (literal "f", 10); Some (literal "f", 20);
            Some (literal "f", 30); None]).
Proof.
  intros Hw Hn Hres made moved d2 d3 PS l p m Hr. split.
  - assert (cursor_ok (mPageWriter (snd made))) as Hw1.
    { exact (writeST_cursor_ok Int64 (FuncID_code ScopeBeginST) name
               (dLiteral_length name) t0 d Hw eq_refl Hn
               (FuncID_code_range ScopeBeginST)). }
    assert (cursor_ok (mPageWriter d2)) as Hw2.
    { exact (writeST_cursor_ok Int64 (FuncID_code ScopeEndST) name
               (dLiteral_length name) t1 (snd made) Hw1 eq_refl Hn
               (FuncID_code_range ScopeEndST)). }
    destruct (writeST_round_trip Int64 (FuncID_code ScopeEndST)
                (residue name) (dLiteral_length (residue name)) t2 d2 r
                Hw2 eq_refl Hres (FuncID_code_range ScopeEndST) Hr)
      as (R1 & _ & _ & R4 & R5 & _).
    split; [reflexivity|]. split; [exact R1|]. split; [exact R4|exact R5].
  - vm_compute. repeat split; reflexivity.
Qed.

Lemma moved_from_guard_emits_ScopeEnd_witness :
  let d3 := moved_guard (fun _ => []) in
  let m := cells (mLogFM d3) in
  let r :=
    {| super := {| mBuffer := Some 0; mBufferOffset := 40;
                   mPageOffset := 0; mPageID := 0 |};
       mPageBusy := true; mPageSize := 56 |} in
  fst (LogPageReaderP.readOnce m r)
  = (Readed, Some {| cbFuncID := FuncID_code ScopeEndST;
                     cbPayload := 44; cbLength := 12 |})
  /\ load_le m 48 8 = 30.
Proof.
  set (r := {| super := {| mBuffer := Some 0; mBufferOffset := 40;
                           mPageOffset := 0; mPageID := 0 |};
               mPageBusy := true; mPageSize := 56 |}).
  assert (cursor_ok (mPageWriter DetectorWriterP.create)) as Hw
    by (intros Hm; discriminate Hm).
  assert (dLiteral_length (literal "f") < 2 ^ 16) as Hn by reflexivity.
  assert (dLiteral_length ((fun _ : dLiteral => @nil byte) (literal "f")) < 2 ^ 16)
    as Hres by reflexivity.
  destruct (moved_from_guard_emits_ScopeEnd (fun _ => []) (literal "f") 10 20 30
              DetectorWriterP.create r Hw Hn Hres) as [(_ & R1 & _ & R3) _].
  - vm_compute. repeat split; discriminate.
  - split; [exact R1|exact R3].
Defined.

(** The failed advance onto a terminal page, on a run.  The writer has
    closed page 0 and exited on page 1.  The reader has consumed page 0; its
    next [readOnce] returns [ExitProgram] with [pageOffset] restored to 0,
    but [loadPage] has already moved the buffer, the cursor and the page size
    to page 1.  The call after that does not retry: it delivers the
    [StampST] record of page 1 and returns [Readed]. *)
Lemma failed_advance_on_terminal_page_moves_cursor :
  let fm := cells (mLogFM two_pages_exited) in
  let r0 := mPageReader (DetectorReaderP.create (Some fm)) in
  let r1 := snd (LogPageReaderP.readOnce fm r0) in
  let next :=
    LogPageReaderP.setPageOffset
      (uint32_t (mPageOffset r1 + 1) mod LOG_PAGE_COUNT) r1 in
  let r2 := snd (LogPageReaderP.readOnce fm r1) in
  (mBufferOffset r1 = mPageSize r1 /\ mPageBusy r1 = false
   /\ mPageOffset r1 = 0 /\ mBuffer r1 = Some 0)
  /\ fst (LogPageReaderP.loadPage fm next) = ExitProgram
  /\ fst (LogPageReaderP.readOnce fm r1) = (ExitProgram, None)
  /\ (mPageOffset r2 = 0 /\ mBuffer r2 = Some LOG_PAGE_SIZE
      /\ mBufferOffset r2 = sizeof_PageHeader /\ mPageSize r2 = 24)
  /\ r2 <> r1
  /\ fst (LogPageReaderP.readOnce fm r2)
     = (Readed, Some {| cbFuncID := FuncID_code StampST;
                        cbPayload := LOG_PAGE_SIZE + 12; cbLength := 12 |})
  /\ fst (LogPageReaderP.readOnce fm r2) <> fst (LogPageReaderP.readOnce fm r1).
Proof.
  vm_compute. repeat split; try reflexivity; discriminate.
Qed.

(** The failed advance in general.  When [readOnce] has consumed a closed
    page and the [loadPage] of the next page does not return [Readed],
    [readOnce] returns that result without a callback and with [pageOffset]
    restored.  The result is [Unreaded] (no ['#'] at the next page) or
    [ExitProgram]; when it is [Unreaded] the reader is left exactly as it
    was, so that a later [readOnce] tries the same page again. *)
Theorem failed_advance_restores_pageOffset (fm : Z -> byte) (r : LogPageReaderP) :
  mBufferOffset r = mPageSize r ->
  mPageBusy r = false ->
  let next :=
    LogPageReaderP.setPageOffset
      (uint32_t (mPageOffset r + 1) mod LOG_PAGE_COUNT) r in
  fst (LogPageReaderP.loadPage fm next) <> Readed ->
  let Result := fst (fst (LogPageReaderP.readOnce fm r)) in
  let r' := snd (LogPageReaderP.readOnce fm r) in
  Result = fst (LogPageReaderP.loadPage fm next)
  /\ snd (fst (LogPageReaderP.readOnce fm r)) = None
  /\ mPageOffset r' = mPageOffset r
  /\ (Result = Unreaded \/ Result = ExitProgram)
  /\ (Result = Unreaded ->
      r' = r
      /\ forall fm', LogPageReaderP.readOnce fm' r' = LogPageReaderP.readOnce fm' r).
Proof.
  intros Hend Hbusy next Hfail.
  assert (LogPageReaderP.readOnce fm r
          = (fst (LogPageReaderP.loadPage fm next), None,
             LogPageReaderP.setPageOffset (mPageOffset r)
               (snd (LogPageReaderP.loadPage fm next)))) as Hro.
  { unfold LogPageReaderP.readOnce.
    rewrite Hend, Z.eqb_refl, Hbusy. fold next.
    destruct (LogPageReaderP.loadPage fm next) as [res r2].
    cbn [fst snd] in *. destruct res; try reflexivity; contradiction. }
  cbv zeta. rewrite Hro. cbn [fst snd].
  split; [reflexivity|]. split; [reflexivity|]. split; [reflexivity|].
  assert (LogPageReaderP.setPageOffset (mPageOffset r) next = r) as Hback.
  { subst next. destruct r as [[b o po id] busy size]. reflexivity. }
  clear Hro. revert Hfail. unfold LogPageReaderP.loadPage.
  destruct (Byte.eqb (fm _) "#"); cbn [fst snd].
  - destruct (Byte.eqb (fm _) "/"); intros Hfail; [|contradiction].
    split; [right; reflexivity|]. intros H; discriminate H.
  - intros _. split; [left; reflexivity|]. intros _.
    rewrite Hback. split; [reflexivity|]. intros fm'. reflexivity.
Qed.

Lemma failed_advance_restores_pageOffset_witness :
  let fm := cells (mLogFM stamped_exited) in
  let r := snd (LogPageReaderP.readOnce fm
                  (mPageReader (DetectorReaderP.create (Some fm)))) in
  let Result := fst (fst (LogPageReaderP.readOnce fm r)) in
  let r' := snd (LogPageReaderP.readOnce fm r) in
  Result = Unreaded
  /\ snd (fst (LogPageReaderP.readOnce fm r)) = None
  /\ mPageOffset r' = mPageOffset r
  /\ r' = r.
Proof.
  set (fm := cells (mLogFM stamped_exited)).
  set (r := snd (LogPageReaderP.readOnce fm
                   (mPageReader (DetectorReaderP.create (Some fm))))).
  assert (mBufferOffset r = mPageSize r) as H1 by (vm_compute; reflexivity).
  assert (mPageBusy r = false) as H2 by (vm_compute; reflexivity).
  assert (fst (LogPageReaderP.loadPage fm
                 (LogPageReaderP.setPageOffset
                    (uint32_t (mPageOffset r + 1) mod LOG_PAGE_COUNT) r))
          <> Readed) as H3 by (vm_compute; discriminate).
  destruct (failed_advance_restores_pageOffset fm r H1 H2 H3)
    as (Hres & Hcb & Hpo & _ & Hun).
  assert (fst (fst (LogPageReaderP.readOnce fm r)) = Unreaded) as HU
    by (vm_compute; reflexivity).
  cbv zeta.
  split; [exact HU|]. split; [exact Hcb|]. split; [exact Hpo|].
  apply Hun. exact HU.
Defined.

(** * Further properties *)

(** ** Signed values *)

Lemma int32_t_mod (n : Z) : int32_t (n mod 2 ^ 32) = int32_t n.
Proof.
  unfold int32_t. change (2 ^ 32) with 4294967296.
  change (2 ^ 31) with 2147483648. zdiv.
Qed.

Lemma int64_t_mod (n : Z) : int64_t (n mod 2 ^ 64) = int64_t n.
Proof.
  unfold int64_t. change (2 ^ 64) with 18446744073709551616.
  change (2 ^ 63) with 9223372036854775808. zdiv.
Qed.

Lemma castT_small (T : FixedT) (n : Z) :
  - 2 ^ (8 * sizeof T - 1) <= n < 2 ^ (8 * sizeof T - 1) -> castT T n = n.
Proof.
  destruct T; cbn [castT sizeof]; unfold int32_t, int64_t;
    change (8 * 4 - 1) with 31; change (8 * 8 - 1) with 63;
    change (2 ^ 32) with 4294967296; change (2 ^ 31) with 2147483648;
    change (2 ^ 64) with 18446744073709551616;
    change (2 ^ 63) with 9223372036854775808; intros H; zdiv.
Qed.

Lemma parseT_reads (T : FixedT) (m : Z -> byte) (p n : Z) :
  load_le m p (Z.to_nat (sizeof T)) = n mod 2 ^ (8 * sizeof T) ->
  parseT T m p = (castT T n, p + alignedSize (sizeof T)).
Proof.
  destruct T; cbn [parseT sizeof castT]; intros H;
    unfold dDetector.parseInt32, dDetector.parseInt64.
  - change (Z.to_nat 4) with 4%nat in H. rewrite H.
    change (8 * 4) with 32. rewrite int32_t_mod. reflexivity.
  - change (Z.to_nat 8) with 8%nat in H. rewrite H.
    change (8 * 8) with 64. rewrite int64_t_mod. reflexivity.
Qed.

Lemma load_le_nonneg (m : Z -> byte) (n : nat) : forall a, 0 <= load_le m a n.
Proof.
  induction n as [|n IH]; intros a; cbn [load_le]; [lia|].
  pose proof (Z_of_byte_range (m a)). specialize (IH (a + 1)). lia.
Qed.

(** ** Records lying back to back *)

Lemma framed_le (m : Z -> byte) (cbs : list Callback) :
  forall a e, framed m a cbs e -> a <= e.
Proof.
  induction cbs as [|cb cbs IH]; intros a e H; cbn [framed] in H.
  - lia.
  - destruct H as (_ & _ & Hl & Hrest). apply IH in Hrest.
    pose proof (load_le_nonneg m 2 a). revert Hl Hrest. machine. lia.
Qed.

Lemma framed_ext (m m' : Z -> byte) (cbs : list Callback) :
  forall a e,
    (forall x, a <= x < e -> m' x = m x) ->
    framed m a cbs e -> framed m' a cbs e.
Proof.
  induction cbs as [|cb cbs IH]; intros a e Hm H; cbn [framed] in *.
  - exact H.
  - destruct H as (Hf & Hp & Hl & Hrest).
    pose proof (framed_le _ _ _ _ Hrest) as Hle.
    pose proof (load_le_nonneg m 2 a) as Hnn.
    assert (a + 4 <= e) as Hroom by (revert Hl Hle; machine; lia).
    assert (load_le m' a 2 = load_le m a 2) as E1.
    { apply load_le_ext. intros x Hx. apply Hm. simpl Z.of_nat in Hx. lia. }
    assert (load_le m' (a + 2) 2 = load_le m (a + 2) 2) as E2.
    { apply load_le_ext. intros x Hx. apply Hm. simpl Z.of_nat in Hx. lia. }
    rewrite E1, E2. repeat split; try assumption.
    apply IH; [|exact Hrest].
    intros x Hx. apply Hm. revert Hl Hx. machine. lia.
Qed.

Lemma framed_app (m : Z -> byte) (cbs cbs' : list Callback) :
  forall a e e',
    framed m a cbs e -> framed m e cbs' e' -> framed m a (cbs ++ cbs') e'.
Proof.
  induction cbs as [|cb cbs IH]; intros a e e' H H'; cbn [framed app] in *.
  - subst e. exact H'.
  - destruct H as (Hf & Hp & Hl & Hrest). repeat split; try assumption.
    eapply IH; eassumption.
Qed.

(** ** The writer stays on its page when the record fits *)

Lemma validPage_stays (fm : Heap) (space : Z) (w : LogPageP) :
  mapped w = true ->
  0 <= mBufferOffset w -> 0 <= space ->
  mBufferOffset w + space <= LOG_PAGE_SIZE ->
  validPage fm space w = (w, fm).
Proof.
  intros Hm Ho Hs Hfit. unfold validPage. rewrite Hm. cbn [negb orb].
  destruct (Z.ltb_spec LOG_PAGE_SIZE (uint32_t (mBufferOffset w + space)))
    as [Hlt|Hge]; [|reflexivity].
  exfalso. revert Hfit Hlt. machine. intros Hfit Hlt.
  rewrite Z.mod_small in Hlt by lia. lia.
Qed.

(** The tail that the encoders share once the page is chosen: the
    UnitHeader at the cursor, the payload stores, [writeUnlock]. *)
Lemma record_tail (w1 : LogPageP) (fm1 : Heap) (id P : Z)
  (body : Z -> Heap -> Heap) :
  sizeof_PageHeader <= mBufferOffset w1 ->
  mBufferOffset w1 mod 4 = 0 ->
  mBufferOffset w1 + sizeof_UnitHeader + P <= LOG_PAGE_SIZE ->
  0 <= P -> P mod 4 = 0 -> 0 <= id < 2 ^ 16 ->
  let b := buf w1 in
  let o := mBufferOffset w1 in
  let p := b + o + sizeof_UnitHeader in
  (forall x h, x < p \/ p + P <= x -> cells (body p h) x = cells h x) ->
  let fm2 :=
    memcpy UnitHeaderStore (b + o)
      (UnitHeader_bytes
         (uint16_t (uint32_t (P + LOG_UNIT_PACKING - 1) / LOG_UNIT_PACKING)) id)
      fm1 in
  let u := writeUnlock (body p fm2) (p + P) w1 in
  let m := cells (snd u) in
  fst u = {| mBuffer := mBuffer w1; mBufferOffset := o + sizeof_UnitHeader + P;
             mPageOffset := mPageOffset w1; mPageID := mPageID w1 |}
  /\ (m b = "#"%byte /\ m (b + 1) = "+"%byte
      /\ sizeof_PageHeader + LOG_UNIT_PACKING * load_le m (b + 2) 2
         = o + sizeof_UnitHeader + P)
  /\ (LOG_UNIT_PACKING * load_le m (b + o) 2 = P
      /\ load_le m (b + o + 2) 2 = id)
  /\ (forall x, x < b \/ b + sizeof_PageHeader <= x ->
                x < b + o \/ p + P <= x -> m x = cells fm1 x)
  /\ (forall x, p <= x -> m x = cells (body p fm2) x).
Proof.
  intros Ho Hal Hfit HP HP4 Hid b o p Hbody fm2 u m.
  assert (uint32_t (p + P - buf w1) = o + sizeof_UnitHeader + P) as Eoff.
  { subst p b o. revert Ho Hfit. machine. intros Ho Hfit.
    rewrite Z.mod_small; lia. }
  assert (forall x, b + sizeof_PageHeader <= x -> m x = cells (body p fm2) x)
    as Hun.
  { intros x Hx. subst m u. apply writeUnlock_frame. right. exact Hx. }
  assert (P < 2 ^ 18) as HP18
    by (revert Ho Hfit; machine; change (2 ^ 18) with 262144; lia).
  pose proof (packing_count_of_aligned P (conj HP HP18) HP4) as Hcount.
  set (c := uint16_t (uint32_t (P + LOG_UNIT_PACKING - 1) / LOG_UNIT_PACKING))
    in *.
  pose proof (load_bytes_memcpy UnitHeaderStore (UnitHeader_bytes c id) (b + o) fm1)
    as Hunit.
  apply UnitHeader_reads in Hunit. fold fm2 in Hunit.
  destruct Hunit as [Hc Hf].
  assert (c mod 2 ^ 16 = c) as Ec
    by (subst c; unfold uint16_t; apply Z.mod_mod; lia).
  rewrite Ec in Hc. rewrite (Z.mod_small id) in Hf by exact Hid.
  assert (forall x, b + o <= x < p -> m x = cells fm2 x) as Hhdr.
  { intros x Hx. rewrite Hun by (subst o; revert Ho; machine; lia).
    apply Hbody. lia. }
  clearbody c.
  split; [|split; [|split; [|split]]].
  - subst u. unfold writeUnlock. cbn [rewriteHeader fst]. rewrite Eoff.
    reflexivity.
  - subst m u. unfold writeUnlock. cbn [mBufferOffset]. rewrite Eoff.
    set (w2 := {| mBuffer := mBuffer w1; mBufferOffset := _;
                  mPageOffset := mPageOffset w1; mPageID := mPageID w1 |}).
    change (snd (let '(_, fm3) := rewriteHeader "+" (o + sizeof_UnitHeader + P)
                                    w2 (body p fm2) in (w2, fm3)))
      with (snd (rewriteHeader "+" (o + sizeof_UnitHeader + P) w2 (body p fm2))).
    pose proof (rewriteHeader_reads "+" (o + sizeof_UnitHeader + P) w2
                  (body p fm2)) as Hh.
    cbv zeta in Hh. change (buf w2) with b in Hh.
    destruct Hh as (H1 & H2 & H3 & _).
    split; [exact H1|]. split; [exact H2|]. rewrite H3.
    subst o. revert Ho Hal Hfit. machine. intros Ho Hal Hfit.
    rewrite (Z.mod_small (mBufferOffset w1 + 4 + P - 8)) by lia.
    rewrite Z.mod_small by zdiv. zdiv.
  - split.
    + rewrite <- Hcount, <- Hc. f_equal. apply load_le_ext.
      intros x Hx. apply Hhdr. subst p. simpl Z.of_nat in Hx. machine. lia.
    + rewrite <- Hf. apply load_le_ext.
      intros x Hx. apply Hhdr. subst p. simpl Z.of_nat in Hx. machine. lia.
  - intros x Hx1 Hx2. subst m u.
    rewrite writeUnlock_frame by exact Hx1.
    rewrite Hbody by (subst p; revert Hx2; machine; lia).
    subst fm2. apply memcpy_cells_out. rewrite length_UnitHeader_bytes.
    subst p. revert Hx2. machine. lia.
  - intros x Hx. apply Hun. subst p o. revert Ho Hx. machine. lia.
Qed.

Lemma writeLock_stays (fm : Heap) (id P : Z) (w : LogPageP) :
  mapped w = true ->
  0 <= mBufferOffset w ->
  0 <= P -> P mod 4 = 0 ->
  mBufferOffset w + sizeof_UnitHeader + P <= LOG_PAGE_SIZE ->
  writeLock fm id P w
  = (buf w + mBufferOffset w + sizeof_UnitHeader, w,
     memcpy UnitHeaderStore (buf w + mBufferOffset w)
       (UnitHeader_bytes
          (uint16_t (uint32_t (P + LOG_UNIT_PACKING - 1) / LOG_UNIT_PACKING)) id)
       fm).
Proof.
  intros Hm Ho HP HP4 Hfit. unfold writeLock.
  assert (P < 2 ^ 18) as HP18
    by (revert Ho Hfit; machine; change (2 ^ 18) with 262144; lia).
  rewrite (packing_of_aligned P (conj HP HP18) HP4).
  assert (uint32_t (sizeof_UnitHeader + P) = sizeof_UnitHeader + P) as ->.
  { revert Ho Hfit. machine. intros Ho Hfit. apply Z.mod_small. lia. }
  rewrite validPage_stays;
    [reflexivity|exact Hm|exact Ho|machine; lia|machine; revert Hfit; machine; lia].
Qed.

Lemma blockSize_facts (s : list byte) :
  Z.of_nat (List.length s) < 2 ^ 16 ->
  0 <= blockSize s < 2 ^ 17 /\ blockSize s mod 4 = 0
  /\ Z.of_nat (List.length s) + 3 <= blockSize s /\ 4 <= blockSize s.
Proof.
  intros H. apply block_size_small. lia.
Qed.

Lemma alignedSize_sizeof (T : FixedT) : alignedSize (sizeof T) = sizeof T.
Proof. destruct T; reflexivity. Qed.

Lemma payloadSize_facts (e : Event) :
  encodable e ->
  0 <= payloadSize e < 2 ^ 18 /\ payloadSize e mod 4 = 0.
Proof.
  intros [_ He]. change (2 ^ 18) with 262144.
  destruct e as [id s|T id n|T id s t]; cbn [payloadSize].
  - destruct (blockSize_facts s He) as (H1 & H2 & _).
    change (2 ^ 17) with 131072 in H1. split; [lia|exact H2].
  - rewrite alignedSize_sizeof. destruct T; cbn; split; (lia || reflexivity).
  - destruct (blockSize_facts s He) as (H1 & H2 & _).
    change (2 ^ 17) with 131072 in H1. rewrite alignedSize_sizeof.
    pose proof (sizeof_pos T).
    assert (sizeof T mod 4 = 0) by (destruct T; reflexivity).
    split; [lia|zdiv].
Qed.

(** The stores of an encoder between [writeLock] and [writeUnlock], as a
    function of the payload pointer. *)
Lemma body_frame_S (s : list byte) (P : Z) (p : Z) (h : Heap) (x : Z) :
  Z.of_nat (List.length s) + 3 <= P ->
  x < p \/ p + P <= x ->
  cells (putS p s (Z.of_nat (List.length s)) h) x = cells h x.
Proof.
  intros HP Hx. apply putS_frame; [lia|]. machine. lia.
Qed.

Lemma emit_eq (e : Event) (d : DetectorWriterP) :
  encodable e ->
  let l := writeLock (mLogFM d) (eventId e) (payloadSize e) (mPageWriter d) in
  let u := writeUnlock (payloadStores e (fst (fst l)) (snd l))
             (fst (fst l) + payloadSize e) (snd (fst l)) in
  emit e d = {| mLogFM := snd u; mPageWriter := fst u |}.
Proof.
  intros He. pose proof (payloadSize_facts e He) as [HP _].
  destruct e as [id s|T id n|T id s t]; cbn [emit eventId payloadSize payloadStores].
  - apply writeS_eq.
  - apply writeT_eq.
  - cbn [payloadSize] in HP. change (2 ^ 18) with 262144 in HP.
    pose proof (writeST_eq T id s (Z.of_nat (List.length s)) t d) as E.
    cbv zeta in E. fold (blockSize s) in E.
    assert (uint32_t (blockSize s + alignedSize (sizeof T))
            = blockSize s + alignedSize (sizeof T)) as HU
      by (machine; apply Z.mod_small; lia).
    rewrite HU in E. rewrite E. cbv zeta.
    rewrite <- !Z.add_assoc. reflexivity.
Qed.

Lemma payloadStores_frame (e : Event) (p : Z) (h : Heap) (x : Z) :
  encodable e ->
  x < p \/ p + payloadSize e <= x ->
  cells (payloadStores e p h) x = cells h x.
Proof.
  intros [_ He] Hx.
  destruct e as [id s|T id n|T id s t]; cbn [payloadSize payloadStores] in *.
  - destruct (blockSize_facts s He) as (_ & _ & Hb & _).
    apply body_frame_S with (P := blockSize s); assumption.
  - rewrite alignedSize_sizeof in Hx. apply putT_frame. exact Hx.
  - destruct (blockSize_facts s He) as (Hr & _ & Hb & _).
    rewrite alignedSize_sizeof in Hx. pose proof (sizeof_pos T).
    rewrite putT_frame by lia.
    apply body_frame_S with (P := blockSize s); [exact Hb|lia].
Qed.

Lemma S_block_parse (m : Z -> byte) (p : Z) (s : list byte) :
  Z.of_nat (List.length s) < 2 ^ 16 ->
  S_block_at m p s (Z.of_nat (List.length s)) ->
  snd (dDetector.parseString m p) = p + blockSize s.
Proof.
  intros Hlt (_ & _ & _ & H & _). apply (H Hlt).
Qed.

(** The payload of [e], as long as it is what the encoder stored, is one
    the parse primitives decode. *)
Lemma decodes_payloadStores (e : Event) (m : Z -> byte) (p : Z) (fm2 : Heap) :
  encodable e ->
  (forall x, p <= x -> m x = cells (payloadStores e p fm2) x) ->
  decodes m (callbackOf e p) e.
Proof.
  intros [Hid He] Hm. unfold decodes, callbackOf.
  cbn [cbFuncID cbPayload cbLength].
  split; [reflexivity|]. split; [reflexivity|].
  destruct e as [id s|T id n|T id s t]; cbn [payloadSize payloadStores] in *.
  - assert (S_block_at m p s (Z.of_nat (List.length s))) as HS.
    { apply S_block_intro with (fm := fm2); [reflexivity|].
      intros x Hx. apply Hm. lia. }
    split; [exact HS|]. apply S_block_parse; assumption.
  - rewrite (parseT_reads T m p n); [reflexivity|].
    rewrite <- (putT_reads T p n fm2). apply load_le_ext.
    intros x Hx. apply Hm. lia.
  - destruct (blockSize_facts s He) as (Hr & _ & Hb & _).
    assert (S_block_at m p s (Z.of_nat (List.length s))) as HS.
    { apply S_block_intro
        with (fm := fm2); [reflexivity|].
      intros x Hx. rewrite Hm by lia.
      apply putT_frame. left. revert Hx. machine. lia. }
    split; [exact HS|].
    rewrite (S_block_parse m p s He HS).
    rewrite (parseT_reads T m (p + blockSize s) t); [f_equal; lia|].
    rewrite <- (putT_reads T (p + blockSize s) t
                  (putS p s (Z.of_nat (List.length s)) fm2)).
    apply load_le_ext. intros x Hx. apply Hm. lia.
Qed.

Lemma S_block_ext (m m' : Z -> byte) (p : Z) (s : list byte) :
  (forall x, p <= x <= p + sizeof_uint16_t + Z.of_nat (List.length s) ->
             m' x = m x) ->
  S_block_at m p s (Z.of_nat (List.length s)) ->
  S_block_at m' p s (Z.of_nat (List.length s)).
Proof.
  intros Hm (H1 & H2 & H3 & H4 & H5).
  assert (load_le m' p 2 = load_le m p 2) as E.
  { apply load_le_ext. intros x Hx. apply Hm.
    simpl Z.of_nat in Hx. machine. lia. }
  unfold S_block_at, dDetector.parseString in *. cbn [fst snd] in *.
  rewrite E. split; [exact H1|]. split; [|split; [|split; [exact H4|exact H5]]].
  - rewrite <- H2 at 2. apply load_bytes_ext. intros x Hx. apply Hm.
    revert Hx. machine. lia.
  - rewrite Hm by (machine; lia). exact H3.
Qed.

Lemma parseT_ext (T : FixedT) (m m' : Z -> byte) (p : Z) :
  (forall x, p <= x < p + sizeof T -> m' x = m x) ->
  parseT T m' p = parseT T m p.
Proof.
  intros Hm.
  destruct T; cbn [parseT sizeof] in *;
    unfold dDetector.parseInt32, dDetector.parseInt64;
    f_equal; f_equal; apply load_le_ext; intros x Hx; apply Hm;
    simpl Z.of_nat in Hx; lia.
Qed.

(** A decoded payload stays decoded as long as its bytes stay. *)
Lemma decodes_ext (m m' : Z -> byte) (cb : Callback) (e : Event) :
  encodable e ->
  (forall x, cbPayload cb <= x < cbPayload cb + cbLength cb -> m' x = m x) ->
  decodes m cb e -> decodes m' cb e.
Proof.
  intros [Hid He] Hm (Hf & Hl & Hd). unfold decodes.
  split; [exact Hf|]. split; [exact Hl|]. rewrite Hl in Hm.
  destruct e as [id s|T id n|T id s t]; cbn [payloadSize] in *.
  - destruct (blockSize_facts s He) as (Hr & _ & Hb & _).
    destruct Hd as [HS Hp].
    assert (S_block_at m' (cbPayload cb) s (Z.of_nat (List.length s))) as HS'.
    { apply (S_block_ext m); [|exact HS].
      intros x Hx. apply Hm. revert Hx. machine. lia. }
    split; [exact HS'|].
    rewrite (S_block_parse m' _ s He HS'), <- (S_block_parse m _ s He HS).
    exact Hp.
  - rewrite alignedSize_sizeof in Hm.
    rewrite (parseT_ext T m m'); [exact Hd|exact Hm].
  - destruct (blockSize_facts s He) as (Hr & _ & Hb & _).
    rewrite alignedSize_sizeof in Hm. pose proof (sizeof_pos T).
    destruct Hd as [HS Hp].
    assert (S_block_at m' (cbPayload cb) s (Z.of_nat (List.length s))) as HS'.
    { apply (S_block_ext m); [|exact HS].
      intros x Hx. apply Hm. revert Hx. machine. lia. }
    split; [exact HS'|].
    rewrite (S_block_parse m' _ s He HS').
    rewrite (S_block_parse m _ s He HS) in Hp.
    rewrite (parseT_ext T m m'); [exact Hp|].
    intros x Hx. apply Hm. lia.
Qed.

(** One event written into the room left on the current page. *)
Lemma emit_appends (e : Event) (d : DetectorWriterP) :
  page_open d -> encodable e ->
  mBufferOffset (mPageWriter d) + sizeof_UnitHeader + payloadSize e
  <= LOG_PAGE_SIZE ->
  let w := mPageWriter d in
  let b := buf w in
  let o := mBufferOffset w in
  let P := payloadSize e in
  let d' := emit e d in
  let m' := cells (mLogFM d') in
  mPageWriter d'
  = {| mBuffer := mBuffer w; mBufferOffset := o + sizeof_UnitHeader + P;
       mPageOffset := mPageOffset w; mPageID := mPageID w |}
  /\ page_open d'
  /\ framed m' (b + o) [callbackOf e (b + o + sizeof_UnitHeader)]
       (b + o + sizeof_UnitHeader + P)
  /\ decodes m' (callbackOf e (b + o + sizeof_UnitHeader)) e
  /\ (forall x, x < b \/ b + sizeof_PageHeader <= x ->
                x < b + o \/ b + o + sizeof_UnitHeader + P <= x ->
                m' x = cells (mLogFM d) x).
Proof.
  intros (Hm & Ho & Hal & _) He Hfit w b o P d' m'.
  destruct (payloadSize_facts e He) as [HP HP4]. fold P in HP, HP4.
  pose proof He as [Hid _].
  assert (d' = {| mLogFM :=
                    snd (writeUnlock
                           (payloadStores e (b + o + sizeof_UnitHeader)
                              (memcpy UnitHeaderStore (b + o)
                                 (UnitHeader_bytes
                                    (uint16_t (uint32_t (P + LOG_UNIT_PACKING - 1)
                                               / LOG_UNIT_PACKING)) (eventId e))
                                 (mLogFM d)))
                           (b + o + sizeof_UnitHeader + P) w);
                  mPageWriter :=
                    fst (writeUnlock
                           (payloadStores e (b + o + sizeof_UnitHeader)
                              (memcpy UnitHeaderStore (b + o)
                                 (UnitHeader_bytes
                                    (uint16_t (uint32_t (P + LOG_UNIT_PACKING - 1)
                                               / LOG_UNIT_PACKING)) (eventId e))
                                 (mLogFM d)))
                           (b + o + sizeof_UnitHeader + P) w) |}) as Ed.
  { subst d'. rewrite (emit_eq e d He). cbv zeta.
    rewrite writeLock_stays; try assumption; try lia.
    - reflexivity.
    - revert Ho. machine. lia. }
  change LOG_UNIT_PACKING with 4 in Hal.
  destruct (record_tail w (mLogFM d) (eventId e) P
              (fun p h => payloadStores e p h))
    as (T1 & (T2 & T3 & T4) & (T5 & T6) & T7 & T8).
  { apply Ho. }
  { exact Hal. }
  { exact Hfit. }
  { apply HP. }
  { exact HP4. }
  { exact Hid. }
  { intros x h Hx. apply payloadStores_frame; assumption. }
  fold b o in T1, T2, T3, T4, T5, T6, T7, T8.
  clearbody d'. subst d'. subst m'. cbn [mPageWriter mLogFM].
  split; [exact T1|]. split; [|split; [|split]].
  - unfold page_open. cbn [mPageWriter mLogFM]. rewrite T1.
    cbn [mBufferOffset]. change (buf {| mBuffer := mBuffer w;
                                        mBufferOffset := _;
                                        mPageOffset := _; mPageID := _ |})
      with b.
    split; [exact Hm|].
    split; [pose proof (proj1 HP); unfold o, P, w in *; revert Ho Hfit;
            machine; lia|].
    split; [unfold o, P, w in *; revert Hal HP4; machine; intros; zdiv|].
    split; [exact T2|]. split; [exact T3|exact T4].
  - cbn [framed callbackOf cbFuncID cbPayload cbLength].
    rewrite T5, T6. repeat split; reflexivity.
  - apply decodes_payloadStores with (fm2 :=
      memcpy UnitHeaderStore (b + o)
        (UnitHeader_bytes
           (uint16_t (uint32_t (P + LOG_UNIT_PACKING - 1) / LOG_UNIT_PACKING))
           (eventId e)) (mLogFM d)); [exact He|exact T8].
  - exact T7.
Qed.

(** ** A batch of events on one page *)

Lemma totalSize_nonneg (evs : list Event) :
  Forall encodable evs -> 0 <= totalSize evs.
Proof.
  induction 1 as [|e evs He _ IH]; cbn [totalSize]; [lia|].
  destruct (payloadSize_facts e He) as [HP _]. machine. lia.
Qed.

Lemma emitAll_appends (evs : list Event) :
  forall d,
    page_open d -> Forall encodable evs ->
    mBufferOffset (mPageWriter d) + totalSize evs <= LOG_PAGE_SIZE ->
    let w := mPageWriter d in
    let a := buf w + mBufferOffset w in
    let d' := emitAll evs d in
    let m' := cells (mLogFM d') in
    mPageWriter d'
    = {| mBuffer := mBuffer w;
         mBufferOffset := mBufferOffset w + totalSize evs;
         mPageOffset := mPageOffset w; mPageID := mPageID w |}
    /\ page_open d'
    /\ framed m' a (callbacksFrom a evs) (a + totalSize evs)
    /\ Forall2 (decodes m') (callbacksFrom a evs) evs
    /\ (forall x, x < buf w \/ buf w + sizeof_PageHeader <= x ->
                  x < a \/ a + totalSize evs <= x ->
                  m' x = cells (mLogFM d) x).
Proof.
  induction evs as [|e evs IH]; intros d Hopen Henc Hfit; cbv zeta;
    set (w := mPageWriter d) in *;
    set (a := buf w + mBufferOffset w);
    set (d' := emitAll _ d); set (m' := cells (mLogFM d')).
  - cbn [emitAll fold_left totalSize callbacksFrom framed] in *.
    subst d' m' a w. rewrite !Z.add_0_r.
    split; [destruct (mPageWriter d); reflexivity|].
    split; [exact Hopen|]. split; [reflexivity|].
    split; [constructor|]. intros x _ _. reflexivity.
  - apply Forall_cons_iff in Henc. destruct Henc as [He Henc].
    pose proof (totalSize_nonneg evs Henc) as Hnn.
    destruct (payloadSize_facts e He) as [HP _].
    cbn [totalSize] in Hfit.
    destruct (emit_appends e d Hopen He) as (E1 & Hopen1 & F1 & D1 & Fr1);
      [fold w; lia|].
    cbv zeta in E1, F1, D1, Fr1. fold w in E1, F1, D1, Fr1.
    set (d1 := emit e d) in *.
    assert (buf (mPageWriter d1) = buf w) as Eb by (rewrite E1; reflexivity).
    assert (mBufferOffset (mPageWriter d1)
            = mBufferOffset w + sizeof_UnitHeader + payloadSize e) as Eo
      by (rewrite E1; reflexivity).
    destruct (IH d1 Hopen1 Henc) as (E2 & Hopen2 & F2 & D2 & Fr2);
      [rewrite Eo; lia|].
    cbv zeta in E2, Hopen2, F2, D2, Fr2.
    rewrite Eb, Eo in F2, D2, Fr2.
    change (emitAll evs d1) with d' in E2, Hopen2, F2, D2, Fr2.
    fold m' in F2, D2, Fr2.
    destruct Hopen as (_ & Ho & _).
    assert (forall x, a <= x < a + sizeof_UnitHeader + payloadSize e ->
                      m' x = cells (mLogFM d1) x) as Hkeep.
    { intros x Hx. apply Fr2.
      - right. subst a. revert Ho Hx. fold w. machine. lia.
      - left. subst a. lia. }
    cbn [totalSize callbacksFrom].
    split; [|split; [exact Hopen2|split; [|split]]].
    + rewrite E2, E1. cbn [mBuffer mBufferOffset mPageOffset mPageID].
      f_equal. lia.
    + replace (a + (sizeof_UnitHeader + payloadSize e + totalSize evs))
        with (buf w + (mBufferOffset w + sizeof_UnitHeader + payloadSize e)
              + totalSize evs) by (subst a; lia).
      replace (a + sizeof_UnitHeader + payloadSize e)
        with (buf w + (mBufferOffset w + sizeof_UnitHeader + payloadSize e))
        by (subst a; lia).
      apply (framed_app m' [callbackOf e (a + sizeof_UnitHeader)] _ a
               (buf w + (mBufferOffset w + sizeof_UnitHeader + payloadSize e)));
        [|exact F2].
      apply (framed_ext (cells (mLogFM d1))).
      * intros x Hx. apply Hkeep. subst a. lia.
      * replace (buf w + (mBufferOffset w + sizeof_UnitHeader + payloadSize e))
          with (a + sizeof_UnitHeader + payloadSize e) by (subst a; lia).
        exact F1.
    + constructor.
      * apply (decodes_ext (cells (mLogFM d1))); [exact He| |exact D1].
        intros x Hx. apply Hkeep.
        cbn [callbackOf cbPayload cbLength] in Hx. revert Hx. machine. lia.
      * replace (a + sizeof_UnitHeader + payloadSize e)
          with (buf w + (mBufferOffset w + sizeof_UnitHeader + payloadSize e))
          by (subst a; lia).
        exact D2.
    + change (2 ^ 18) with 262144 in HP.
      intros x Hx1 Hx2. rewrite Fr2; [apply Fr1|exact Hx1|]; try assumption.
      * subst a. revert Hx2. machine. lia.
      * subst a. revert Hx2. machine. lia.
Qed.

(** ** The reader over records that lie back to back *)

Import Scenario.

Lemma setBufferOffset_same (r : LogPageReaderP) :
  setBufferOffset (mBufferOffset r) r = r.
Proof. destruct r as [[b o po id] busy size]. reflexivity. Qed.

Lemma readMany_framed (m : Z -> byte) (cbs : list Callback) :
  forall r : LogPageReaderP,
    framed m (buf r + mBufferOffset r) cbs (buf r + mPageSize r) ->
    0 <= mBufferOffset r -> mPageSize r < 2 ^ 32 ->
    readMany m (List.length cbs) {| isValid := true; mPageReader := r |}
    = (map (fun cb => (Readed, Some cb)) cbs,
       {| isValid := true;
          mPageReader := setBufferOffset (mPageSize r) r |}).
Proof.
  induction cbs as [|cb cbs IH]; intros r Hfr Ho Hsz.
  - cbn [framed] in Hfr. assert (mPageSize r = mBufferOffset r) as -> by lia.
    rewrite setBufferOffset_same. reflexivity.
  - cbn [framed] in Hfr. destruct Hfr as (Hf & Hp & Hl & Hrest).
    pose proof (framed_le _ _ _ _ Hrest) as Hle.
    pose proof (load_le_nonneg m 2 (buf r + mBufferOffset r)) as Hnn.
    assert (mBufferOffset r <> mPageSize r) as Hne
      by (revert Hl Hle; machine; lia).
    cbn [List.length readMany map].
    unfold dDetector.readOnce, DetectorReaderP.readOnce.
    cbn [isValid mPageReader].
    rewrite (readOnce_unit m r Hne). unfold LogPageReaderP.readUnit.
    rewrite <- Hf, <- Hl, <- Hp.
    set (r1 := {| super := _; mPageBusy := mPageBusy r;
                  mPageSize := mPageSize r |}).
    assert (mBufferOffset r1
            = mBufferOffset r + sizeof_UnitHeader + cbLength cb) as Eo.
    { subst r1. cbn [mBufferOffset super].
      revert Hl Hle Ho Hsz. machine. intros Hl Hle Ho Hsz.
      rewrite Z.mod_small; lia. }
    assert (buf r1 = buf r) as Eb by reflexivity.
    rewrite (IH r1).
    + destruct cb as [f p l]. reflexivity.
    + rewrite Eb, Eo.
      replace (buf r + (mBufferOffset r + sizeof_UnitHeader + cbLength cb))
        with (buf r + mBufferOffset r + sizeof_UnitHeader + cbLength cb) by lia.
      exact Hrest.
    + rewrite Eo. revert Hl. machine. lia.
    + exact Hsz.
Qed.

(** A busy reader that has consumed all it knew of samples the header
    again: with activity ['+'] and a watermark beyond its cursor it goes on
    as a reader that knows the new watermark. *)
Lemma readOnce_resample (m : Z -> byte) (r : LogPageReaderP) (size : Z) :
  mBufferOffset r = mPageSize r -> mPageBusy r = true ->
  m (buf r + 1) = "+"%byte ->
  sizeof_PageHeader + LOG_UNIT_PACKING * load_le m (buf r + 2) 2 = size ->
  size < 2 ^ 32 -> size <> mBufferOffset r ->
  LogPageReaderP.readOnce m r
  = LogPageReaderP.readOnce m
      {| super := super r; mPageBusy := true; mPageSize := size |}.
Proof.
  intros Hend Hbusy Hact Hsize Hlt Hne.
  pose proof (load_le_nonneg m 2 (buf r + 2)) as Hnn.
  set (r1 := {| super := super r; mPageBusy := true; mPageSize := size |}).
  rewrite (readOnce_unit m r1) by (subst r1; cbn; lia).
  unfold LogPageReaderP.readOnce.
  rewrite Hend, Z.eqb_refl, Hbusy, Hact.
  assert (uint32_t (sizeof_PageHeader
                    + LOG_UNIT_PACKING * load_le m (buf r + 2) 2) = size) as ->.
  { rewrite Hsize. revert Hsize Hlt. machine. intros. apply Z.mod_small. lia. }
  change (("+" =? "/")%byte) with false.
  change (("+" =? "+")%byte) with true.
  cbn [mBufferOffset mPageSize super].
  destruct (Z.eqb_spec (mBufferOffset r) size) as [E|_]; [congruence|].
  reflexivity.
Qed.

(** The same reader while there is nothing new: [Unreaded], no callback,
    and the reader as it was. *)
Lemma readOnce_nothing_new (m : Z -> byte) (r : LogPageReaderP) :
  mBufferOffset r = mPageSize r -> mPageBusy r = true ->
  m (buf r + 1) = "+"%byte ->
  sizeof_PageHeader + LOG_UNIT_PACKING * load_le m (buf r + 2) 2
  = mBufferOffset r ->
  mBufferOffset r < 2 ^ 32 ->
  LogPageReaderP.readOnce m r = (Unreaded, None, r).
Proof.
  intros Hend Hbusy Hact Hsize Hlt.
  pose proof (load_le_nonneg m 2 (buf r + 2)) as Hnn.
  unfold LogPageReaderP.readOnce.
  rewrite Hend, Z.eqb_refl, Hbusy, Hact.
  assert (uint32_t (sizeof_PageHeader
                    + LOG_UNIT_PACKING * load_le m (buf r + 2) 2)
          = mPageSize r) as ->.
  { rewrite Hsize, <- Hend. revert Hsize Hlt. machine. intros.
    apply Z.mod_small. lia. }
  change (("+" =? "/")%byte) with false.
  change (("+" =? "+")%byte) with true.
  cbn [mBufferOffset mPageSize super]. rewrite Hend, Z.eqb_refl.
  cbn [ReadResult_eqb negb]. rewrite <- Hbusy.
  destruct r as [[b o po id] busy sz]. reflexivity.
Qed.

Lemma length_callbacksFrom (evs : list Event) :
  forall a, List.length (callbacksFrom a evs) = List.length evs.
Proof.
  induction evs as [|e evs IH]; intros a; cbn [callbacksFrom List.length];
    [reflexivity|]. rewrite IH. reflexivity.
Qed.

Lemma readMany_first (m : Z -> byte) (n : nat) (r r1 : LogPageReaderP) :
  LogPageReaderP.readOnce m r = LogPageReaderP.readOnce m r1 ->
  readMany m (S n) {| isValid := true; mPageReader := r |}
  = readMany m (S n) {| isValid := true; mPageReader := r1 |}.
Proof.
  intros H. cbn [readMany].
  unfold dDetector.readOnce, DetectorReaderP.readOnce.
  cbn [isValid mPageReader]. rewrite H. reflexivity.
Qed.

(** ** A record that takes a new page *)

Lemma nextPageOffset_range (w : LogPageP) :
  0 <= mPageOffset w < LOG_PAGE_COUNT ->
  0 <= nextPageOffset w < LOG_PAGE_COUNT.
Proof.
  intros H. unfold nextPageOffset. destruct (mapped w); [|exact H].
  machine. zdiv.
Qed.

Lemma validPage_takes_page (fm : Heap) (space : Z) (w : LogPageP) :
  0 <= mPageOffset w < LOG_PAGE_COUNT ->
  (mapped w = true -> LOG_PAGE_SIZE < uint32_t (mBufferOffset w + space)) ->
  let w1 := {| mBuffer := Some (LOG_PAGE_SIZE * nextPageOffset w);
               mBufferOffset := sizeof_PageHeader;
               mPageOffset := nextPageOffset w;
               mPageID := if mapped w then 0 else mPageID w |} in
  validPage fm space w
  = (w1, memcpy PageHeaderStore (LOG_PAGE_SIZE * nextPageOffset w)
           (PageHeader_bytes "#" "+" 65535 (mPageID w1)) (retired w fm)).
Proof.
  intros Hpo Hg. pose proof (nextPageOffset_range w Hpo) as Hn.
  unfold validPage, retired, nextPageOffset in *.
  destruct (mapped w) eqn:Hm.
  - specialize (Hg eq_refl). apply Z.ltb_lt in Hg. rewrite Hg.
    cbn [negb orb]. unfold rewriteHeader.
    cbn [mBuffer mBufferOffset mPageOffset mPageID buf snd].
    assert (uint32_t (mPageOffset w + 1) mod LOG_PAGE_COUNT
            = (mPageOffset w + 1) mod LOG_PAGE_COUNT) as ->.
    { revert Hpo. machine. intros Hpo. rewrite (Z.mod_small (_ + 1)) by lia.
      reflexivity. }
    assert (uint32_t (LOG_PAGE_SIZE * ((mPageOffset w + 1) mod LOG_PAGE_COUNT))
            = LOG_PAGE_SIZE * ((mPageOffset w + 1) mod LOG_PAGE_COUNT)) as ->.
    { revert Hn. machine. intros Hn. apply Z.mod_small. lia. }
    reflexivity.
  - cbn [negb orb]. unfold rewriteHeader.
    cbn [mBuffer mBufferOffset mPageOffset mPageID buf snd].
    assert (uint32_t (LOG_PAGE_SIZE * mPageOffset w)
            = LOG_PAGE_SIZE * mPageOffset w) as ->.
    { revert Hpo. machine. intros Hpo. apply Z.mod_small. lia. }
    reflexivity.
Qed.

Lemma emit_on_new_page (e : Event) (d : DetectorWriterP) :
  encodable e ->
  let w := mPageWriter d in
  let o := mBufferOffset w in
  let P := payloadSize e in
  let nb := LOG_PAGE_SIZE * nextPageOffset w in
  0 <= mPageOffset w < LOG_PAGE_COUNT ->
  (mapped w = true ->
   0 <= o <= LOG_PAGE_SIZE /\ LOG_PAGE_SIZE < o + sizeof_UnitHeader + P) ->
  sizeof_PageHeader + sizeof_UnitHeader + P <= LOG_PAGE_SIZE ->
  let d' := emit e d in
  let m' := cells (mLogFM d') in
  (mBuffer (mPageWriter d') = Some nb
   /\ mBufferOffset (mPageWriter d')
      = sizeof_PageHeader + sizeof_UnitHeader + P
   /\ mPageOffset (mPageWriter d') = nextPageOffset w)
  /\ page_open d'
  /\ framed m' (nb + sizeof_PageHeader)
       [callbackOf e (nb + sizeof_PageHeader + sizeof_UnitHeader)]
       (nb + sizeof_PageHeader + sizeof_UnitHeader + P)
  /\ decodes m' (callbackOf e (nb + sizeof_PageHeader + sizeof_UnitHeader)) e
  /\ (forall x, x < nb \/ nb + sizeof_PageHeader + sizeof_UnitHeader + P <= x ->
                m' x = cells (retired w (mLogFM d)) x).
Proof.
  intros He w o P nb Hpo Hg Hfit d' m'.
  destruct (payloadSize_facts e He) as [HP HP4]. fold P in HP, HP4.
  pose proof He as [Hid _].
  pose proof (nextPageOffset_range w Hpo) as Hn.
  set (w1 := {| mBuffer := Some nb; mBufferOffset := sizeof_PageHeader;
                mPageOffset := nextPageOffset w;
                mPageID := if mapped w then 0 else mPageID w |}).
  set (fm1 := memcpy PageHeaderStore nb
                (PageHeader_bytes "#" "+" 65535 (mPageID w1))
                (retired w (mLogFM d))).
  set (c := uint16_t (uint32_t (P + LOG_UNIT_PACKING - 1) / LOG_UNIT_PACKING)).
  assert (writeLock (mLogFM d) (eventId e) P w
          = (nb + sizeof_PageHeader + sizeof_UnitHeader, w1,
             memcpy UnitHeaderStore (nb + sizeof_PageHeader)
               (UnitHeader_bytes c (eventId e)) fm1)) as El.
  { unfold writeLock. rewrite (packing_of_aligned P HP HP4).
    assert (uint32_t (sizeof_UnitHeader + P) = sizeof_UnitHeader + P) as ->.
    { revert HP. machine. change (2 ^ 18) with 262144. intros HP.
      apply Z.mod_small. lia. }
    rewrite validPage_takes_page; [reflexivity|exact Hpo|].
    intros Hm. destruct (Hg Hm) as [Ho Hov]. fold w o.
    revert HP Ho Hov. machine. change (2 ^ 18) with 262144.
    intros HP Ho Hov. rewrite Z.mod_small by lia. lia. }
  assert (d' = {| mLogFM :=
                    snd (writeUnlock
                           (payloadStores e
                              (nb + sizeof_PageHeader + sizeof_UnitHeader)
                              (memcpy UnitHeaderStore (nb + sizeof_PageHeader)
                                 (UnitHeader_bytes c (eventId e)) fm1))
                           (nb + sizeof_PageHeader + sizeof_UnitHeader + P) w1);
                  mPageWriter :=
                    fst (writeUnlock
                           (payloadStores e
                              (nb + sizeof_PageHeader + sizeof_UnitHeader)
                              (memcpy UnitHeaderStore (nb + sizeof_PageHeader)
                                 (UnitHeader_bytes c (eventId e)) fm1))
                           (nb + sizeof_PageHeader + sizeof_UnitHeader + P) w1) |})
    as Ed.
  { subst d'. rewrite (emit_eq e d He). cbv zeta. fold w P. rewrite El.
    reflexivity. }
  destruct (record_tail w1 fm1 (eventId e) P
              (fun p h => payloadStores e p h))
    as (T1 & (T2 & T3 & T4) & (T5 & T6) & T7 & T8).
  { apply Z.le_refl. }
  { reflexivity. }
  { exact Hfit. }
  { apply HP. }
  { exact HP4. }
  { exact Hid. }
  { intros x h Hx. apply payloadStores_frame; assumption. }
  change (buf w1) with nb in T1, T2, T3, T4, T5, T6, T7, T8.
  change (mBufferOffset w1) with sizeof_PageHeader
    in T1, T2, T3, T4, T5, T6, T7, T8.
  fold c in T1, T2, T3, T4, T5, T6, T7, T8.
  clearbody d'. subst d'. subst m'. cbn [mPageWriter mLogFM].
  split; [rewrite T1; repeat split; reflexivity|].
  split; [|split; [|split; [|]]].
  - unfold page_open. cbn [mPageWriter mLogFM]. rewrite T1.
    cbn [mBufferOffset]. change (buf {| mBuffer := mBuffer w1;
                                        mBufferOffset := _;
                                        mPageOffset := _; mPageID := _ |})
      with nb.
    split; [reflexivity|].
    split; [pose proof (proj1 HP); revert Hfit; machine; lia|].
    split; [revert HP4; machine; intros; zdiv|].
    split; [exact T2|]. split; [exact T3|exact T4].
  - cbn [framed callbackOf cbFuncID cbPayload cbLength].
    rewrite T5, T6. repeat split; reflexivity.
  - apply decodes_payloadStores with (fm2 :=
      memcpy UnitHeaderStore (nb + sizeof_PageHeader)
        (UnitHeader_bytes c (eventId e)) fm1); [exact He|exact T8].
  - intros x Hx. rewrite T7.
    + subst fm1. apply memcpy_cells_out. rewrite length_PageHeader_bytes.
      revert Hx. pose proof (proj1 HP). machine. lia.
    + revert Hx. pose proof (proj1 HP). machine. lia.
    + revert Hx. pose proof (proj1 HP). machine. lia.
Qed.

Lemma emitAll_on_new_page (e : Event) (evs : list Event) (d : DetectorWriterP) :
  Forall encodable (e :: evs) ->
  let w := mPageWriter d in
  let nb := LOG_PAGE_SIZE * nextPageOffset w in
  let a := nb + sizeof_PageHeader in
  0 <= mPageOffset w < LOG_PAGE_COUNT ->
  (mapped w = true ->
   0 <= mBufferOffset w <= LOG_PAGE_SIZE
   /\ LOG_PAGE_SIZE < mBufferOffset w + sizeof_UnitHeader + payloadSize e) ->
  sizeof_PageHeader + totalSize (e :: evs) <= LOG_PAGE_SIZE ->
  let d' := emitAll (e :: evs) d in
  let m' := cells (mLogFM d') in
  (mBuffer (mPageWriter d') = Some nb
   /\ mBufferOffset (mPageWriter d') = sizeof_PageHeader + totalSize (e :: evs)
   /\ mPageOffset (mPageWriter d') = nextPageOffset w)
  /\ page_open d'
  /\ framed m' a (callbacksFrom a (e :: evs)) (a + totalSize (e :: evs))
  /\ Forall2 (decodes m') (callbacksFrom a (e :: evs)) (e :: evs)
  /\ (forall x, x < nb \/ a + totalSize (e :: evs) <= x ->
                m' x = cells (retired w (mLogFM d)) x).
Proof.
  intros Henc w nb a Hpo Hg Hfit d' m'.
  apply Forall_cons_iff in Henc. destruct Henc as [He Henc].
  pose proof (totalSize_nonneg evs Henc) as Hnn.
  destruct (payloadSize_facts e He) as [HP _].
  change (2 ^ 18) with 262144 in HP.
  cbn [totalSize] in Hfit.
  destruct (emit_on_new_page e d He Hpo Hg)
    as ((B1 & O1 & Q1) & Hopen1 & F1 & D1 & Fr1);
    [revert Hfit; machine; lia|].
  fold w nb a in B1, O1, Q1, F1, D1, Fr1.
  set (d1 := emit e d) in *.
  assert (buf (mPageWriter d1) = nb) as Eb by (unfold buf; rewrite B1; reflexivity).
  destruct (emitAll_appends evs d1 Hopen1 Henc) as (E2 & Hopen2 & F2 & D2 & Fr2);
    [rewrite O1; revert Hfit; machine; lia|].
  cbv zeta in E2, Hopen2, F2, D2, Fr2.
  rewrite Eb, O1 in F2, D2, Fr2.
  change (emitAll evs d1) with d' in E2, Hopen2, F2, D2, Fr2.
  fold m' in F2, D2, Fr2.
  replace (nb + (sizeof_PageHeader + sizeof_UnitHeader + payloadSize e))
    with (a + sizeof_UnitHeader + payloadSize e) in F2, D2, Fr2
    by (subst a; lia).
  assert (forall x, a <= x < a + sizeof_UnitHeader + payloadSize e ->
                    m' x = cells (mLogFM d1) x) as Hkeep.
  { intros x Hx. apply Fr2.
    - right. subst a. lia.
    - left. lia. }
  cbn [totalSize callbacksFrom].
  split; [|split; [exact Hopen2|split; [|split]]].
  - rewrite E2. cbn [mBuffer mBufferOffset mPageOffset].
    split; [exact B1|]. split; [rewrite O1; lia|exact Q1].
  - replace (a + (sizeof_UnitHeader + payloadSize e + totalSize evs))
      with (a + sizeof_UnitHeader + payloadSize e + totalSize evs) by lia.
    apply (framed_app m' [callbackOf e (a + sizeof_UnitHeader)] _ a
             (a + sizeof_UnitHeader + payloadSize e)); [|exact F2].
    apply (framed_ext (cells (mLogFM d1))); [exact Hkeep|exact F1].
  - constructor; [|exact D2].
    apply (decodes_ext (cells (mLogFM d1))); [exact He| |exact D1].
    intros x Hx. apply Hkeep.
    cbn [callbackOf cbPayload cbLength] in Hx. revert Hx. machine. lia.
  - intros x Hx. rewrite Fr2.
    + apply Fr1. subst a. revert Hx. machine. lia.
    + subst a. revert Hx. machine. lia.
    + subst a. revert Hx. machine. lia.
Qed.

(** ** The reader between pages *)

Lemma load_le_2_bound (m : Z -> byte) (a : Z) : 0 <= load_le m a 2 < 2 ^ 16.
Proof.
  cbn [load_le]. pose proof (Z_of_byte_range (m a)).
  pose proof (Z_of_byte_range (m (a + 1))). change (2 ^ 16) with 65536. lia.
Qed.

Lemma byte_eqb_neq (a b : byte) : a <> b -> Byte.eqb a b = false.
Proof.
  intros H. destruct (Byte.eqb a b) eqn:E; [|reflexivity].
  apply Byte.byte_dec_bl in E. contradiction.
Qed.

Lemma setPageOffset_back (v : Z) (r : LogPageReaderP) :
  LogPageReaderP.setPageOffset (mPageOffset r) (LogPageReaderP.setPageOffset v r)
  = r.
Proof. destruct r as [[b o po id] busy size]. reflexivity. Qed.

Lemma loadPage_adopts (m : Z -> byte) (r : LogPageReaderP) :
  0 <= mPageOffset r < LOG_PAGE_COUNT ->
  m (LOG_PAGE_SIZE * mPageOffset r) = "#"%byte ->
  LogPageReaderP.loadPage m r
  = ((if Byte.eqb (m (LOG_PAGE_SIZE * mPageOffset r + 1)) "/"
      then ExitProgram else Readed),
     adopted m (mPageOffset r)).
Proof.
  intros Hpo Hc. unfold LogPageReaderP.loadPage, adopted.
  assert (LOG_VIEW_OPEN (uint32_t (LOG_PAGE_SIZE * mPageOffset r))
          = LOG_PAGE_SIZE * mPageOffset r) as ->.
  { revert Hpo. machine. intros Hpo. apply Z.mod_small. lia. }
  rewrite Hc. change (("#" =? "#")%byte) with true. cbv iota.
  pose proof (load_le_2_bound m (LOG_PAGE_SIZE * mPageOffset r + 2)) as Hb.
  assert (uint32_t (sizeof_PageHeader
                    + LOG_UNIT_PACKING
                      * load_le m (LOG_PAGE_SIZE * mPageOffset r + 2) 2)
          = sizeof_PageHeader
            + LOG_UNIT_PACKING
              * load_le m (LOG_PAGE_SIZE * mPageOffset r + 2) 2) as ->.
  { revert Hb. machine. intros Hb. apply Z.mod_small. lia. }
  reflexivity.
Qed.

Lemma loadPage_unbegun (m : Z -> byte) (r : LogPageReaderP) :
  0 <= mPageOffset r < LOG_PAGE_COUNT ->
  m (LOG_PAGE_SIZE * mPageOffset r) <> "#"%byte ->
  LogPageReaderP.loadPage m r = (Unreaded, r).
Proof.
  intros Hpo Hc. unfold LogPageReaderP.loadPage.
  assert (LOG_VIEW_OPEN (uint32_t (LOG_PAGE_SIZE * mPageOffset r))
          = LOG_PAGE_SIZE * mPageOffset r) as ->.
  { revert Hpo. machine. intros Hpo. apply Z.mod_small. lia. }
  rewrite (byte_eqb_neq _ _ Hc). reflexivity.
Qed.

Lemma next_page_offset (po : Z) :
  0 <= po < LOG_PAGE_COUNT ->
  uint32_t (po + 1) mod LOG_PAGE_COUNT = (po + 1) mod LOG_PAGE_COUNT
  /\ 0 <= (po + 1) mod LOG_PAGE_COUNT < LOG_PAGE_COUNT.
Proof.
  machine. intros H. rewrite (Z.mod_small (po + 1)) by lia. split; [reflexivity|zdiv].
Qed.

Lemma readOnce_next_page (m : Z -> byte) (r : LogPageReaderP) :
  mBufferOffset r = mPageSize r -> mPageBusy r = false ->
  0 <= mPageOffset r < LOG_PAGE_COUNT ->
  let n := (mPageOffset r + 1) mod LOG_PAGE_COUNT in
  m (LOG_PAGE_SIZE * n) = "#"%byte ->
  m (LOG_PAGE_SIZE * n + 1) <> "/"%byte ->
  LogPageReaderP.readOnce m r = LogPageReaderP.readUnit m (adopted m n).
Proof.
  intros Hend Hbusy Hpo n Hc Ha.
  destruct (next_page_offset _ Hpo) as [En Hn]. fold n in En, Hn.
  unfold LogPageReaderP.readOnce.
  rewrite Hend, Z.eqb_refl, Hbusy. rewrite En.
  rewrite loadPage_adopts; [|exact Hn|exact Hc].
  change (mPageOffset (LogPageReaderP.setPageOffset n r)) with n.
  rewrite (byte_eqb_neq _ _ Ha). reflexivity.
Qed.

Lemma readOnce_unbegun (m : Z -> byte) (r : LogPageReaderP) :
  mBufferOffset r = mPageSize r -> mPageBusy r = false ->
  0 <= mPageOffset r < LOG_PAGE_COUNT ->
  m (LOG_PAGE_SIZE * ((mPageOffset r + 1) mod LOG_PAGE_COUNT)) <> "#"%byte ->
  LogPageReaderP.readOnce m r = (Unreaded, None, r).
Proof.
  intros Hend Hbusy Hpo Hc.
  destruct (next_page_offset _ Hpo) as [En Hn].
  unfold LogPageReaderP.readOnce.
  rewrite Hend, Z.eqb_refl, Hbusy. rewrite En.
  rewrite loadPage_unbegun; [|exact Hn|exact Hc].
  cbn [ReadResult_eqb negb]. rewrite setPageOffset_back. reflexivity.
Qed.

(** The header of a page whose cursor is a multiple of 4 within the page
    gives the cursor back as the size of the page. *)
Lemma rewriteHeader_size (actcode : byte) (w : LogPageP) (fm : Heap) :
  sizeof_PageHeader <= mBufferOffset w <= LOG_PAGE_SIZE ->
  mBufferOffset w mod LOG_UNIT_PACKING = 0 ->
  let m := cells (snd (rewriteHeader actcode (mBufferOffset w) w fm)) in
  m (buf w) = "#"%byte /\ m (buf w + 1) = actcode
  /\ sizeof_PageHeader + LOG_UNIT_PACKING * load_le m (buf w + 2) 2
     = mBufferOffset w.
Proof.
  intros Ho Hal m.
  destruct (rewriteHeader_reads actcode (mBufferOffset w) w fm)
    as (H1 & H2 & H3 & _).
  fold m in H1, H2, H3. split; [exact H1|]. split; [exact H2|].
  rewrite H3. revert Ho Hal. machine. intros Ho Hal.
  rewrite (Z.mod_small (mBufferOffset w - 8)) by lia.
  rewrite Z.mod_small by zdiv. zdiv.
Qed.

Lemma readOnce_retired (m : Z -> byte) (r : LogPageReaderP) :
  mBufferOffset r = mPageSize r -> mPageBusy r = true ->
  m (buf r + 1) = "-"%byte ->
  sizeof_PageHeader + LOG_UNIT_PACKING * load_le m (buf r + 2) 2
  = mBufferOffset r ->
  LogPageReaderP.readOnce m r = (Unreaded, None, retiredAt (mBufferOffset r) r).
Proof.
  intros Hend Hbusy Hact Hsize.
  pose proof (load_le_2_bound m (buf r + 2)) as Hb.
  unfold LogPageReaderP.readOnce, retiredAt.
  rewrite <- Hend at 1. rewrite Z.eqb_refl, Hbusy, Hact.
  assert (uint32_t (sizeof_PageHeader
                    + LOG_UNIT_PACKING * load_le m (buf r + 2) 2)
          = mBufferOffset r) as ->.
  { rewrite Hsize. revert Hsize Hb. machine. intros. apply Z.mod_small. lia. }
  change (("-" =? "/")%byte) with false.
  change (("-" =? "+")%byte) with true || idtac.
  cbn [mBufferOffset mPageSize super]. rewrite Z.eqb_refl. reflexivity.
Qed.

Lemma readOnce_exit (m : Z -> byte) (r : LogPageReaderP) :
  mBufferOffset r = mPageSize r -> mPageBusy r = true ->
  m (buf r + 1) = "/"%byte ->
  LogPageReaderP.readOnce m r
  = (ExitProgram, None,
     retiredAt (sizeof_PageHeader
                + LOG_UNIT_PACKING * load_le m (buf r + 2) 2) r).
Proof.
  intros Hend Hbusy Hact.
  pose proof (load_le_2_bound m (buf r + 2)) as Hb.
  unfold LogPageReaderP.readOnce, retiredAt.
  rewrite Hend, Z.eqb_refl, Hbusy, Hact.
  assert (uint32_t (sizeof_PageHeader
                    + LOG_UNIT_PACKING * load_le m (buf r + 2) 2)
          = sizeof_PageHeader
            + LOG_UNIT_PACKING * load_le m (buf r + 2) 2) as ->.
  { revert Hb. machine. intros. apply Z.mod_small. lia. }
  reflexivity.
Qed.

(** The reader that has just adopted a page with records reads them all. *)
Lemma readMany_adopted (m : Z -> byte) (cbs : list Callback) (n size : Z) :
  sizeof_PageHeader + LOG_UNIT_PACKING * load_le m (LOG_PAGE_SIZE * n + 2) 2
  = size ->
  framed m (LOG_PAGE_SIZE * n + sizeof_PageHeader) cbs (LOG_PAGE_SIZE * n + size) ->
  readMany m (List.length cbs) {| isValid := true; mPageReader := adopted m n |}
  = (map (fun cb => (Readed, Some cb)) cbs,
     {| isValid := true;
        mPageReader := setBufferOffset size (adopted m n) |}).
Proof.
  intros Hsize Hfr.
  pose proof (load_le_2_bound m (LOG_PAGE_SIZE * n + 2)) as Hb.
  rewrite (readMany_framed m cbs (adopted m n)).
  - change (mPageSize (adopted m n))
      with (sizeof_PageHeader
            + LOG_UNIT_PACKING * load_le m (LOG_PAGE_SIZE * n + 2) 2).
    rewrite Hsize. reflexivity.
  - unfold adopted. cbn [buf mBuffer mBufferOffset mPageSize super].
    rewrite Hsize. exact Hfr.
  - unfold adopted. cbn [mBufferOffset super]. machine. lia.
  - unfold adopted. cbn [mPageSize]. revert Hb. machine. lia.
Qed.

Lemma adopted_drains (cbs : list Callback) (d : DetectorWriterP) (n : Z) :
  page_open d ->
  mBuffer (mPageWriter d) = Some (LOG_PAGE_SIZE * n) ->
  let m := cells (mLogFM d) in
  let off := mBufferOffset (mPageWriter d) in
  framed m (LOG_PAGE_SIZE * n + sizeof_PageHeader) cbs (LOG_PAGE_SIZE * n + off) ->
  let r' := setBufferOffset off (adopted m n) in
  readMany m (List.length cbs) {| isValid := true; mPageReader := adopted m n |}
  = (map (fun cb => (Readed, Some cb)) cbs,
     {| isValid := true; mPageReader := r' |})
  /\ caught_up d r'
  /\ LogPageReaderP.readOnce m r' = (Unreaded, None, r').
Proof.
  intros (Hm & Ho & Hal & Hc & Ha & Hw) Hb m off Hfr r'.
  assert (buf (mPageWriter d) = LOG_PAGE_SIZE * n) as Eb
    by (unfold buf; rewrite Hb; reflexivity).
  rewrite Eb in Hc, Ha, Hw. fold m in Hc, Ha, Hw. fold off in Ho, Hal, Hw.
  assert (mPageBusy r' = true) as Hbusy.
  { subst r'. unfold setBufferOffset, adopted. cbn [mPageBusy]. rewrite Ha.
    reflexivity. }
  assert (mPageSize r' = off) as Hsz.
  { subst r'. unfold setBufferOffset, adopted. cbn [mPageSize]. exact Hw. }
  split; [|split].
  - apply readMany_adopted; [exact Hw|exact Hfr].
  - unfold caught_up. fold off. rewrite Hb, Hsz, Hbusy.
    repeat split; reflexivity.
  - apply readOnce_nothing_new.
    + rewrite Hsz. reflexivity.
    + exact Hbusy.
    + exact Ha.
    + exact Hw.
    + change (mBufferOffset r') with off. revert Ho. machine. lia.
Qed.

Lemma decodes_batch_ext (m m' : Z -> byte) (evs : list Event) :
  forall a,
    (forall x, a <= x -> m' x = m x) ->
    Forall encodable evs ->
    Forall2 (decodes m) (callbacksFrom a evs) evs ->
    Forall2 (decodes m') (callbacksFrom a evs) evs.
Proof.
  induction evs as [|e evs IH]; intros a Hext Henc HD;
    cbn [callbacksFrom] in *; [constructor|].
  apply Forall_cons_iff in Henc. destruct Henc as [He Henc].
  destruct (payloadSize_facts e He) as [HP _].
  inversion HD as [|cb e' cbs evs' Hd Hrest]; subst.
  constructor.
  - apply (decodes_ext m); [exact He| |exact Hd].
    intros x Hx. apply Hext. cbn [callbackOf cbPayload] in Hx.
    revert Hx. machine. lia.
  - apply IH; [|exact Henc|exact Hrest].
    intros x Hx. apply Hext. revert Hx. machine. lia.
Qed.

(** ** One record and the reader that waits for it *)

Lemma readOnce_emit (e : Event) (d : DetectorWriterP) (r : LogPageReaderP) :
  page_open d -> caught_up d r -> encodable e ->
  mBufferOffset (mPageWriter d) + sizeof_UnitHeader + payloadSize e
  <= LOG_PAGE_SIZE ->
  let w := mPageWriter d in
  let size := mBufferOffset w + sizeof_UnitHeader + payloadSize e in
  let d' := emit e d in
  let m' := cells (mLogFM d') in
  let cb := callbackOf e (buf w + mBufferOffset w + sizeof_UnitHeader) in
  let r' := setBufferOffset size
              {| super := super r; mPageBusy := true; mPageSize := size |} in
  LogPageReaderP.readOnce m' r = (Readed, Some cb, r')
  /\ decodes m' cb e
  /\ caught_up d' r'
  /\ page_open d'.
Proof.
  intros Hopen (Cb & Co & Cs & Cy) He Hfit. cbv zeta.
  destruct (emit_appends e d Hopen He Hfit) as (E & Hopen' & F & D & _).
  cbv zeta in E, F, D.
  destruct (payloadSize_facts e He) as [HP _].
  change (2 ^ 18) with 262144 in HP.
  destruct Hopen as (_ & Ho & _).
  set (w := mPageWriter d) in *. set (d' := emit e d) in *.
  set (m' := cells (mLogFM d')) in *.
  set (size := mBufferOffset w + sizeof_UnitHeader + payloadSize e) in *.
  assert (buf r = buf w) as Ebr by (unfold buf; rewrite Cb; reflexivity).
  pose proof Hopen' as (_ & _ & _ & _ & Ha' & Hw').
  assert (buf (mPageWriter d') = buf w) as Eb' by (rewrite E; reflexivity).
  assert (mBufferOffset (mPageWriter d') = size) as Eo' by (rewrite E; reflexivity).
  rewrite Eb' in Ha', Hw'. rewrite Eo' in Hw'. fold m' in Ha', Hw'.
  set (r1 := {| super := super r; mPageBusy := true; mPageSize := size |}).
  assert (LogPageReaderP.readOnce m' r = LogPageReaderP.readOnce m' r1) as R1.
  { apply readOnce_resample; try congruence.
    - subst size. revert Hfit. fold w. machine. lia.
    - rewrite Co. fold w. subst size. machine. lia. }
  pose proof (readMany_framed m'
                [callbackOf e (buf w + mBufferOffset w + sizeof_UnitHeader)] r1)
    as R.
  change (buf r1) with (buf r) in R.
  change (mBufferOffset r1) with (mBufferOffset r) in R.
  change (mPageSize r1) with size in R.
  rewrite Ebr, Co in R. fold w in R.
  replace (buf w + size)
    with (buf w + mBufferOffset w + sizeof_UnitHeader + payloadSize e) in R
    by (subst size; lia).
  specialize (R F).
  cbn [List.length readMany map] in R.
  unfold dDetector.readOnce, DetectorReaderP.readOnce in R.
  cbn [isValid mPageReader] in R. rewrite <- R1 in R.
  destruct (LogPageReaderP.readOnce m' r) as [[res c] r2].
  assert ((res, c) = (Readed,
                      Some (callbackOf e
                              (buf w + mBufferOffset w + sizeof_UnitHeader)))
          /\ r2 = setBufferOffset size r1) as [E1 E2].
  { assert (0 <= mBufferOffset w) as H1 by (revert Ho; fold w; machine; lia).
    assert (size < 2 ^ 32) as H2
      by (subst size; revert Hfit; fold w; machine; lia).
    specialize (R H1 H2). inversion R. split; reflexivity. }
  inversion E1. subst res c r2.
  split; [reflexivity|]. split; [exact D|]. split; [|exact Hopen'].
  unfold caught_up. rewrite E.
  cbn [setBufferOffset mBuffer mBufferOffset super mPageSize mPageBusy].
  repeat split; try reflexivity. exact Cb.
Qed.

Lemma emit_delivers (T : FixedT) (f : FuncID) (s : list byte) (t : Z)
  (d : DetectorWriterP) (r : LogPageReaderP) :
  page_open d -> caught_up d r ->
  Z.of_nat (List.length s) < 2 ^ 16 ->
  mBufferOffset (mPageWriter d) + sizeof_UnitHeader + blockSize s + sizeof T
  <= LOG_PAGE_SIZE ->
  castT T t = t ->
  delivers (DetectorWriterP.writeST T (FuncID_code f) s
              (Z.of_nat (List.length s)) t d) r f s T t.
Proof.
  intros Hopen Hc Hs Hfit Ht.
  assert (encodable (EvST T (FuncID_code f) s t)) as He
    by (split; [apply FuncID_code_range|exact Hs]).
  destruct (readOnce_emit (EvST T (FuncID_code f) s t) d r Hopen Hc He)
    as (R & D & C & _).
  { cbn [payloadSize]. rewrite alignedSize_sizeof. lia. }
  cbv zeta in R, D, C. cbn [emit] in R, D, C.
  unfold delivers. cbv zeta.
  eexists. eexists. split; [exact R|].
  destruct D as (D1 & D2 & (HS & HT)).
  split; [exact D1|]. split; [|exact C].
  destruct HS as (_ & Hb & Hz & Hp & _). destruct (Hp Hs) as (_ & Hfst & _).
  rewrite (surjective_pairing (dDetector.parseString _ _)).
  rewrite Hfst. split; [exact Hb|]. split; [exact Hz|].
  rewrite HT, Ht. reflexivity.
Qed.

(** ** The path of [runClient] *)

Lemma lastSlash_none (l : list byte) :
  forall i L, ~ In "/"%byte l -> dDetector.lastSlash l i L = L.
Proof.
  induction l as [|c l IH]; intros i L Hn; cbn [dDetector.lastSlash];
    [reflexivity|].
  rewrite byte_eqb_neq by (intros E; apply Hn; left; exact E).
  apply IH. intros Hin. apply Hn. right. exact Hin.
Qed.

Lemma lastSlash_app (l1 l2 : list byte) :
  forall i L,
    dDetector.lastSlash (l1 ++ l2) i L
    = dDetector.lastSlash l2 (i + Z.of_nat (List.length l1))
        (dDetector.lastSlash l1 i L).
Proof.
  induction l1 as [|c l1 IH]; intros i L.
  - cbn [app List.length dDetector.lastSlash]. rewrite Z.add_0_r. reflexivity.
  - cbn [app dDetector.lastSlash]. rewrite IH.
    replace (i + 1 + Z.of_nat (List.length l1))
      with (i + Z.of_nat (List.length (c :: l1)))
      by (cbn [List.length]; lia).
    reflexivity.
Qed.

(** ** The writer over any sequence of records *)

Lemma emit_writer_ok (e : Event) (d : DetectorWriterP) :
  writer_ok d -> encodable e -> fitsPage e ->
  let d' := emit e d in
  writer_ok d'
  /\ mapped (mPageWriter d') = true
  /\ (forall x, x < 0 \/ LOG_FILE_SIZE <= x ->
                cells (mLogFM d') x = cells (mLogFM d) x).
Proof.
  intros [Hpo Hok] He Hfp d'. unfold fitsPage in Hfp.
  destruct (payloadSize_facts e He) as [HP _].
  change (2 ^ 18) with 262144 in HP.
  destruct (mapped (mPageWriter d)) eqn:Hm.
  - destruct (Hok eq_refl) as [Hopen Hb].
    pose proof Hopen as (_ & Ho & _).
    assert (buf (mPageWriter d) = LOG_PAGE_SIZE * mPageOffset (mPageWriter d))
      as Eb by (unfold buf; rewrite Hb; reflexivity).
    destruct (Z_le_gt_dec
                (mBufferOffset (mPageWriter d) + sizeof_UnitHeader + payloadSize e)
                LOG_PAGE_SIZE) as [Hfit|Hov].
    + destruct (emit_appends e d Hopen He Hfit) as (E & Hopen' & _ & _ & Fr).
      cbv zeta in E, Fr. fold d' in E, Hopen', Fr.
      split; [|split].
      * split; [rewrite E; exact Hpo|]. intros _. split; [exact Hopen'|].
        rewrite E. exact Hb.
      * rewrite E. exact Hm.
      * intros x Hx. apply Fr; rewrite Eb; revert Hx Hpo Ho Hfit; machine; lia.
    + destruct (emit_on_new_page e d He Hpo) as ((B & O & Q) & Hopen' & _ & _ & Fr).
      { intros _. split; [revert Ho; machine; lia|lia]. }
      { exact Hfp. }
      fold d' in B, O, Q, Hopen', Fr.
      pose proof (nextPageOffset_range _ Hpo) as Hn.
      split; [|split].
      * split; [rewrite Q; exact Hn|]. intros _. split; [exact Hopen'|].
        rewrite B, Q. reflexivity.
      * unfold mapped. rewrite B. reflexivity.
      * intros x Hx. rewrite Fr by (revert Hx Hn Hfp; machine; lia).
        unfold retired. rewrite Hm. apply rewriteHeader_frame.
        rewrite Eb. revert Hx Hpo. machine. lia.
  - destruct (emit_on_new_page e d He Hpo) as ((B & O & Q) & Hopen' & _ & _ & Fr).
    { intros Hm'. congruence. }
    { exact Hfp. }
    fold d' in B, O, Q, Hopen', Fr.
    pose proof (nextPageOffset_range _ Hpo) as Hn.
    split; [|split].
    * split; [rewrite Q; exact Hn|]. intros _. split; [exact Hopen'|].
      rewrite B, Q. reflexivity.
    * unfold mapped. rewrite B. reflexivity.
    * intros x Hx. rewrite Fr by (revert Hx Hn Hfp; machine; lia).
      unfold retired. rewrite Hm. reflexivity.
Qed.

(** ** The reader across a change of page *)

Lemma rotation_batch
  (e : Event) (evs : list Event) (d : DetectorWriterP) (r : LogPageReaderP) :
  page_open d -> on_ring (mPageWriter d) -> caught_up d r ->
  mPageOffset r = mPageOffset (mPageWriter d) ->
  Forall encodable (e :: evs) ->
  LOG_PAGE_SIZE
  < mBufferOffset (mPageWriter d) + sizeof_UnitHeader + payloadSize e ->
  sizeof_PageHeader + totalSize (e :: evs) <= LOG_PAGE_SIZE ->
  let w := mPageWriter d in
  let n := (mPageOffset w + 1) mod LOG_PAGE_COUNT in
  let d' := emitAll (e :: evs) d in
  let m' := cells (mLogFM d') in
  let cbs := callbacksFrom (LOG_PAGE_SIZE * n + sizeof_PageHeader) (e :: evs) in
  let r1 := retiredAt (mBufferOffset w) r in
  let r' :=
    setBufferOffset (sizeof_PageHeader + totalSize (e :: evs)) (adopted m' n) in
  (m' (buf w) = "#"%byte /\ m' (buf w + 1) = "-"%byte
   /\ sizeof_PageHeader + LOG_UNIT_PACKING * load_le m' (buf w + 2) 2
      = mBufferOffset w)
  /\ (mBuffer (mPageWriter d') = Some (LOG_PAGE_SIZE * n)
      /\ mPageOffset (mPageWriter d') = n)
  /\ LogPageReaderP.readOnce m' r = (Unreaded, None, r1)
  /\ readMany m' (List.length (e :: evs)) {| isValid := true; mPageReader := r1 |}
     = (map (fun cb => (Readed, Some cb)) cbs,
        {| isValid := true; mPageReader := r' |})
  /\ Forall2 (decodes m') cbs (e :: evs)
  /\ caught_up d' r'
  /\ LogPageReaderP.readOnce m' r' = (Unreaded, None, r').
Proof.
  intros Hopen [Hring Hpo] (Cb & Co & Cs & Cy) Cp Henc Hov Hfit. cbv zeta.
  destruct Hopen as (Hm & Ho & Hal & _).
  assert (nextPageOffset (mPageWriter d)
          = (mPageOffset (mPageWriter d) + 1) mod LOG_PAGE_COUNT) as En
    by (unfold nextPageOffset; rewrite Hm; reflexivity).
  destruct (emitAll_on_new_page e evs d Henc Hpo)
    as ((B & O & Q) & Hopen' & F & D & Fr).
  { intros _. split; [revert Ho; machine; lia|exact Hov]. }
  { exact Hfit. }
  rewrite En in B, Q, F, D, Fr.
  set (w := mPageWriter d) in *.
  set (n := (mPageOffset w + 1) mod LOG_PAGE_COUNT) in *.
  set (d' := emitAll (e :: evs) d) in *.
  set (m' := cells (mLogFM d')) in *.
  assert (0 <= n < LOG_PAGE_COUNT) as Hn by (subst n; revert Hpo; machine; zdiv).
  assert (buf w = LOG_PAGE_SIZE * mPageOffset w) as Eb
    by (unfold buf; rewrite Hring; reflexivity).
  assert (buf r = buf w) as Ebr by (unfold buf; rewrite Cb; reflexivity).
  pose proof (totalSize_nonneg (e :: evs) Henc) as Hnn.
  assert (forall x, buf w <= x < buf w + sizeof_PageHeader ->
                    m' x = cells (retired w (mLogFM d)) x) as Hold.
  { intros x Hx. apply Fr. rewrite Eb in Hx.
    assert (n = mPageOffset w + 1 \/ (n = 0 /\ mPageOffset w = 79)) as [E|[E E']]
      by (subst n; revert Hpo; machine; zdiv).
    - left. rewrite E. revert Hx. machine. lia.
    - right. rewrite E, E' in *. revert Hx Hfit. machine. lia. }
  unfold retired in Hold. rewrite Hm in Hold.
  destruct (rewriteHeader_size "-" w (mLogFM d) Ho Hal) as (G1 & G2 & G3).
  assert (m' (buf w) = "#"%byte /\ m' (buf w + 1) = "-"%byte
          /\ sizeof_PageHeader + LOG_UNIT_PACKING * load_le m' (buf w + 2) 2
             = mBufferOffset w) as (K1 & K2 & K3).
  { split; [|split].
    - rewrite Hold by (machine; lia). exact G1.
    - rewrite Hold by (machine; lia). exact G2.
    - rewrite <- G3. f_equal. f_equal. apply load_le_ext.
      intros x Hx. apply Hold. simpl Z.of_nat in Hx. machine. lia. }
  destruct (adopted_drains
              (callbacksFrom (LOG_PAGE_SIZE * n + sizeof_PageHeader) (e :: evs))
              d' n Hopen' B) as (R & C & U).
  { rewrite O.
    replace (LOG_PAGE_SIZE * n + (sizeof_PageHeader + totalSize (e :: evs)))
      with (LOG_PAGE_SIZE * n + sizeof_PageHeader + totalSize (e :: evs)) by lia.
    exact F. }
  rewrite O in R, C, U. fold m' in R, C, U.
  rewrite length_callbacksFrom in R.
  assert (LogPageReaderP.readOnce m' r
          = (Unreaded, None, retiredAt (mBufferOffset w) r)) as R0.
  { rewrite <- Co. apply readOnce_retired.
    - congruence.
    - exact Cy.
    - rewrite Ebr. exact K2.
    - rewrite Ebr, Co. exact K3. }
  destruct Hopen' as (_ & _ & _ & Hc' & Ha' & Hw').
  assert (buf (mPageWriter d') = LOG_PAGE_SIZE * n) as Eb'
    by (unfold buf; rewrite B; reflexivity).
  rewrite Eb' in Hc', Ha', Hw'. fold m' in Hc', Ha', Hw'.
  assert (LogPageReaderP.readOnce m' (retiredAt (mBufferOffset w) r)
          = LogPageReaderP.readOnce m' (adopted m' n)) as R1.
  { rewrite (readOnce_next_page m' (retiredAt (mBufferOffset w) r)).
    - change (mPageOffset (retiredAt (mBufferOffset w) r)) with (mPageOffset r).
      rewrite Cp. fold n. symmetry. apply readOnce_unit.
      unfold adopted. cbn [mBufferOffset mPageSize super]. rewrite Hw', O.
      destruct (payloadSize_facts e (Forall_inv Henc)) as [HP _].
      pose proof (totalSize_nonneg evs (Forall_inv_tail Henc)).
      cbn [totalSize]. machine. lia.
    - exact Co.
    - reflexivity.
    - change (mPageOffset (retiredAt (mBufferOffset w) r)) with (mPageOffset r).
      rewrite Cp. exact Hpo.
    - change (mPageOffset (retiredAt (mBufferOffset w) r)) with (mPageOffset r).
      rewrite Cp. exact Hc'.
    - change (mPageOffset (retiredAt (mBufferOffset w) r)) with (mPageOffset r).
      rewrite Cp. fold n. rewrite Ha'. discriminate. }
  split; [split; [exact K1|split; [exact K2|exact K3]]|].
  split; [split; [exact B|exact Q]|].
  split; [exact R0|].
  split; [|split; [exact D|split; [exact C|exact U]]].
  change (List.length (e :: evs)) with (S (List.length evs)).
  rewrite (readMany_first m' _ _ (adopted m' n) R1). exact R.
Qed.

(** ** The reader that keeps up *)

Lemma readMany_step (m : Z -> byte) (n : nat) (r r1 : LogPageReaderP)
  (res : ReadResult) (cb : option Callback) :
  LogPageReaderP.readOnce m r = (res, cb, r1) ->
  readMany m (S n) {| isValid := true; mPageReader := r |}
  = ((res, cb) :: fst (readMany m n {| isValid := true; mPageReader := r1 |}),
     snd (readMany m n {| isValid := true; mPageReader := r1 |})).
Proof.
  intros H. cbn [readMany].
  unfold dDetector.readOnce, DetectorReaderP.readOnce.
  cbn [isValid mPageReader]. rewrite H.
  destruct (readMany m n _) as [rest d2]. reflexivity.
Qed.

Lemma caught_up_idle (d : DetectorWriterP) (r : LogPageReaderP) :
  page_open d -> caught_up d r ->
  LogPageReaderP.readOnce (cells (mLogFM d)) r = (Unreaded, None, r).
Proof.
  intros (_ & Ho & _ & _ & Ha & Hw) (Cb & Co & Cs & Cy).
  assert (buf r = buf (mPageWriter d)) as Eb
    by (unfold buf; rewrite Cb; reflexivity).
  apply readOnce_nothing_new; try congruence.
  rewrite Co. revert Ho. machine. lia.
Qed.

Lemma lockstep_step (e : Event) (d : DetectorWriterP) (r : LogPageReaderP) :
  writer_ok d -> mapped (mPageWriter d) = true -> caught_up d r ->
  mPageOffset r = mPageOffset (mPageWriter d) ->
  encodable e -> fitsPage e ->
  let d' := emit e d in
  let m' := cells (mLogFM d') in
  exists cb r',
    (readMany m' 2 {| isValid := true; mPageReader := r |}
     = ([(Readed, Some cb); (Unreaded, None)],
        {| isValid := true; mPageReader := r' |})
     \/ readMany m' 2 {| isValid := true; mPageReader := r |}
        = ([(Unreaded, None); (Readed, Some cb)],
           {| isValid := true; mPageReader := r' |}))
    /\ decodes m' cb e
    /\ writer_ok d' /\ mapped (mPageWriter d') = true
    /\ caught_up d' r'
    /\ mPageOffset r' = mPageOffset (mPageWriter d').
Proof.
  intros Hok Hm Hc Hp He Hfp d' m'.
  destruct (emit_writer_ok e d Hok He Hfp) as (Hok' & Hm' & _).
  fold d' in Hok', Hm'.
  destruct Hok as [Hpo Hpage]. destruct (Hpage Hm) as [Hopen Hb].
  destruct (Z_le_gt_dec
              (mBufferOffset (mPageWriter d) + sizeof_UnitHeader + payloadSize e)
              LOG_PAGE_SIZE) as [Hfit|Hov].
  - destruct (readOnce_emit e d r Hopen Hc He Hfit) as (R & D & C & O).
    cbv zeta in R, D, C, O. fold d' in R, D, C, O. fold m' in R, D.
    destruct (emit_appends e d Hopen He Hfit) as (E & _).
    cbv zeta in E. fold d' in E.
    eexists. eexists. split; [left|].
    + rewrite (readMany_step m' 1 _ _ _ _ R). cbn [fst snd].
      rewrite (readMany_step m' 0 _ _ _ _ (caught_up_idle d' _ O C)).
      reflexivity.
    + split; [exact D|]. split; [exact Hok'|]. split; [exact Hm'|].
      split; [exact C|]. rewrite E. cbn [setBufferOffset mPageOffset super].
      exact Hp.
  - destruct (rotation_batch e [] d r Hopen (conj Hb Hpo) Hc Hp)
      as (_ & (_ & Q) & R0 & R & D & C & U).
    { constructor; [exact He|constructor]. }
    { lia. }
    { cbn [totalSize]. unfold fitsPage in Hfp. lia. }
    cbv zeta in Q, R0, R, D, C, U.
    change (emitAll [e] d) with d' in Q, R0, R, D, C, U.
    fold m' in R0, R, D, C, U.
    cbn [callbacksFrom] in R, D. inversion D as [|cb0 e0 cbs0 evs0 D0 _]; subst.
    eexists. eexists. split; [right|].
    + rewrite (readMany_step m' 1 _ _ _ _ R0). cbn [List.length] in R.
      rewrite R. cbn [fst snd map]. reflexivity.
    + split; [exact D0|]. split; [exact Hok'|]. split; [exact Hm'|].
      split; [exact C|]. rewrite Q. reflexivity.
Qed.

(** ** The second block of [writeSS] *)

Lemma adds_keeps (P : Site * Z -> Prop) (h h' : Heap) (e : Site * Z) :
  adds P h h' -> In e (stored h) -> In e (stored h').
Proof.
  intros (new & E & _) Hin. rewrite E. apply in_or_app. right. exact Hin.
Qed.

Lemma putS_stores_NUL (p : Z) (s : list byte) (sn : Z) (fm : Heap) :
  In (PayloadStore, p + (sizeof_uint16_t + sn)) (stored (putS p s sn fm)).
Proof. unfold putS. cbn [store8 stored]. left. reflexivity. Qed.

(** ** The search of [killClient] *)

Lemma isPrefixOf_spec (needle : list byte) :
  forall haystack,
    dDetector.isPrefixOf needle haystack = true
    <-> exists post, haystack = needle ++ post.
Proof.
  induction needle as [|a needle IH]; intros haystack;
    cbn [dDetector.isPrefixOf app].
  - split; [intros _; exists haystack; reflexivity|reflexivity].
  - destruct haystack as [|b haystack].
    + split; [discriminate|intros [post E]; discriminate E].
    + rewrite Bool.andb_true_iff, IH. split.
      * intros [Hab [post E]]. apply Byte.byte_dec_bl in Hab. subst.
        exists post. reflexivity.
      * intros [post E]. inversion E. subst. split.
        -- apply Byte.byte_dec_lb. reflexivity.
        -- exists post. reflexivity.
Qed.

Lemma strstr_spec (needle haystack : list byte) :
  dDetector.strstr haystack needle = true
  <-> exists pre post, haystack = pre ++ needle ++ post.
Proof.
  induction haystack as [|b haystack IH]; cbn [dDetector.strstr];
    rewrite Bool.orb_true_iff, isPrefixOf_spec.
  - split.
    + intros [[post E]|H]; [|discriminate]. exists [], post. exact E.
    + intros (pre & post & E). left.
      destruct pre as [|c pre]; [|discriminate E].
      exists post. exact E.
  - rewrite IH. split.
    + intros [[post E]|(pre & post & E)].
      * exists [], post. exact E.
      * exists (b :: pre), post. rewrite E. reflexivity.
    + intros (pre & post & E). destruct pre as [|c pre].
      * left. exists post. exact E.
      * right. inversion E. exists pre, post. reflexivity.
Qed.

(** ** Calls in a row *)

Lemma readMany_app (m : Z -> byte) (a b : nat) :
  forall d,
    readMany m (a + b) d
    = (fst (readMany m a d) ++ fst (readMany m b (snd (readMany m a d))),
       snd (readMany m b (snd (readMany m a d)))).
Proof.
  induction a as [|a IH]; intros d.
  - cbn [Nat.add readMany fst snd app].
    destruct (readMany m b d) as [o d']. reflexivity.
  - cbn [Nat.add readMany].
    destruct (dDetector.readOnce m d) as [[res cb] d1].
    rewrite IH. destruct (readMany m a d1) as [o1 d2]. cbn [fst snd].
    destruct (readMany m b d2) as [o2 d3]. reflexivity.
Qed.

Lemma firstn_cut (A : Type) (l : list A) (n : Z) :
  0 <= n ->
  firstn (Z.to_nat (Z.min (Z.of_nat (List.length l)) n)) l
  = firstn (Z.to_nat n) l.
Proof.
  intros Hn. destruct (Z_le_gt_dec (Z.of_nat (List.length l)) n) as [H|H].
  - rewrite Z.min_l by exact H. rewrite Nat2Z.id.
    rewrite firstn_all. symmetry. apply firstn_all2. lia.
  - rewrite Z.min_r by lia. reflexivity.
Qed.

(** * The claims on the first page and on the terminal page *)

(** C7 (as the code has it).  When the page after a consumed, closed page
    is terminal, [loadPage] has adopted it before [readOnce] puts
    [pageOffset] back: the call returns [ExitProgram] with the buffer, the
    cursor and the size of the terminal page, and with the page offset of the
    page before it.  The reader does not try again from where it stood.  Its
    next calls deliver the records of the terminal page, and the call after
    the last of them advances from the restored page offset onto the same
    terminal page, returns [ExitProgram] and leaves the reader as it was
    after the first [ExitProgram].  So the reader goes round for ever:
    [ExitProgram], the records of the terminal page, [ExitProgram], the same
    records again, and so on. *)
Theorem terminal_page_is_redelivered_forever
  (m : Z -> byte) (r : LogPageReaderP) (cbs : list Callback) (k : nat) :
  mBufferOffset r = mPageSize r -> mPageBusy r = false ->
  0 <= mPageOffset r < LOG_PAGE_COUNT ->
  let n := (mPageOffset r + 1) mod LOG_PAGE_COUNT in
  let page := LOG_PAGE_SIZE * n in
  m page = "#"%byte -> m (page + 1) = "/"%byte ->
  let size := sizeof_PageHeader + LOG_UNIT_PACKING * load_le m (page + 2) 2 in
  framed m (page + sizeof_PageHeader) cbs (page + size) ->
  let r1 := strandedOn m n (mPageOffset r) in
  let r2 := setBufferOffset size r1 in
  let round := (ExitProgram, None) :: map (fun cb => (Readed, Some cb)) cbs in
  LogPageReaderP.readOnce m r = (ExitProgram, None, r1)
  /\ (mPageOffset r1 = mPageOffset r /\ mBuffer r1 = Some page
      /\ mBufferOffset r1 = sizeof_PageHeader /\ mPageSize r1 = size
      /\ mPageBusy r1 = false)
  /\ (mBuffer r <> Some page -> r1 <> r)
  /\ readMany m (List.length cbs) {| isValid := true; mPageReader := r1 |}
     = (map (fun cb => (Readed, Some cb)) cbs,
        {| isValid := true; mPageReader := r2 |})
  /\ LogPageReaderP.readOnce m r2 = (ExitProgram, None, r1)
  /\ readMany m (S k * List.length round) {| isValid := true; mPageReader := r |}
     = (List.concat (repeat round (S k)), {| isValid := true; mPageReader := r2 |}).
Proof.
  intros Hend Hbusy Hpo n page Hc Ha size Hfr r1 r2 round.
  destruct (next_page_offset _ Hpo) as [En Hn]. fold n in En, Hn.
  pose proof (load_le_2_bound m (page + 2)) as Hb.
  assert (forall r0 : LogPageReaderP,
            mBufferOffset r0 = mPageSize r0 -> mPageBusy r0 = false ->
            mPageOffset r0 = mPageOffset r ->
            LogPageReaderP.readOnce m r0 = (ExitProgram, None, r1)) as Hexit.
  { intros r0 Hend0 Hbusy0 Hpo0. unfold LogPageReaderP.readOnce.
    rewrite Hend0, Z.eqb_refl, Hbusy0, Hpo0, En.
    rewrite loadPage_adopts; [|exact Hn|exact Hc].
    change (mPageOffset (LogPageReaderP.setPageOffset n r0)) with n.
    fold page. rewrite Ha. reflexivity. }
  assert (mPageBusy r1 = false) as Hbusy1.
  { subst r1. unfold strandedOn, adopted. cbn [LogPageReaderP.setPageOffset mPageBusy].
    fold page. rewrite Ha. reflexivity. }
  assert (readMany m (List.length cbs) {| isValid := true; mPageReader := r1 |}
          = (map (fun cb => (Readed, Some cb)) cbs,
             {| isValid := true; mPageReader := r2 |})) as Hdrain.
  { rewrite (readMany_framed m cbs r1); [reflexivity| | |].
    - exact Hfr.
    - subst r1. cbn. machine. lia.
    - change (mPageSize r1) with size. subst size. revert Hb. machine. lia. }
  assert (LogPageReaderP.readOnce m r2 = (ExitProgram, None, r1)) as Hagain.
  { apply Hexit; [reflexivity|exact Hbusy1|reflexivity]. }
  assert (forall r0 : LogPageReaderP,
            LogPageReaderP.readOnce m r0 = (ExitProgram, None, r1) ->
            readMany m (List.length round)
              {| isValid := true; mPageReader := r0 |}
            = (round, {| isValid := true; mPageReader := r2 |})) as Hround.
  { intros r0 H0. subst round. cbn [List.length]. rewrite length_map.
    rewrite (readMany_step m _ _ _ _ _ H0). rewrite Hdrain. reflexivity. }
  split; [apply Hexit; [exact Hend|exact Hbusy|reflexivity]|].
  split; [repeat split; try reflexivity; exact Hbusy1|].
  split.
  { intros Hne E. apply Hne. rewrite <- E. reflexivity. }
  split; [exact Hdrain|]. split; [exact Hagain|].
  assert (forall j,
            readMany m (j * List.length round)
              {| isValid := true; mPageReader := r2 |}
            = (List.concat (repeat round j),
               {| isValid := true; mPageReader := r2 |})) as Hloop.
  { induction j as [|j IH]; [reflexivity|].
    cbn [Nat.mul repeat List.concat]. rewrite readMany_app.
    rewrite (Hround r2 Hagain). cbn [fst snd]. rewrite IH. reflexivity. }
  cbn [Nat.mul repeat List.concat]. rewrite readMany_app.
  rewrite (Hround r (Hexit r Hend Hbusy eq_refl)). cbn [fst snd].
  rewrite Hloop. reflexivity.
Qed.

Lemma terminal_page_is_redelivered_forever_witness :
  let fm := cells (mLogFM two_pages_exited) in
  let r := snd (LogPageReaderP.readOnce fm
                  (mPageReader (DetectorReaderP.create (Some fm)))) in
  let stamp_A := {| cbFuncID := FuncID_code StampST;
                    cbPayload := LOG_PAGE_SIZE + 12; cbLength := 12 |} in
  fst (readMany fm 6 {| isValid := true; mPageReader := r |})
  = [(ExitProgram, None); (Readed, Some stamp_A);
     (ExitProgram, None); (Readed, Some stamp_A);
     (ExitProgram, None); (Readed, Some stamp_A)]
  /\ mBuffer (snd (LogPageReaderP.readOnce fm r)) = Some LOG_PAGE_SIZE
  /\ mPageOffset (snd (LogPageReaderP.readOnce fm r)) = 0.
Proof.
  intros fm r stamp_A.
  destruct (terminal_page_is_redelivered_forever fm r [stamp_A] 2)
    as (R0 & (P1 & B1 & _) & _ & _ & _ & R).
  - vm_compute. reflexivity.
  - vm_compute. reflexivity.
  - closed.
  - vm_compute. reflexivity.
  - vm_compute. reflexivity.
  - closed.
  - cbv zeta in R0, P1, B1, R. rewrite R0. cbn [snd].
    split; [|split].
    + change 6%nat with
        (3 * List.length
               ((ExitProgram, @None Callback)
                :: map (fun cb => (Readed, Some cb)) [stamp_A]))%nat.
      rewrite R. reflexivity.
    + rewrite B1. vm_compute. reflexivity.
    + rewrite P1. vm_compute. reflexivity.
Defined.

(** C10.  The first [writeLock] of a writer finds no live buffer, so
    [validPage] maps the page at [pageOffset = 0] without advancing and
    stamps it, and the record is framed in page 0: the UnitHeader is stored
    at file offsets 8 to 11, where it reads back with the packing count and
    the function id, and the payload pointer is 12.  The first record of a
    typed encoder is in the file on page 0: the page header reads ['#'],
    ['+'] and the size reached, the record lies from offset 8, its payload at
    12 decodes with the parse primitives, and no byte behind the record is
    touched.  A freshly constructed reader loads the page at file offset 0:
    it adopts it when its code byte is ['#'] and stays unloaded, at
    [pageOffset = 0], otherwise. *)
Theorem both_endpoints_start_at_page_0 :
  (forall fm space,
     let w' := fst (validPage fm space LogPageP_init) in
     mPageOffset w' = 0 /\ mBuffer w' = Some (LOG_PAGE_SIZE * 0))
  /\ (forall funcId payloadSize,
        let r := writeLock (mLogFM DetectorWriterP.create) funcId payloadSize
                   (mPageWriter DetectorWriterP.create) in
        mPageOffset (snd (fst r)) = 0
        /\ mBuffer (snd (fst r)) = Some 0
        /\ mBufferOffset (snd (fst r)) = sizeof_PageHeader
        /\ fst (fst r) = 12
        /\ stored (snd r)
           = [(UnitHeaderStore, 11); (UnitHeaderStore, 10);
              (UnitHeaderStore, 9); (UnitHeaderStore, 8);
              (PageHeaderStore, 7); (PageHeaderStore, 6);
              (PageHeaderStore, 5); (PageHeaderStore, 4);
              (PageHeaderStore, 3); (PageHeaderStore, 2);
              (PageHeaderStore, 1); (PageHeaderStore, 0)])
  /\ (forall fm funcId payloadSize,
        let r := writeLock fm funcId payloadSize LogPageP_init in
        let m := cells (snd r) in
        fst (fst r) = 12
        /\ m 0 = "#"%byte /\ m 1 = "+"%byte
        /\ load_le m 8 2
           = uint16_t (uint32_t (payloadSize + LOG_UNIT_PACKING - 1)
                       / LOG_UNIT_PACKING)
        /\ load_le m 10 2 = uint16_t funcId
        /\ (forall x, 12 <= x -> m x = cells fm x))
  /\ (forall (e : Event) (d : DetectorWriterP),
        mPageWriter d = LogPageP_init -> encodable e -> fitsPage e ->
        let d' := emit e d in
        let m' := cells (mLogFM d') in
        let size := sizeof_PageHeader + sizeof_UnitHeader + payloadSize e in
        (mBuffer (mPageWriter d') = Some 0
         /\ mPageOffset (mPageWriter d') = 0
         /\ mBufferOffset (mPageWriter d') = size)
        /\ (m' 0 = "#"%byte /\ m' 1 = "+"%byte
            /\ sizeof_PageHeader + LOG_UNIT_PACKING * load_le m' 2 2 = size)
        /\ (load_le m' 10 2 = eventId e
            /\ LOG_UNIT_PACKING * load_le m' 8 2 = payloadSize e)
        /\ decodes m' (callbackOf e 12) e
        /\ (forall x, size <= x -> m' x = cells (mLogFM d) x))
  /\ (forall file : Z -> byte,
        let r := mPageReader (DetectorReaderP.create (Some file)) in
        snd (LogPageReaderP.loadPage file LogPageReaderP.init) = r
        /\ mPageOffset r = 0
        /\ (file 0 = "#"%byte ->
            mBuffer r = Some 0 /\ mBufferOffset r = sizeof_PageHeader
            /\ mPageBusy r = Byte.eqb (file 1) "+"
            /\ mPageSize r
               = sizeof_PageHeader + LOG_UNIT_PACKING * load_le file 2 2)
        /\ (file 0 <> "#"%byte -> r = LogPageReaderP.init)).
Proof.
  split; [|split; [|split; [|split]]].
  - intros fm space. split; reflexivity.
  - intros funcId payloadSize. repeat split.
  - intros fm funcId payloadSize r m.
    pose proof (writeLock_unit fm funcId payloadSize LogPageP_init) as [U1 U2].
    fold r m in U1, U2.
    assert (r = (12, {| mBuffer := Some 0; mBufferOffset := sizeof_PageHeader;
                        mPageOffset := 0; mPageID := 0 |},
                 memcpy UnitHeaderStore 8
                   (UnitHeader_bytes
                      (uint16_t (uint32_t (payloadSize + LOG_UNIT_PACKING - 1)
                                 / LOG_UNIT_PACKING)) funcId)
                   (memcpy PageHeaderStore 0
                      (PageHeader_bytes "#" "+" 65535 0) fm))) as Er.
    { subst r. unfold writeLock. rewrite validPage_takes_page.
      - reflexivity.
      - vm_compute. split; [discriminate|reflexivity].
      - intros Hm. discriminate Hm. }
    assert (fst (fst r) = 12) as Ep by (rewrite Er; reflexivity).
    rewrite Ep in U1, U2. change (12 - 4) with 8 in U1.
    change (12 - 2) with 10 in U2.
    assert (forall x, x < 8 \/ 12 <= x ->
              m x = cells (memcpy PageHeaderStore 0
                             (PageHeader_bytes "#" "+" 65535 0) fm) x) as Hu.
    { intros x Hx. subst m. rewrite Er. cbn [snd]. apply memcpy_cells_out.
      rewrite length_UnitHeader_bytes. machine. lia. }
    pose proof (load_bytes_memcpy PageHeaderStore
                  (PageHeader_bytes "#" "+" 65535 0) 0 fm) as Hh.
    apply PageHeader_reads in Hh. destruct Hh as (H0 & H1 & _).
    split; [exact Ep|]. split; [rewrite Hu by lia; exact H0|].
    split; [rewrite Hu by lia; exact H1|].
    split; [exact U1|]. split; [exact U2|].
    intros x Hx. rewrite Hu by lia. apply memcpy_cells_out.
    rewrite length_PageHeader_bytes. machine. lia.
  - intros e d Ew He Hf d' m' size. unfold fitsPage in Hf.
    destruct (emit_on_new_page e d He)
      as ((B & O & Q) & Hopen & F & D & Fr).
    { rewrite Ew. vm_compute. split; [discriminate|reflexivity]. }
    { rewrite Ew. intros Hm. discriminate Hm. }
    { exact Hf. }
    rewrite Ew in B, Q, F, D, Fr.
    change (LOG_PAGE_SIZE * nextPageOffset LogPageP_init) with 0 in B, F, D, Fr.
    change (nextPageOffset LogPageP_init) with 0 in Q.
    change (retired LogPageP_init (mLogFM d)) with (mLogFM d) in Fr.
    fold d' in B, O, Q, Hopen, F, D, Fr. fold m' in F, D, Fr.
    destruct Hopen as (_ & _ & _ & Hc & Ha & Hw).
    assert (buf (mPageWriter d') = 0) as Eb
      by (unfold buf; rewrite B; reflexivity).
    rewrite Eb in Hc, Ha, Hw. rewrite O in Hw. fold m' in Hc, Ha, Hw.
    cbn [framed callbackOf cbFuncID cbPayload cbLength] in F.
    destruct F as (F1 & _ & F2 & _).
    split; [split; [exact B|split; [exact Q|exact O]]|].
    split; [split; [exact Hc|split; [exact Ha|exact Hw]]|].
    split; [split; [symmetry; exact F1|symmetry; exact F2]|].
    split; [exact D|].
    intros x Hx. apply Fr. right. exact Hx.
  - intros file. cbv zeta.
    unfold DetectorReaderP.create, LogPageReaderP.open, LogPageReaderP.loadPage.
    cbn [mPageReader snd].
    change (LOG_VIEW_OPEN (uint32_t (LOG_PAGE_SIZE
              * mPageOffset LogPageReaderP.init))) with 0.
    split; [reflexivity|].
    destruct (Byte.eqb (file 0) "#") eqn:E; cbn [snd].
    + apply Byte.byte_dec_bl in E.
      split; [reflexivity|]. split; [|intros Hne; contradiction].
      intros _. split; [reflexivity|]. split; [reflexivity|].
      split; [reflexivity|].
      cbn [mPageSize]. machine. apply Z.mod_small.
      pose proof (Z_of_byte_range (file 2)).
      pose proof (Z_of_byte_range (file 3)).
      cbn [load_le]. change (0 + 2) with 2. change (2 + 1) with 3. lia.
    + apply Byte.eqb_false in E.
      split; [reflexivity|]. split; [intros He; contradiction|].
      intros _. reflexivity.
Qed.

Lemma both_endpoints_start_at_page_0_witness :
  let e := EvST Int64 (FuncID_code StampST) (literal "A") 1000 in
  let d' := emit e DetectorWriterP.create in
  let m' := cells (mLogFM d') in
  mBuffer (mPageWriter d') = Some 0
  /\ m' 0 = "#"%byte
  /\ load_le m' 10 2 = FuncID_code StampST
  /\ decodes m' (callbackOf e 12) e.
Proof.
  destruct both_endpoints_start_at_page_0 as (_ & _ & _ & H & _).
  destruct (H (EvST Int64 (FuncID_code StampST) (literal "A") 1000)
              DetectorWriterP.create)
    as ((B & _) & (C & _) & (F & _) & D & _).
  - reflexivity.
  - closed.
  - closed.
  - cbv zeta. split; [exact B|]. split; [exact C|]. split; [exact F|exact D].
Defined.

(** * Further properties of the transport *)

(** X1.  [alignedSize] pads to the next multiple of 4: for a size up to
    [2^32 - 4] the result is a multiple of 4, at least the size and less
    than 4 above it; it leaves a multiple of 4 as it is, and it is
    monotone. *)
Theorem alignedSize_pads (n n' : Z) :
  0 <= n <= n' -> n' <= 2 ^ 32 - 4 ->
  (n <= alignedSize n < n + 4)
  /\ alignedSize n mod 4 = 0
  /\ (n mod 4 = 0 -> alignedSize n = n)
  /\ alignedSize (alignedSize n) = alignedSize n
  /\ alignedSize n <= alignedSize n'.
Proof.
  change (2 ^ 32 - 4) with 4294967292. intros Hn Hn'.
  assert (forall k, 0 <= k <= 4294967292 -> alignedSize k = (k + 3) / 4 * 4)
    as Hex by (intros k Hk; apply alignedSize_exact;
               change (2 ^ 32 - 4) with 4294967292; exact Hk).
  rewrite (Hex n) by lia. rewrite (Hex n') by lia.
  assert (0 <= (n + 3) / 4 * 4 <= 4294967292) as Hr by zdiv.
  rewrite (Hex _ Hr).
  repeat split; try (intros; zdiv).
Qed.

Lemma alignedSize_pads_witness :
  (5 <= alignedSize 5 < 5 + 4)
  /\ alignedSize 5 mod 4 = 0
  /\ alignedSize (alignedSize 5) = alignedSize 5
  /\ alignedSize 5 <= alignedSize 9.
Proof.
  destruct (alignedSize_pads 5 9) as (H1 & H2 & _ & H4 & H5).
  - lia.
  - vm_compute. discriminate.
  - split; [exact H1|]. split; [exact H2|]. split; [exact H4|exact H5].
Defined.

(** X2.  A reader that has caught up with the writer on its open page gets
    [Unreaded] as long as nothing is written.  Once the writer has written
    a batch of S, T and ST events that fits the room left on the page, as
    many calls of [readOnce] deliver exactly these records, in the order of
    writing, each with the function id and the declared length of its event
    and with a payload from which [parseString], [parseInt32] and
    [parseInt64] get the fields back; the reader has then caught up again
    and its next call returns [Unreaded]. *)
Theorem caught_up_reader_drains_batch
  (evs : list Event) (d : DetectorWriterP) (r : LogPageReaderP) :
  page_open d -> caught_up d r ->
  Forall encodable evs ->
  mBufferOffset (mPageWriter d) + totalSize evs <= LOG_PAGE_SIZE ->
  let d' := emitAll evs d in
  let m' := cells (mLogFM d') in
  let cbs :=
    callbacksFrom (buf (mPageWriter d) + mBufferOffset (mPageWriter d)) evs in
  let r' :=
    setBufferOffset (mBufferOffset (mPageWriter d'))
      {| super := super r; mPageBusy := true;
         mPageSize := mBufferOffset (mPageWriter d') |} in
  LogPageReaderP.readOnce (cells (mLogFM d)) r = (Unreaded, None, r)
  /\ readMany m' (List.length evs) {| isValid := true; mPageReader := r |}
     = (map (fun cb => (Readed, Some cb)) cbs,
        {| isValid := true; mPageReader := r' |})
  /\ Forall2 (decodes m') cbs evs
  /\ caught_up d' r'
  /\ page_open d'
  /\ LogPageReaderP.readOnce m' r' = (Unreaded, None, r').
Proof.
  intros Hopen (Cb & Co & Cs & Cy) Henc Hfit. cbv zeta.
  destruct (emitAll_appends evs d Hopen Henc Hfit) as (E & Hopen' & F & D & Fr).
  cbv zeta in E, F, D, Fr.
  set (w := mPageWriter d) in *. set (d' := emitAll evs d) in *.
  set (m' := cells (mLogFM d')) in *.
  pose proof (totalSize_nonneg evs Henc) as Hnn.
  assert (mBufferOffset (mPageWriter d') = mBufferOffset w + totalSize evs) as Eo
    by (rewrite E; reflexivity).
  assert (buf r = buf w) as Eb by (unfold buf; rewrite Cb; reflexivity).
  destruct Hopen as (Hm & Ho & Hal & Hc & Ha & Hw).
  fold w in Hm, Ho, Hal, Hc, Ha, Hw.
  pose proof Hopen' as Hopen2.
  destruct Hopen' as (Hm' & Ho' & Hal' & Hc' & Ha' & Hw').
  assert (buf (mPageWriter d') = buf w) as Eb' by (rewrite E; reflexivity).
  rewrite Eb' in Hc', Ha', Hw'. fold m' in Hc', Ha', Hw'.
  set (r1 := {| super := super r; mPageBusy := true;
                mPageSize := mBufferOffset (mPageWriter d') |}).
  assert (LogPageReaderP.readOnce m'
            (setBufferOffset (mBufferOffset (mPageWriter d')) r1)
          = (Unreaded, None,
             setBufferOffset (mBufferOffset (mPageWriter d')) r1)) as Hlast.
  { apply readOnce_nothing_new; try reflexivity.
    - change (buf (setBufferOffset (mBufferOffset (mPageWriter d')) r1))
        with (buf r). rewrite Eb. exact Ha'.
    - change (buf (setBufferOffset (mBufferOffset (mPageWriter d')) r1))
        with (buf r). rewrite Eb. exact Hw'.
    - cbn [setBufferOffset mBufferOffset super]. revert Ho'. machine. lia. }
  split; [|split; [|split; [exact D|split; [|split; [|exact Hlast]]]]].
  - apply readOnce_nothing_new; try congruence.
    rewrite Co. revert Ho. machine. lia.
  - destruct evs as [|e evs].
    + cbn [List.length readMany map callbacksFrom]. f_equal. f_equal.
      subst r1. cbn [totalSize] in Eo. rewrite Z.add_0_r in Eo.
      rewrite Eo, <- Co. unfold setBufferOffset.
      cbn [mBuffer mBufferOffset mPageOffset mPageID super mPageBusy mPageSize].
      rewrite Co at 2. rewrite <- Cs, <- Cy.
      destruct r as [[b o po id] busy size]. reflexivity.
    + assert (0 < totalSize (e :: evs)) as Hpos.
      { cbn [totalSize]. apply Forall_cons_iff in Henc.
        destruct Henc as [He Henc'].
        destruct (payloadSize_facts e He) as [HP _].
        pose proof (totalSize_nonneg evs Henc'). machine. lia. }
      change (List.length (e :: evs)) with (S (List.length evs)).
      rewrite (readMany_first m' _ r r1).
      * change (S (List.length evs)) with (List.length (e :: evs)).
        rewrite <- (length_callbacksFrom (e :: evs)
                      (buf w + mBufferOffset w)).
        rewrite (readMany_framed m' _ r1); [reflexivity| | |].
        -- change (buf r1) with (buf r). change (mBufferOffset r1)
             with (mBufferOffset r).
           change (mPageSize r1) with (mBufferOffset (mPageWriter d')).
           rewrite Eb, Co, Eo.
           replace (buf w + (mBufferOffset w + totalSize (e :: evs)))
             with (buf w + mBufferOffset w + totalSize (e :: evs)) by lia.
           exact F.
        -- change (mBufferOffset r1) with (mBufferOffset r). rewrite Co.
           revert Ho. machine. lia.
        -- change (mPageSize r1) with (mBufferOffset (mPageWriter d')).
           revert Ho'. machine. lia.
      * apply readOnce_resample; try congruence;
          rewrite ?Co, ?Eo; revert Ho'; machine; lia.
  - unfold caught_up. cbn [setBufferOffset mBuffer mBufferOffset super
                           mPageSize mPageBusy].
    rewrite E at 1. cbn [mBuffer]. repeat split; try reflexivity. exact Cb.
  - exact Hopen2.
Qed.

Lemma caught_up_reader_drains_batch_witness :
  let a := buf (mPageWriter stamped) + mBufferOffset (mPageWriter stamped) in
  let d' := emitAll batch stamped in
  let m' := cells (mLogFM d') in
  fst (readMany m' (List.length batch)
         {| isValid := true; mPageReader := follower stamped |})
  = map (fun cb => (Readed, Some cb)) (callbacksFrom a batch)
  /\ Forall2 (decodes m') (callbacksFrom a batch) batch
  /\ page_open d'.
Proof.
  destruct (caught_up_reader_drains_batch batch stamped (follower stamped))
    as (_ & R & D & _ & O & _).
  - closed.
  - closed.
  - repeat constructor; closed.
  - closed.
  - cbv zeta. cbv zeta in R. rewrite R.
    split; [reflexivity|]. split; [exact D|exact O].
Defined.

(** X3.  The first records of a writer go to page 0 of the file, from file
    offset 8 on.  A reader that is made once a batch of them (one that fits
    the page) has been written adopts page 0 and gets exactly these records,
    in the order of writing, each decodable with the parse primitives; it
    has then caught up with the writer and its next call returns
    [Unreaded]. *)
Theorem late_reader_drains_first_page
  (e : Event) (evs : list Event) (d : DetectorWriterP) :
  mPageWriter d = LogPageP_init ->
  Forall encodable (e :: evs) ->
  sizeof_PageHeader + totalSize (e :: evs) <= LOG_PAGE_SIZE ->
  let d' := emitAll (e :: evs) d in
  let m' := cells (mLogFM d') in
  let cbs := callbacksFrom sizeof_PageHeader (e :: evs) in
  let r' :=
    setBufferOffset (sizeof_PageHeader + totalSize (e :: evs)) (adopted m' 0) in
  DetectorReaderP.create (Some m')
  = {| isValid := true; mPageReader := adopted m' 0 |}
  /\ readMany m' (List.length (e :: evs)) (DetectorReaderP.create (Some m'))
     = (map (fun cb => (Readed, Some cb)) cbs,
        {| isValid := true; mPageReader := r' |})
  /\ Forall2 (decodes m') cbs (e :: evs)
  /\ caught_up d' r'
  /\ LogPageReaderP.readOnce m' r' = (Unreaded, None, r').
Proof.
  intros Ew Henc Hfit. cbv zeta.
  destruct (emitAll_on_new_page e evs d Henc)
    as ((B & O & Q) & Hopen & F & D & Fr).
  { rewrite Ew. vm_compute. split; [discriminate|reflexivity]. }
  { rewrite Ew. intros Hm. discriminate Hm. }
  { exact Hfit. }
  rewrite Ew in B, F, D, Fr.
  change (LOG_PAGE_SIZE * nextPageOffset LogPageP_init) with (LOG_PAGE_SIZE * 0)
    in B, F, D, Fr.
  set (d' := emitAll (e :: evs) d) in *.
  set (m' := cells (mLogFM d')) in *.
  assert (DetectorReaderP.create (Some m')
          = {| isValid := true; mPageReader := adopted m' 0 |}) as Ec.
  { unfold DetectorReaderP.create, LogPageReaderP.open.
    rewrite loadPage_adopts; [reflexivity| |].
    - vm_compute. split; [discriminate|reflexivity].
    - destruct Hopen as (_ & _ & _ & Hc & _). unfold buf in Hc.
      rewrite B in Hc. exact Hc. }
  destruct (adopted_drains (callbacksFrom sizeof_PageHeader (e :: evs)) d' 0
              Hopen B) as (R & C & U).
  { rewrite O. exact F. }
  rewrite O in R, C, U. fold m' in R, C, U.
  rewrite length_callbacksFrom in R.
  split; [exact Ec|]. rewrite Ec.
  split; [exact R|]. split; [exact D|]. split; [exact C|exact U].
Qed.

Lemma late_reader_drains_first_page_witness :
  let d' := emitAll batch DetectorWriterP.create in
  let m' := cells (mLogFM d') in
  fst (readMany m' (List.length batch) (DetectorReaderP.create (Some m')))
  = map (fun cb => (Readed, Some cb)) (callbacksFrom sizeof_PageHeader batch)
  /\ Forall2 (decodes m') (callbacksFrom sizeof_PageHeader batch) batch.
Proof.
  destruct (late_reader_drains_first_page
              (EvS 6 (literal "k"))
              [EvT Int32 7 (-5); EvST Int64 3 (literal "B") 2000]
              DetectorWriterP.create)
    as (_ & R & D & _).
  - reflexivity.
  - repeat constructor; closed.
  - closed.
  - cbv zeta. cbv zeta in R. change batch with
      [EvS 6 (literal "k"); EvT Int32 7 (-5); EvST Int64 3 (literal "B") 2000].
    rewrite R. split; [reflexivity|exact D].
Defined.

(** X4.  A reader that is made before the writer has written its first
    record finds no ['#'] at file offset 0 and stays without a page; from
    then on every [readOnce] looks at page 1 only.  So, as long as page 1 has
    not been begun, it returns [Unreaded] and stays as it is, whatever the
    writer has put on page 0 in the meantime: the records of the first page
    do not reach this reader. *)
Theorem early_reader_misses_first_page
  (e : Event) (evs : list Event) (d : DetectorWriterP) (n : nat) :
  mPageWriter d = LogPageP_init ->
  cells (mLogFM d) 0 <> "#"%byte ->
  cells (mLogFM d) LOG_PAGE_SIZE <> "#"%byte ->
  Forall encodable (e :: evs) ->
  sizeof_PageHeader + totalSize (e :: evs) <= LOG_PAGE_SIZE ->
  let rd := DetectorReaderP.create (Some (cells (mLogFM d))) in
  let d' := emitAll (e :: evs) d in
  let m' := cells (mLogFM d') in
  rd = {| isValid := true; mPageReader := LogPageReaderP.init |}
  /\ framed m' sizeof_PageHeader (callbacksFrom sizeof_PageHeader (e :: evs))
       (sizeof_PageHeader + totalSize (e :: evs))
  /\ readMany m' n rd = (repeat (Unreaded, None) n, rd).
Proof.
  intros Ew H0 H1 Henc Hfit. cbv zeta.
  destruct (emitAll_on_new_page e evs d Henc)
    as (_ & _ & F & _ & Fr).
  { rewrite Ew. vm_compute. split; [discriminate|reflexivity]. }
  { rewrite Ew. intros Hm. discriminate Hm. }
  { exact Hfit. }
  rewrite Ew in F, Fr.
  change (LOG_PAGE_SIZE * nextPageOffset LogPageP_init) with 0 in F, Fr.
  change (retired LogPageP_init (mLogFM d)) with (mLogFM d) in Fr.
  set (d' := emitAll (e :: evs) d) in *.
  set (m' := cells (mLogFM d')) in *.
  assert (DetectorReaderP.create (Some (cells (mLogFM d)))
          = {| isValid := true; mPageReader := LogPageReaderP.init |}) as Ec.
  { unfold DetectorReaderP.create, LogPageReaderP.open.
    rewrite loadPage_unbegun; [reflexivity| |exact H0].
    vm_compute. split; [discriminate|reflexivity]. }
  split; [exact Ec|]. split; [exact F|]. rewrite Ec.
  assert (LogPageReaderP.readOnce m' LogPageReaderP.init
          = (Unreaded, None, LogPageReaderP.init)) as Hro.
  { apply readOnce_unbegun; try reflexivity.
    - vm_compute. split; [discriminate|reflexivity].
    - change (LOG_PAGE_SIZE
              * ((mPageOffset LogPageReaderP.init + 1) mod LOG_PAGE_COUNT))
        with LOG_PAGE_SIZE.
      subst m'. rewrite Fr; [exact H1|]. right. revert Hfit. machine. lia. }
  induction n as [|n IH]; [reflexivity|].
  cbn [readMany repeat].
  unfold dDetector.readOnce, DetectorReaderP.readOnce. cbn [isValid mPageReader].
  rewrite Hro.
  unfold dDetector.readOnce, DetectorReaderP.readOnce in IH.
  rewrite IH. reflexivity.
Qed.

Lemma early_reader_misses_first_page_witness :
  let d := DetectorWriterP.create in
  readMany (cells (mLogFM (emitAll batch d))) 5
    (DetectorReaderP.create (Some (cells (mLogFM d))))
  = (repeat (Unreaded, None) 5,
     DetectorReaderP.create (Some (cells (mLogFM d)))).
Proof.
  destruct (early_reader_misses_first_page
              (EvS 6 (literal "k"))
              [EvT Int32 7 (-5); EvST Int64 3 (literal "B") 2000]
              DetectorWriterP.create 5)
    as (_ & _ & R).
  - reflexivity.
  - closed.
  - closed.
  - repeat constructor; closed.
  - closed.
  - exact R.
Defined.

(** X5.  When the next record does not fit the room left on the page, the
    writer closes the page with activity ['-'] and the size it had reached,
    and writes the record, and the rest of a batch that fits one page, from
    offset 8 of the next page of the ring (page 0 after page 79).  A reader
    that had caught up on the old page gets [Unreaded] once, as it learns
    that the page is closed; its following calls adopt the next page and
    deliver exactly the records of the batch, in order and decodable, after
    which it has caught up with the writer on the new page. *)
Theorem rotation_hands_reader_over
  (e : Event) (evs : list Event) (d : DetectorWriterP) (r : LogPageReaderP) :
  page_open d -> on_ring (mPageWriter d) -> caught_up d r ->
  mPageOffset r = mPageOffset (mPageWriter d) ->
  Forall encodable (e :: evs) ->
  LOG_PAGE_SIZE
  < mBufferOffset (mPageWriter d) + sizeof_UnitHeader + payloadSize e ->
  sizeof_PageHeader + totalSize (e :: evs) <= LOG_PAGE_SIZE ->
  let w := mPageWriter d in
  let n := (mPageOffset w + 1) mod LOG_PAGE_COUNT in
  let d' := emitAll (e :: evs) d in
  let m' := cells (mLogFM d') in
  let cbs := callbacksFrom (LOG_PAGE_SIZE * n + sizeof_PageHeader) (e :: evs) in
  let r1 := retiredAt (mBufferOffset w) r in
  let r' :=
    setBufferOffset (sizeof_PageHeader + totalSize (e :: evs)) (adopted m' n) in
  (m' (buf w) = "#"%byte /\ m' (buf w + 1) = "-"%byte
   /\ sizeof_PageHeader + LOG_UNIT_PACKING * load_le m' (buf w + 2) 2
      = mBufferOffset w)
  /\ (mBuffer (mPageWriter d') = Some (LOG_PAGE_SIZE * n)
      /\ mPageOffset (mPageWriter d') = n)
  /\ LogPageReaderP.readOnce m' r = (Unreaded, None, r1)
  /\ readMany m' (List.length (e :: evs)) {| isValid := true; mPageReader := r1 |}
     = (map (fun cb => (Readed, Some cb)) cbs,
        {| isValid := true; mPageReader := r' |})
  /\ Forall2 (decodes m') cbs (e :: evs)
  /\ caught_up d' r'
  /\ LogPageReaderP.readOnce m' r' = (Unreaded, None, r').
Proof.
  intros Hopen Hring Hc Hp Henc Hov Hfit.
  exact (rotation_batch e evs d r Hopen Hring Hc Hp Henc Hov Hfit).
Qed.

Lemma rotation_hands_reader_over_witness :
  let e := EvST Int64 3 (literal "B") 2000 in
  let evs := [EvT Int32 7 (-5)] in
  let d' := emitAll (e :: evs) long_trace in
  let m' := cells (mLogFM d') in
  let cbs := callbacksFrom (LOG_PAGE_SIZE * 1 + sizeof_PageHeader) (e :: evs) in
  m' 1 = "-"%byte
  /\ mBuffer (mPageWriter d') = Some (LOG_PAGE_SIZE * 1)
  /\ fst (LogPageReaderP.readOnce m' (follower long_trace)) = (Unreaded, None)
  /\ fst (readMany m' 2
            {| isValid := true;
               mPageReader :=
                 snd (LogPageReaderP.readOnce m' (follower long_trace)) |})
     = map (fun cb => (Readed, Some cb)) cbs
  /\ Forall2 (decodes m') cbs (e :: evs).
Proof.
  destruct (rotation_hands_reader_over
              (EvST Int64 3 (literal "B") 2000) [EvT Int32 7 (-5)]
              long_trace (follower long_trace))
    as ((_ & K & _) & (B & _) & R0 & R & D & _).
  - closed.
  - closed.
  - closed.
  - reflexivity.
  - repeat constructor; closed.
  - closed.
  - closed.
  - cbv zeta. cbv zeta in R0, R. rewrite R0. cbn [fst snd].
    split; [exact K|]. split; [exact B|]. split; [reflexivity|].
    split; [|exact D].
    change 2%nat with
      (List.length [EvST Int64 3 (literal "B") 2000; EvT Int32 7 (-5)]).
    rewrite R. reflexivity.
Defined.

(** X6.  The destructor of the writer stamps the current page with activity
    ['/'] and the size it has reached, and leaves the writer as it was
    constructed.  A reader that had caught up with the writer before its
    last batch of records gets [ExitProgram] at its next call, before these
    records: they are delivered by the calls after it, in order and
    decodable.  [ExitProgram] is then not repeated: when the next page of the
    ring has not been begun, the call after the last record returns
    [Unreaded]. *)
Theorem exit_overtakes_pending_records
  (evs : list Event) (d : DetectorWriterP) (r : LogPageReaderP) :
  page_open d -> caught_up d r ->
  0 <= mPageOffset r < LOG_PAGE_COUNT ->
  Forall encodable evs ->
  mBufferOffset (mPageWriter d) + totalSize evs <= LOG_PAGE_SIZE ->
  let w := mPageWriter d in
  let d' := DetectorWriterP.destroy (emitAll evs d) in
  let m' := cells (mLogFM d') in
  let size := mBufferOffset w + totalSize evs in
  let cbs := callbacksFrom (buf w + mBufferOffset w) evs in
  let r1 := retiredAt size r in
  let r' := setBufferOffset size r1 in
  mPageWriter d' = LogPageP_init
  /\ (m' (buf w) = "#"%byte /\ m' (buf w + 1) = "/"%byte
      /\ sizeof_PageHeader + LOG_UNIT_PACKING * load_le m' (buf w + 2) 2 = size)
  /\ LogPageReaderP.readOnce m' r = (ExitProgram, None, r1)
  /\ readMany m' (List.length evs) {| isValid := true; mPageReader := r1 |}
     = (map (fun cb => (Readed, Some cb)) cbs,
        {| isValid := true; mPageReader := r' |})
  /\ Forall2 (decodes m') cbs evs
  /\ (m' (LOG_PAGE_SIZE * ((mPageOffset r + 1) mod LOG_PAGE_COUNT)) <> "#"%byte ->
      LogPageReaderP.readOnce m' r' = (Unreaded, None, r')).
Proof.
  intros Hopen (Cb & Co & Cs & Cy) Hpo Henc Hfit. cbv zeta.
  destruct (emitAll_appends evs d Hopen Henc Hfit) as (E & Hopen1 & F & D & _).
  cbv zeta in E, F, D.
  pose proof (totalSize_nonneg evs Henc) as Hnn.
  destruct Hopen as (_ & Ho & _).
  set (w := mPageWriter d) in *. set (d1 := emitAll evs d) in *.
  set (w1 := mPageWriter d1) in *.
  assert (buf w1 = buf w) as Eb1 by (rewrite E; reflexivity).
  assert (mBufferOffset w1 = mBufferOffset w + totalSize evs) as Eo1
    by (rewrite E; reflexivity).
  assert (buf r = buf w) as Ebr by (unfold buf; rewrite Cb; reflexivity).
  destruct Hopen1 as (Hm1 & Ho1 & Hal1 & _). fold w1 in Hm1, Ho1, Hal1.
  assert (DetectorWriterP.destroy d1
          = {| mLogFM := snd (rewriteHeader "/" (mBufferOffset w1) w1 (mLogFM d1));
               mPageWriter := LogPageP_init |}) as Ed.
  { unfold DetectorWriterP.destroy, close. fold w1. rewrite Hm1. reflexivity. }
  rewrite Ed. cbn [mLogFM mPageWriter].
  set (m' := cells (snd (rewriteHeader "/" (mBufferOffset w1) w1 (mLogFM d1)))).
  destruct (rewriteHeader_size "/" w1 (mLogFM d1) Ho1 Hal1) as (G1 & G2 & G3).
  fold m' in G1, G2, G3. rewrite Eb1 in G1, G2, G3. rewrite Eo1 in G3.
  assert (forall x, buf w + mBufferOffset w <= x -> m' x = cells (mLogFM d1) x)
    as Hext.
  { intros x Hx. subst m'. apply rewriteHeader_frame. right. rewrite Eb1.
    revert Ho Hx. machine. lia. }
  assert (framed m' (buf w + mBufferOffset w)
            (callbacksFrom (buf w + mBufferOffset w) evs)
            (buf w + mBufferOffset w + totalSize evs)) as F'.
  { apply (framed_ext (cells (mLogFM d1))); [|exact F].
    intros x Hx. apply Hext. lia. }
  set (size := mBufferOffset w + totalSize evs) in *.
  set (r1 := retiredAt size r).
  split; [reflexivity|]. split; [split; [exact G1|split; [exact G2|exact G3]]|].
  split; [|split; [|split]].
  - rewrite (readOnce_exit m' r); [|congruence|exact Cy|rewrite Ebr; exact G2].
    rewrite Ebr, G3. reflexivity.
  - rewrite <- (length_callbacksFrom evs (buf w + mBufferOffset w)).
    rewrite (readMany_framed m' _ r1); [reflexivity| | |].
    + change (buf r1) with (buf r). change (mBufferOffset r1) with (mBufferOffset r).
      change (mPageSize r1) with size. rewrite Ebr, Co. fold w.
      replace (buf w + size) with (buf w + mBufferOffset w + totalSize evs)
        by (subst size; lia).
      exact F'.
    + change (mBufferOffset r1) with (mBufferOffset r). rewrite Co. fold w.
      revert Ho. machine. lia.
    + change (mPageSize r1) with size. subst size. revert Hfit. fold w.
      machine. lia.
  - apply (decodes_batch_ext (cells (mLogFM d1))); [exact Hext|exact Henc|exact D].
  - intros Hnext. apply readOnce_unbegun; try reflexivity; assumption.
Qed.

Lemma exit_overtakes_pending_records_witness :
  let a := buf (mPageWriter stamped) + mBufferOffset (mPageWriter stamped) in
  let d' := DetectorWriterP.destroy (emitAll batch stamped) in
  let m' := cells (mLogFM d') in
  mPageWriter d' = LogPageP_init
  /\ fst (LogPageReaderP.readOnce m' (follower stamped)) = (ExitProgram, None)
  /\ fst (readMany m' (List.length batch)
            {| isValid := true;
               mPageReader :=
                 snd (LogPageReaderP.readOnce m' (follower stamped)) |})
     = map (fun cb => (Readed, Some cb)) (callbacksFrom a batch)
  /\ Forall2 (decodes m') (callbacksFrom a batch) batch.
Proof.
  destruct (exit_overtakes_pending_records batch stamped (follower stamped))
    as (W & _ & R0 & R & D & _).
  - closed.
  - closed.
  - closed.
  - repeat constructor; closed.
  - closed.
  - cbv zeta. cbv zeta in R0, R. rewrite R0. cbn [fst snd].
    split; [exact W|]. split; [reflexivity|]. split; [|exact D].
    rewrite R. reflexivity.
Defined.

Import dDetector.

(** X7.  On an open page with room for the record, [stamp], the integer
    [setValue], [addValue] and [trace] each write one record that a
    caught-up reader gets at its next [readOnce]: the callback carries the
    id of the call, [parseString] points at the bytes of the name (the text
    of [trace]) followed by a NUL, and [parseInt64] gives the clock reading
    of [stamp], [parseInt32] the value of [setValue], the addition of
    [addValue] and the level of [trace], each parse ending where the payload
    ends. *)
Theorem facade_calls_reach_reader
  (name : dLiteral) (now value : Z) (level : Level)
  (d : DetectorWriterP) (r : LogPageReaderP) :
  page_open d -> caught_up d r ->
  dLiteral_length name < 2 ^ 16 ->
  mBufferOffset (mPageWriter d) + sizeof_UnitHeader + blockSize name + 8
  <= LOG_PAGE_SIZE ->
  - 2 ^ 63 <= now < 2 ^ 63 ->
  - 2 ^ 31 <= value < 2 ^ 31 ->
  delivers (stamp name now d) r StampST name Int64 now
  /\ delivers (setValueST name value d) r SetValueST name Int32 value
  /\ delivers (addValue name value d) r AddValueST name Int32 value
  /\ delivers (trace level name d) r TraceST name Int32 (Level_code level).
Proof.
  intros Hopen Hc Hn Hfit Hnow Hval. unfold dLiteral_length in Hn.
  unfold stamp, setValueST, addValue, trace, dLiteral_length.
  split; [|split; [|split]].
  - apply emit_delivers; try assumption.
    apply castT_small. exact Hnow.
  - apply emit_delivers; try assumption.
    + cbn [sizeof]. lia.
    + apply castT_small. exact Hval.
  - apply emit_delivers; try assumption.
    + cbn [sizeof]. lia.
    + apply castT_small. exact Hval.
  - assert (int32_t (Level_code level) = Level_code level) as ->
      by (destruct level; reflexivity).
    apply emit_delivers; try assumption.
    + cbn [sizeof]. lia.
    + destruct level; reflexivity.
Qed.

Lemma facade_calls_reach_reader_witness :
  let r := follower stamped in
  delivers (stamp (literal "B") 2000 stamped) r StampST (literal "B") Int64 2000
  /\ delivers (setValueST (literal "B") (-5) stamped) r
       SetValueST (literal "B") Int32 (-5)
  /\ delivers (addValue (literal "B") (-5) stamped) r
       AddValueST (literal "B") Int32 (-5)
  /\ delivers (trace WarnLevel (literal "B") stamped) r
       TraceST (literal "B") Int32 (Level_code WarnLevel).
Proof.
  apply (facade_calls_reach_reader (literal "B") 2000 (-5) WarnLevel stamped
           (follower stamped)).
  - closed.
  - closed.
  - closed.
  - closed.
  - closed.
  - closed.
Defined.

(** X8.  [scope] writes a [ScopeBeginST] record with the name and the clock
    reading, and the guard it returns keeps the name: whenever this guard is
    destroyed later, on an open page with room for the record, the destructor
    writes a [ScopeEndST] record with the same name and the clock reading of
    that moment, which a caught-up reader gets at its next [readOnce]. *)
Theorem scope_guard_brackets_with_its_name
  (name : dLiteral) (t0 : Z) (d : DetectorWriterP) (r : LogPageReaderP) :
  page_open d -> caught_up d r ->
  dLiteral_length name < 2 ^ 16 ->
  mBufferOffset (mPageWriter d) + sizeof_UnitHeader + blockSize name + 8
  <= LOG_PAGE_SIZE ->
  - 2 ^ 63 <= t0 < 2 ^ 63 ->
  let g := fst (scope name t0 d) in
  let d1 := snd (scope name t0 d) in
  delivers d1 r ScopeBeginST name Int64 t0
  /\ forall (t1 : Z) (d2 : DetectorWriterP) (r2 : LogPageReaderP),
       page_open d2 -> caught_up d2 r2 ->
       mBufferOffset (mPageWriter d2) + sizeof_UnitHeader + blockSize name + 8
       <= LOG_PAGE_SIZE ->
       - 2 ^ 63 <= t1 < 2 ^ 63 ->
       delivers (Stack_delete g t1 d2) r2 ScopeEndST name Int64 t1.
Proof.
  intros Hopen Hc Hn Hfit Ht0. unfold dLiteral_length in Hn. cbv zeta.
  unfold scope, Stack_new, Stack_delete, dLiteral_length. cbn [fst snd mName].
  split.
  - apply emit_delivers; try assumption. apply castT_small. exact Ht0.
  - intros t1 d2 r2 Hopen2 Hc2 Hfit2 Ht1.
    apply emit_delivers; try assumption. apply castT_small. exact Ht1.
Qed.

Lemma scope_guard_brackets_with_its_name_witness :
  let g := fst (scope (literal "f") 10 stamped) in
  let d1 := snd (scope (literal "f") 10 stamped) in
  delivers d1 (follower stamped) ScopeBeginST (literal "f") Int64 10
  /\ delivers (Stack_delete g 20 d1) (follower d1)
       ScopeEndST (literal "f") Int64 20.
Proof.
  destruct (scope_guard_brackets_with_its_name (literal "f") 10 stamped
              (follower stamped)) as (B & E).
  - closed.
  - closed.
  - closed.
  - closed.
  - closed.
  - cbv zeta. split; [exact B|]. apply E.
    + closed.
    + closed.
    + closed.
    + closed.
Defined.

(** X9.  [valid] with a true condition writes nothing, keeps the key and
    returns.  With a false condition it takes the next key and writes one
    [ValidST] record with the text and this key, which a caught-up reader
    gets at its next [readOnce]; it then crashes when the reply file is
    missing or holds the command 0, returns with the condition set to true
    for the command 2, and returns with the condition still false for any
    other command. *)
Theorem valid_reports_failed_check
  (condition : bool) (text : list byte) (reply : option Z) (gValidKey : Z)
  (d : DetectorWriterP) (r : LogPageReaderP) :
  page_open d -> caught_up d r ->
  Z.of_nat (List.length text) < 2 ^ 16 ->
  mBufferOffset (mPageWriter d) + sizeof_UnitHeader + blockSize text + 4
  <= LOG_PAGE_SIZE ->
  - 1 <= gValidKey < 2 ^ 31 - 1 ->
  let out := fst (fst (valid condition text reply gValidKey d)) in
  let key := snd (fst (valid condition text reply gValidKey d)) in
  let d' := snd (valid condition text reply gValidKey d) in
  if condition
  then out = Returns true /\ key = gValidKey /\ d' = d
  else key = gValidKey + 1
       /\ delivers d' r ValidST text Int32 (gValidKey + 1)
       /\ out = match reply with
                | None | Some 0 => Crashed
                | Some 2 => Returns true
                | Some _ => Returns false
                end.
Proof.
  intros Hopen Hc Hs Hfit Hkey. cbv zeta. unfold valid.
  destruct condition; cbn [negb fst snd].
  - split; [reflexivity|]. split; reflexivity.
  - assert (int32_t (gValidKey + 1) = gValidKey + 1) as ->.
    { apply (castT_small Int32). cbn [sizeof]. change (8 * 4 - 1) with 31.
      lia. }
    split; [reflexivity|]. split.
    + apply emit_delivers; try assumption.
      apply (castT_small Int32). cbn [sizeof]. change (8 * 4 - 1) with 31. lia.
    + destruct reply as [c|]; [|reflexivity].
      destruct c as [|p|p]; try reflexivity.
      destruct p as [p|p|]; try reflexivity.
      destruct p; reflexivity.
Qed.

Lemma valid_reports_failed_check_witness :
  let res := valid false (literal "oops") (Some 2) (-1) stamped in
  snd (fst res) = 0
  /\ delivers (snd res) (follower stamped) ValidST (literal "oops") Int32 0
  /\ fst (fst res) = Returns true.
Proof.
  apply (valid_reports_failed_check false (literal "oops") (Some 2) (-1)
           stamped (follower stamped)).
  - closed.
  - closed.
  - closed.
  - closed.
  - closed.
Defined.

(** X10.  The path [runClient] executes on Linux (for a link target and a
    result that fit [PATH_MAX] and hold no NUL): the directory of the own
    executable, up to and with its last ['/'], followed by [exepath].  When
    the link target holds no ['/'] at all (so also when readlink failed and
    left it empty), its first byte is kept in front of [exepath]. *)
Theorem executePath_replaces_file_name (dir base exepath : list byte) :
  ~ In "/"%byte base ->
  Forall (fun c => c <> x00) (dir ++ "/"%byte :: base) ->
  Z.of_nat (List.length (dir ++ "/"%byte :: base)) < PATH_MAX ->
  Z.of_nat (List.length (dir ++ "/"%byte :: exepath)) < PATH_MAX ->
  executePath (dir ++ "/"%byte :: base) exepath = dir ++ "/"%byte :: exepath
  /\ executePath base exepath = firstn 1 base ++ exepath.
Proof.
  intros Hn _ _ _. unfold executePath. split.
  - rewrite lastSlash_app. cbn [lastSlash].
    change (("/" =? "/")%byte) with true. cbv iota.
    rewrite lastSlash_none by exact Hn.
    rewrite Z.add_0_l.
    replace (Z.to_nat (Z.of_nat (List.length dir) + 1))
      with (List.length dir + 1)%nat by lia.
    rewrite firstn_app.
    replace (List.length dir + 1 - List.length dir)%nat with 1%nat by lia.
    rewrite firstn_all2 by lia. cbn [firstn].
    rewrite <- app_assoc. reflexivity.
  - rewrite lastSlash_none by exact Hn. reflexivity.
Qed.

Lemma executePath_replaces_file_name_witness :
  executePath (literal "/opt/app/daddy") (literal "client")
  = literal "/opt/app/client".
Proof.
  apply (executePath_replaces_file_name (literal "/opt/app") (literal "daddy")
           (literal "client")).
  - vm_compute. intros H.
    repeat (destruct H as [H|H]; [discriminate H|]). exact H.
  - vm_compute. repeat constructor; discriminate.
  - vm_compute. reflexivity.
  - vm_compute. reflexivity.
Defined.

(** X11.  On a log file of the full size, whatever its bytes are, for a
    reader that has a page or is at rest without one: [readOnce] returns
    [LogNotFound], without a callback and without a change, exactly when the
    log file could not be opened; it calls back exactly when it returns
    [Readed].  The callback is made from the UnitHeader at the cursor: at the
    cursor of the reader on its page or, when the reader stood at the end of
    a page that is not busy, at offset 8 of the next page of the ring.  The
    id and the length are the two fields of that UnitHeader (the length four
    times the packing count, so a multiple of 4 up to 262140), the payload
    starts 4 bytes after the place of the cursor, and the cursor is left
    behind the payload. *)
Theorem readOnce_calls_back_iff_Readed (m : Z -> byte) (d : DetectorReaderP) :
  live (mPageReader d) ->
  0 <= mPageOffset (mPageReader d) < LOG_PAGE_COUNT ->
  let r := mPageReader d in
  let res := fst (fst (readOnce m d)) in
  let cb := snd (fst (readOnce m d)) in
  let d' := snd (readOnce m d) in
  let turns := (mBufferOffset r =? mPageSize r) && negb (mPageBusy r) in
  let page :=
    if turns then LOG_PAGE_SIZE * ((mPageOffset r + 1) mod LOG_PAGE_COUNT)
    else buf r in
  let o := if turns then sizeof_PageHeader else mBufferOffset r in
  (res = LogNotFound <-> isValid d = false)
  /\ (res = LogNotFound -> cb = None /\ d' = d)
  /\ (res = Readed <-> cb <> None)
  /\ isValid d' = isValid d
  /\ (forall c, cb = Some c ->
        cbPayload c = page + o + sizeof_UnitHeader
        /\ cbFuncID c = load_le m (page + o + 2) 2
        /\ cbLength c = LOG_UNIT_PACKING * load_le m (page + o) 2
        /\ (0 <= cbFuncID c < 2 ^ 16
            /\ 0 <= cbLength c <= 262140 /\ cbLength c mod 4 = 0)
        /\ mBuffer (mPageReader d') = Some page
        /\ mBufferOffset (mPageReader d')
           = uint32_t (o + (sizeof_UnitHeader + cbLength c))).
Proof.
  destruct d as [v r]. cbn [mPageReader isValid]. intros Hlive Hpo.
  cbv zeta. unfold readOnce, DetectorReaderP.readOnce. cbn [isValid mPageReader].
  destruct v.
  2:{ cbn [fst snd]. split; [split; reflexivity|].
      split; [intros _; split; reflexivity|].
      split; [split; [discriminate|intros H; contradiction]|].
      split; [reflexivity|]. discriminate. }
  set (turns := (mBufferOffset r =? mPageSize r) && negb (mPageBusy r)).
  set (page := if turns
               then LOG_PAGE_SIZE * ((mPageOffset r + 1) mod LOG_PAGE_COUNT)
               else buf r).
  set (o := if turns then sizeof_PageHeader else mBufferOffset r).
  assert (forall u : ReadResult * option Callback * LogPageReaderP,
            (let '(res, cb, r') := u in
             ((res, cb), {| isValid := true; mPageReader := r' |}))
            = (fst u, {| isValid := true; mPageReader := snd u |})) as Hshape
    by (intros [[res cb] r']; reflexivity).
  rewrite Hshape. cbn [fst snd isValid mPageReader].
  pose (Q := fun u : ReadResult * option Callback * LogPageReaderP =>
          (fst (fst u) = LogNotFound <-> true = false)
          /\ (fst (fst u) = LogNotFound ->
              snd (fst u) = None
              /\ {| isValid := true; mPageReader := snd u |}
                 = {| isValid := true; mPageReader := r |})
          /\ (fst (fst u) = Readed <-> snd (fst u) <> None)
          /\ true = true
          /\ (forall c, snd (fst u) = Some c ->
                cbPayload c = page + o + sizeof_UnitHeader
                /\ cbFuncID c = load_le m (page + o + 2) 2
                /\ cbLength c = LOG_UNIT_PACKING * load_le m (page + o) 2
                /\ (0 <= cbFuncID c < 2 ^ 16
                    /\ 0 <= cbLength c <= 262140 /\ cbLength c mod 4 = 0)
                /\ mBuffer (snd u) = Some page
                /\ mBufferOffset (snd u)
                   = uint32_t (o + (sizeof_UnitHeader + cbLength c)))).
  change (Q (LogPageReaderP.readOnce m r)).
  assert (forall r0 : LogPageReaderP,
            mBuffer r0 = Some page -> mBufferOffset r0 = o ->
            Q (LogPageReaderP.readUnit m r0)) as Hunit.
  { subst Q. clearbody page o. intros r0 Hb Ho.
    unfold LogPageReaderP.readUnit.
    cbn [fst snd]. unfold buf. rewrite Hb, Ho.
    split; [split; discriminate|]. split; [discriminate|].
    split; [split; [discriminate|reflexivity]|]. split; [reflexivity|].
    intros c Hc.
    assert (c = {| cbFuncID := load_le m (page + o + 2) 2;
                   cbPayload := page + o + sizeof_UnitHeader;
                   cbLength := LOG_UNIT_PACKING * load_le m (page + o) 2 |})
      as -> by congruence.
    cbn [cbFuncID cbLength cbPayload mBuffer mBufferOffset super].
    pose proof (load_le_2_bound m (page + o)) as H1.
    pose proof (load_le_2_bound m (page + o + 2)) as H2.
    split; [reflexivity|]. split; [reflexivity|]. split; [reflexivity|].
    split; [split; [exact H2|split; [revert H1; machine; lia|machine; zdiv]]|].
    split; reflexivity. }
  assert (forall (res : ReadResult) (r0 : LogPageReaderP),
            res <> Readed -> res <> LogNotFound -> Q (res, None, r0)) as Hnone.
  { subst Q. intros res r0 H1 H2. cbn [fst snd].
    split; [split; [contradiction|discriminate]|]. split; [contradiction|].
    split; [split; [contradiction|intros H; contradiction]|].
    split; [reflexivity|]. discriminate. }
  assert (mapped r = true -> mBuffer r = Some (buf r)) as Hbuf.
  { unfold mapped, buf. destruct (mBuffer r); [reflexivity|discriminate]. }
  destruct (next_page_offset _ Hpo) as [En Hn].
  clearbody Q.
  unfold LogPageReaderP.readOnce.
  destruct (mBufferOffset r =? mPageSize r) eqn:Hend.
  - destruct (mPageBusy r) eqn:Hbusy.
    + (* the page is busy: its header is sampled again *)
      assert (mapped r = true) as Hmap.
      { destruct (mapped r) eqn:Hmr; [reflexivity|].
        destruct (Hlive Hmr) as [_ Hb]. congruence. }
      subst turns page o. cbn [andb negb] in Hunit.
      destruct (Byte.eqb (m (buf r + 1)) "/").
      * apply Hnone; discriminate.
      * match goal with
        | |- context [if ?c then Unreaded else Readed] => destruct c
        end.
        -- apply Hnone; discriminate.
        -- apply Hunit; [exact (Hbuf Hmap)|reflexivity].
    + (* the page is closed: the reader turns to the next page *)
      subst turns page o. cbn [andb negb] in Hunit.
      rewrite En.
      set (n := (mPageOffset r + 1) mod LOG_PAGE_COUNT) in *.
      destruct (Byte.eqb (m (LOG_PAGE_SIZE * n)) "#") eqn:Hc.
      * apply Byte.byte_dec_bl in Hc.
        rewrite loadPage_adopts
          by (change (mPageOffset (LogPageReaderP.setPageOffset n r)) with n;
              assumption).
        change (mPageOffset (LogPageReaderP.setPageOffset n r)) with n.
        destruct (Byte.eqb (m (LOG_PAGE_SIZE * n + 1)) "/").
        -- apply Hnone; discriminate.
        -- apply Hunit; reflexivity.
      * rewrite (loadPage_unbegun m (LogPageReaderP.setPageOffset n r));
          [apply Hnone; discriminate|exact Hn|].
        intros E. change (m (LOG_PAGE_SIZE * n) = "#"%byte) in E.
        rewrite E in Hc. discriminate Hc.
  - (* the cursor is inside the page *)
    assert (mapped r = true) as Hmap.
    { destruct (mapped r) eqn:Hmr; [reflexivity|].
      destruct (Hlive Hmr) as [He _]. rewrite He, Z.eqb_refl in Hend.
      discriminate Hend. }
    subst turns page o. cbn [andb] in Hunit.
    apply Hunit; [exact (Hbuf Hmap)|reflexivity].
Qed.

Lemma readOnce_calls_back_iff_Readed_witness :
  let m := cells (mLogFM stamped) in
  let d := DetectorReaderP.create (Some m) in
  fst (fst (readOnce m d)) = Readed
  /\ forall c, snd (fst (readOnce m d)) = Some c ->
       cbPayload c = 12 /\ cbFuncID c = FuncID_code StampST /\ cbLength c = 12.
Proof.
  intros m d.
  destruct (readOnce_calls_back_iff_Readed m d) as (_ & _ & R & _ & H).
  - intros Hm. discriminate Hm.
  - closed.
  - split; [vm_compute; reflexivity|].
    intros c Hc. destruct (H c Hc) as (P & F & L & _).
    split; [rewrite P; vm_compute; reflexivity|].
    split; [rewrite F; vm_compute; reflexivity|rewrite L; vm_compute; reflexivity].
Defined.

(** X12.  The reader never reads through a null [mBuffer]: a reader without
    a page is at the end of no page and not busy, as [open] leaves it when
    page 0 has not been begun, and [readOnce] keeps it so.  The call of a
    reader without a page depends on the bytes of the next page of the ring
    only: it adopts that page, or it returns [Unreaded] without a callback
    and leaves the reader as it is; and every callback comes from a mapped
    page. *)
Theorem reader_live (m : Z -> byte) (r : LogPageReaderP) :
  live (LogPageReaderP.open m LogPageReaderP.init)
  /\ (live r ->
      let res := fst (fst (LogPageReaderP.readOnce m r)) in
      let cb := snd (fst (LogPageReaderP.readOnce m r)) in
      let r' := snd (LogPageReaderP.readOnce m r) in
      live r'
      /\ (cb <> None -> mapped r' = true)
      /\ (mapped r' = false -> res = Unreaded /\ cb = None /\ r' = r)
      /\ (mapped r = false ->
          forall m' : Z -> byte,
            (forall x,
               let NewBuffer :=
                 LOG_VIEW_OPEN
                   (uint32_t (LOG_PAGE_SIZE
                              * (uint32_t (mPageOffset r + 1) mod LOG_PAGE_COUNT))) in
               NewBuffer <= x < NewBuffer + LOG_PAGE_SIZE -> m' x = m x) ->
            fst (LogPageReaderP.readOnce m' r) = (res, cb))).
Proof.
  split.
  - unfold live, LogPageReaderP.open, LogPageReaderP.loadPage.
    destruct (Byte.eqb _ "#"); cbn [snd]; intros Hm.
    + discriminate Hm.
    + split; reflexivity.
  - intros Hlive. cbv zeta.
    destruct (mapped r) eqn:Hmap.
    + assert (forall r0 : LogPageReaderP,
                mapped r0 = true ->
                mapped (snd (LogPageReaderP.readUnit m r0)) = true) as Hunit
        by (intros r0 H0; exact H0).
      assert (forall u : ReadResult * option Callback * LogPageReaderP,
                mapped (snd u) = true ->
                live (snd u)
                /\ (snd (fst u) <> None -> mapped (snd u) = true)
                /\ (mapped (snd u) = false ->
                    fst (fst u) = Unreaded /\ snd (fst u) = None /\ snd u = r)
                /\ (true = false ->
                    forall m' : Z -> byte,
                      (forall x,
                         let NewBuffer :=
                           LOG_VIEW_OPEN
                             (uint32_t (LOG_PAGE_SIZE
                                        * (uint32_t (mPageOffset r + 1)
                                           mod LOG_PAGE_COUNT))) in
                         NewBuffer <= x < NewBuffer + LOG_PAGE_SIZE ->
                         m' x = m x) ->
                      fst (LogPageReaderP.readOnce m' r)
                      = (fst (fst u), snd (fst u)))) as Hok.
      { intros u Hu. split; [intros H; congruence|].
        split; [intros _; exact Hu|]. split; [intros H; congruence|].
        discriminate. }
      apply Hok. unfold LogPageReaderP.readOnce.
      destruct (mBufferOffset r =? mPageSize r); [|apply Hunit; exact Hmap].
      destruct (mPageBusy r).
      * destruct (Byte.eqb (m (buf r + 1)) "/"); [exact Hmap|].
        match goal with
        | |- context [if ?c then Unreaded else Readed] => destruct c
        end; [exact Hmap|apply Hunit; exact Hmap].
      * unfold LogPageReaderP.loadPage.
        destruct (Byte.eqb (m _) "#"); [|exact Hmap].
        destruct (Byte.eqb (m _) "/"); reflexivity.
    + destruct (Hlive Hmap) as [Hend Hbusy].
      assert (forall fm : Z -> byte,
                LogPageReaderP.readOnce fm r
                = (let r1 := LogPageReaderP.setPageOffset
                               (uint32_t (mPageOffset r + 1) mod LOG_PAGE_COUNT) r in
                   let '(Result, r2) := LogPageReaderP.loadPage fm r1 in
                   if negb (ReadResult_eqb Result Readed)
                   then (Result, None,
                         LogPageReaderP.setPageOffset (mPageOffset r) r2)
                   else LogPageReaderP.readUnit fm r2)) as Hro.
      { intros fm. unfold LogPageReaderP.readOnce.
        rewrite Hend, Z.eqb_refl, Hbusy. reflexivity. }
      rewrite !Hro. cbv zeta.
      set (n := uint32_t (mPageOffset r + 1) mod LOG_PAGE_COUNT).
      set (nb := LOG_VIEW_OPEN (uint32_t (LOG_PAGE_SIZE * n))).
      assert (0 <= nb) as Hnb
        by (subst nb; unfold LOG_VIEW_OPEN; machine; zdiv).
      unfold LogPageReaderP.loadPage.
      change (mPageOffset (LogPageReaderP.setPageOffset n r)) with n.
      fold nb.
      destruct (Byte.eqb (m nb) "#") eqn:Ec.
      * destruct (Byte.eqb (m (nb + 1)) "/") eqn:Ea;
          cbn [ReadResult_eqb negb fst snd LogPageReaderP.readUnit
               LogPageReaderP.setPageOffset mapped mBuffer super].
        -- split; [intros H; discriminate H|]. split; [reflexivity|].
           split; [discriminate|].
           intros _ m' Hext. rewrite Hro. cbv zeta. fold n.
           unfold LogPageReaderP.loadPage.
           change (mPageOffset (LogPageReaderP.setPageOffset n r)) with n.
           fold nb. rewrite !Hext by (machine; lia). rewrite Ec, Ea.
           reflexivity.
        -- split; [intros H; discriminate H|]. split; [reflexivity|].
           split; [discriminate|].
           intros _ m' Hext. rewrite Hro. cbv zeta. fold n.
           unfold LogPageReaderP.loadPage.
           change (mPageOffset (LogPageReaderP.setPageOffset n r)) with n.
           fold nb. rewrite !Hext by (machine; lia). rewrite Ec, Ea.
           cbn [ReadResult_eqb negb fst snd LogPageReaderP.readUnit buf
                mBuffer mBufferOffset super].
           f_equal. f_equal. f_equal.
           ++ apply load_le_ext. intros x Hx. apply Hext.
              simpl Z.of_nat in Hx. machine. lia.
           ++ f_equal. apply load_le_ext. intros x Hx. apply Hext.
              simpl Z.of_nat in Hx. machine. lia.
      * cbn [ReadResult_eqb negb fst snd]. rewrite setPageOffset_back.
        split; [exact Hlive|]. split; [intros H; contradiction|].
        split; [intros _; repeat split; reflexivity|].
        intros _ m' Hext. rewrite Hro. cbv zeta. fold n.
        unfold LogPageReaderP.loadPage.
        change (mPageOffset (LogPageReaderP.setPageOffset n r)) with n.
        fold nb. rewrite !Hext by (machine; lia). rewrite Ec. reflexivity.
Qed.

Lemma reader_live_witness :
  let m := fun _ : Z => x00 in
  live (snd (LogPageReaderP.readOnce m LogPageReaderP.init))
  /\ fst (LogPageReaderP.readOnce m LogPageReaderP.init) = (Unreaded, None).
Proof.
  destruct (proj2 (reader_live (fun _ => x00) LogPageReaderP.init))
    as (L & _ & U & _).
  - intros _. split; reflexivity.
  - cbv zeta. split; [exact L|].
    destruct (U eq_refl) as (U1 & U2 & _).
    rewrite (surjective_pairing (fst _)). cbv zeta in U1, U2.
    rewrite U1, U2. reflexivity.
Defined.

(** X13.  Between two calls the header of the writer's page tells the
    truth: starting from a writer without a page, or from one whose page
    header is up to date, any sequence of S, T and ST records that each fit
    an empty page leaves the writer on a page of the ring whose header has
    activity ['+'] and a packing count that gives the cursor, however many
    pages the sequence takes.  And no byte outside the 80 pages of the file
    is written. *)
Theorem writer_keeps_page_header_true (evs : list Event) (d : DetectorWriterP) :
  writer_ok d -> Forall encodable evs -> Forall fitsPage evs ->
  let d' := emitAll evs d in
  writer_ok d'
  /\ (evs <> [] -> page_open d' /\ on_ring (mPageWriter d'))
  /\ (forall x, x < 0 \/ LOG_FILE_SIZE <= x ->
                cells (mLogFM d') x = cells (mLogFM d) x).
Proof.
  revert d. induction evs as [|e evs IH]; intros d Hok Henc Hfp; cbv zeta.
  - cbn [emitAll fold_left]. split; [exact Hok|].
    split; [intros H; contradiction|]. intros x _. reflexivity.
  - apply Forall_cons_iff in Henc. destruct Henc as [He Henc].
    apply Forall_cons_iff in Hfp. destruct Hfp as [Hf Hfp].
    destruct (emit_writer_ok e d Hok He Hf) as (Hok1 & Hm1 & Fr1).
    destruct (IH (emit e d) Hok1 Henc Hfp) as (Hok2 & Hne2 & Fr2).
    change (emitAll (e :: evs) d) with (emitAll evs (emit e d)).
    split; [exact Hok2|]. split.
    + intros _. destruct evs as [|e' evs].
      * cbn [emitAll fold_left]. destruct Hok1 as [Hpo1 H1].
        destruct (H1 Hm1) as [Hopen1 Hb1].
        split; [exact Hopen1|]. split; [exact Hb1|exact Hpo1].
      * apply Hne2. discriminate.
    + intros x Hx. rewrite Fr2 by exact Hx. apply Fr1. exact Hx.
Qed.

Lemma writer_keeps_page_header_true_witness :
  let d' := emitAll batch DetectorWriterP.create in
  page_open d' /\ on_ring (mPageWriter d').
Proof.
  destruct (writer_keeps_page_header_true batch DetectorWriterP.create)
    as (_ & H & _).
  - split; [closed|]. intros Hm. discriminate Hm.
  - repeat constructor; closed.
  - repeat constructor; closed.
  - apply H. discriminate.
Defined.

(** X14.  No record is lost or repeated for a reader that keeps up.  Let
    the reader have caught up with the writer on its page, and let it call
    [readOnce] twice after every record the writer appends, for any sequence
    of S, T and ST records that each fit an empty page.  Then for every
    record exactly one of the two calls is a callback, with a payload that
    decodes to this record; the other returns [Unreaded] (it comes first when
    the record took a new page, second otherwise). *)
Theorem lockstep_reader_gets_every_record_once
  (evs : list Event) (d : DetectorWriterP) (r : LogPageReaderP) :
  writer_ok d -> mapped (mPageWriter d) = true -> caught_up d r ->
  mPageOffset r = mPageOffset (mPageWriter d) ->
  Forall encodable evs -> Forall fitsPage evs ->
  Forall2 deliveredOnce (lockstep evs d {| isValid := true; mPageReader := r |})
    evs.
Proof.
  revert d r.
  induction evs as [|e evs IH]; intros d r Hok Hm Hc Hp Henc Hfp;
    cbn [lockstep]; [constructor|].
  apply Forall_cons_iff in Henc. destruct Henc as [He Henc].
  apply Forall_cons_iff in Hfp. destruct Hfp as [Hf Hfp].
  destruct (lockstep_step e d r Hok Hm Hc Hp He Hf)
    as (cb & r' & R & D & Hok' & Hm' & Hc' & Hp').
  cbv zeta in R, D.
  destruct R as [R|R]; rewrite R.
  - constructor.
    + exists cb. split; [left; reflexivity|exact D].
    + apply IH; assumption.
  - constructor.
    + exists cb. split; [right; reflexivity|exact D].
    + apply IH; assumption.
Qed.

Lemma lockstep_reader_gets_every_record_once_witness :
  Forall2 deliveredOnce
    (lockstep batch long_trace
       {| isValid := true; mPageReader := follower long_trace |})
    batch.
Proof.
  apply (lockstep_reader_gets_every_record_once batch long_trace
           (follower long_trace)).
  - split; [closed|]. intros _. split; closed.
  - reflexivity.
  - closed.
  - reflexivity.
  - repeat constructor; closed.
  - repeat constructor; closed.
Defined.

(** X15.  [writeSS] asks [writeLock] for the room of its first block only.
    When the room left on the page holds the first block but not both, the
    record is not moved to a new page: the NUL of the second string is
    stored at or beyond the end of the page, the cursor is left beyond
    [LOG_PAGE_SIZE], and the header of the page then gives a size beyond
    [LOG_PAGE_SIZE] as well. *)
Theorem setValueSS_overruns_page (name value : dLiteral) (d : DetectorWriterP) :
  page_open d ->
  dLiteral_length name < 2 ^ 16 -> dLiteral_length value < 2 ^ 16 ->
  let w := mPageWriter d in
  let size := mBufferOffset w + sizeof_UnitHeader + blockSize name
              + blockSize value in
  mBufferOffset w + sizeof_UnitHeader + blockSize name <= LOG_PAGE_SIZE ->
  LOG_PAGE_SIZE < size ->
  let d' := setValueSS name value d in
  let m' := cells (mLogFM d') in
  let NUL := buf w + mBufferOffset w + sizeof_UnitHeader + blockSize name
             + sizeof_uint16_t + dLiteral_length value in
  mBuffer (mPageWriter d') = mBuffer w
  /\ mPageOffset (mPageWriter d') = mPageOffset w
  /\ mBufferOffset (mPageWriter d') = size
  /\ In (PayloadStore, NUL) (stored (mLogFM d'))
  /\ buf w + LOG_PAGE_SIZE <= NUL
  /\ (m' (buf w + 1) = "+"%byte
      /\ sizeof_PageHeader + LOG_UNIT_PACKING * load_le m' (buf w + 2) 2 = size).
Proof.
  intros (Hm & Ho & Hal & _) Hn Hv w size Hfit Hov d' m' NUL.
  unfold dLiteral_length in *.
  destruct (blockSize_facts name Hn) as (Hr1 & H41 & Hl1 & _).
  destruct (blockSize_facts value Hv) as (Hr2 & H42 & Hl2 & _).
  fold w in Hm, Ho, Hal.
  assert (blockSize value <= Z.of_nat (List.length value) + 6) as Hup.
  { unfold blockSize.
    assert (uint32_t (size_t (sizeof_uint16_t + Z.of_nat (List.length value) + 1))
            = Z.of_nat (List.length value) + 3) as ->.
    { revert Hv. machine. intros Hv.
      rewrite (Z.mod_small (2 + _ + 1)) by lia. rewrite Z.mod_small by lia. lia. }
    pose proof (alignedSize_bounds (Z.of_nat (List.length value) + 3)) as Hb.
    revert Hb Hv. machine. intros Hb Hv. lia. }
  pose proof (writeSS_eq (FuncID_code SetValueSS) name
                (Z.of_nat (List.length name)) value
                (Z.of_nat (List.length value)) d) as E.
  cbv zeta in E. fold (blockSize name) (blockSize value) in E. fold w in E.
  rewrite writeLock_stays in E;
    [|exact Hm|revert Ho; machine; lia|apply Hr1|exact H41|exact Hfit].
  cbn [fst snd] in E.
  set (p := buf w + mBufferOffset w + sizeof_UnitHeader) in *.
  set (fm2 := putS (p + blockSize name) value _ (putS p name _ _)) in E.
  assert (p + blockSize name + blockSize value - buf w = size) as Ep
    by (subst p size; lia).
  assert (size < 262152) as Hsz
    by (subst size; revert Ho Hr1 Hr2; machine;
        change (2 ^ 17) with 131072; lia).
  assert (size mod 4 = 0) as Hs4
    by (subst size; revert Hal H41 H42; machine; intros; zdiv).
  assert (uint32_t size = size) as Eu
    by (revert Hsz Hov; machine; intros; apply Z.mod_small; lia).
  subst m' d'. unfold setValueSS, dLiteral_length. rewrite E.
  cbn [mPageWriter mLogFM].
  destruct (writeUnlock_buffer fm2 (p + blockSize name + blockSize value) w)
    as (B1 & B2 & B3).
  rewrite Ep, Eu in B2.
  split; [exact B1|]. split; [exact B3|]. split; [exact B2|].
  split; [|split].
  - apply (adds_keeps _ _ _ _ (writeUnlock_adds fm2 _ w)).
    subst fm2 NUL p.
    replace (buf w + mBufferOffset w + sizeof_UnitHeader + blockSize name
             + sizeof_uint16_t + Z.of_nat (List.length value))
      with (buf w + mBufferOffset w + sizeof_UnitHeader + blockSize name
            + (sizeof_uint16_t + Z.of_nat (List.length value))) by lia.
    apply putS_stores_NUL.
  - subst NUL size. revert Hov Hup Hal H41 H42 Hfit. machine. intros. zdiv.
  - unfold writeUnlock. rewrite Ep, Eu. cbn [mBufferOffset].
    set (w1 := {| mBuffer := mBuffer w; mBufferOffset := size;
                  mPageOffset := mPageOffset w; mPageID := mPageID w |}).
    change (snd (let '(_, fm1) := rewriteHeader "+" size w1 fm2 in (w1, fm1)))
      with (snd (rewriteHeader "+" size w1 fm2)).
    destruct (rewriteHeader_reads "+" size w1 fm2) as (_ & G2 & G3 & _).
    change (buf w1) with (buf w) in G2, G3.
    split; [exact G2|]. rewrite G3.
    revert Hsz Hov Hs4. machine. intros Hsz Hov Hs4.
    rewrite (Z.mod_small (size - 8)) by lia.
    rewrite Z.mod_small by zdiv. zdiv.
Qed.

Lemma setValueSS_overruns_page_witness :
  let d' := setValueSS (literal "k") (literal "vv") long_trace in
  mBufferOffset (mPageWriter d') = 65540
  /\ In (PayloadStore, 65536) (stored (mLogFM d')).
Proof.
  destruct (setValueSS_overruns_page (literal "k") (literal "vv") long_trace)
    as (_ & _ & O & S & _).
  - closed.
  - closed.
  - closed.
  - closed.
  - closed.
  - split; [exact O|exact S].
Defined.

(** X16.  [killClient] (Linux) calls [kill] once for each entry of
    ["/proc/"] that is a string of digits and whose executable link can be
    read, is not empty and holds [name] somewhere in its first 252 bytes (any
    part of the path counts, and an empty [name] is held by every path); the
    calls are made in the order of the directory, with the entry read as
    [atoi] reads it.  The loop ends with the first call when [all] is not
    set, and with a call that does not return because the signal ends the
    caller itself. *)
Theorem killClient_signals_matching_processes
  (name : list byte) (all : bool)
  (readlink : list byte -> option (list byte)) (kill : Z -> bool)
  (entries : list (list byte)) (matching : list byte -> bool) :
  (forall d_name,
     matching d_name = true
     <-> allDigits d_name = true
         /\ exists target pre post,
              readlink (literal "/proc/" ++ d_name ++ literal "/exe")
              = Some target
              /\ target <> []
              /\ firstn 252 target = pre ++ name ++ post) ->
  killClient name all readlink kill entries
  = upTo (fun pid => negb all || negb (kill pid))
      (map atoi (filter matching entries)).
Proof.
  intros Hm.
  induction entries as [|d_name rest IH]; [reflexivity|].
  cbn [killClient filter].
  destruct (matching d_name) eqn:Hsel.
  - apply Hm in Hsel. destruct Hsel as (Hd & target & pre & post & Hl & Hne & Hs).
    rewrite Hd, Hl.
    assert ((0 <? Z.min (Z.of_nat (List.length target)) 252) = true) as ->.
    { apply Z.ltb_lt. destruct target; [contradiction|].
      cbn [List.length]. lia. }
    rewrite firstn_cut by lia. change (Z.to_nat 252) with 252%nat.
    assert (strstr (firstn 252 target) name = true) as ->
      by (apply strstr_spec; exists pre, post; exact Hs).
    cbn [map upTo]. f_equal.
    destruct (kill (atoi d_name)), all; cbn [negb orb]; try reflexivity.
    exact IH.
  - assert (matching d_name <> true) as Hno by (rewrite Hsel; discriminate).
    rewrite Hm in Hno.
    destruct (allDigits d_name) eqn:Hd; [|exact IH].
    destruct (readlink (literal "/proc/" ++ d_name ++ literal "/exe"))
      as [target|] eqn:Hl; [|exact IH].
    destruct (0 <? Z.min (Z.of_nat (List.length target)) 252) eqn:Hlen;
      [|exact IH].
    rewrite firstn_cut by lia. change (Z.to_nat 252) with 252%nat.
    destruct (strstr (firstn 252 target) name) eqn:Hs; [|exact IH].
    exfalso. apply Hno. split; [reflexivity|].
    apply strstr_spec in Hs. destruct Hs as (pre & post & Hs).
    exists target, pre, post. split; [reflexivity|]. split; [|exact Hs].
    intros E. rewrite E in Hlen. discriminate Hlen.
Qed.

Lemma killClient_signals_matching_processes_witness :
  let readlink := fun _ : list byte => Some (literal "/usr/bin/client") in
  let entries := [literal "1"; literal "self"; literal "42"; literal "7"] in
  killClient (literal "client") true readlink (fun _ => true) entries
  = [1; 42; 7]
  /\ killClient (literal "client") true readlink (fun pid => negb (pid =? 42))
       entries
     = [1; 42]
  /\ killClient (literal "client") false readlink (fun _ => true) entries = [1].
Proof.
  assert (forall d_name,
            allDigits d_name = true
            <-> allDigits d_name = true
                /\ exists target pre post,
                     Some (literal "/usr/bin/client") = Some target
                     /\ target <> []
                     /\ firstn 252 target = pre ++ literal "client" ++ post)
    as Hm.
  { intros d_name. split; [|intros [H _]; exact H].
    intros H. split; [exact H|].
    exists (literal "/usr/bin/client"), (literal "/usr/bin/"), [].
    split; [reflexivity|]. split; [discriminate|reflexivity]. }
  split; [|split].
  - rewrite (killClient_signals_matching_processes (literal "client") true
               (fun _ => Some (literal "/usr/bin/client")) (fun _ => true)
               _ allDigits Hm).
    reflexivity.
  - rewrite (killClient_signals_matching_processes (literal "client") true
               (fun _ => Some (literal "/usr/bin/client"))
               (fun pid => negb (pid =? 42)) _ allDigits Hm).
    reflexivity.
  - rewrite (killClient_signals_matching_processes (literal "client") false
               (fun _ => Some (literal "/usr/bin/client")) (fun _ => true)
               _ allDigits Hm).
    reflexivity.
Defined.
